(** * Kinopoisk plugin: formatting engine and request orchestration

    A shallow embedding of [src/APIProvider/DataFormatter.ts] and
    [src/APIProvider/provider.ts].

    Conventions of the embedding.
    - A JavaScript string is the list of its UTF-16 code units, each a [Z].
    - A JavaScript exception is the [Throw] branch of [Result].
    - A Number that holds an integer (an id, an episode count) is a [Z];
      what the code computes from it follows double-precision arithmetic:
      a sum is rounded to the nearest double, a quotient is the double
      nearest to it, and printing gives the shortest digits that read back
      as the same double.  Numbers that may carry a fraction (ratings,
      votes, money) are exact rationals [Q], which contain every finite
      double.
    - Platform functions whose behaviour the sources do not fix (the
      engine's fallback date parser, the local time zone, helpers of
      modules outside the two files) are variables of a section. *)

From Stdlib Require Import String Ascii Numbers.DecimalString.
From Stdlib Require Import ZArith QArith Qround Lqa Bool Lia List.
Import ListNotations.

Local Open Scope Z_scope.

(** ** JavaScript strings *)

Definition code_unit := Z.
Definition jsstring := list code_unit.

(** An ASCII literal as a JavaScript string. *)
Definition lit (s : string) : jsstring :=
  map (fun a => Z.of_nat (nat_of_ascii a)) (list_ascii_of_string s).

Definition dquote : code_unit := 34.
Definition space : code_unit := 32.
Definition newline : code_unit := 10.
Definition colon : code_unit := 58.

Definition jsstring_eqb (a b : jsstring) : bool :=
  if list_eq_dec Z.eq_dec a b then true else false.

(** The class [\s] of regular expressions, which is also the set that
    [String.prototype.trim] strips: WhiteSpace and LineTerminator. *)
Definition is_ws (c : code_unit) : bool :=
  ((9 <=? c) && (c <=? 13))
  || (c =? 32) || (c =? 160) || (c =? 5760)
  || ((8192 <=? c) && (c <=? 8202))
  || (c =? 8232) || (c =? 8233) || (c =? 8239) || (c =? 8287)
  || (c =? 12288) || (c =? 65279).

Fixpoint trimStart (s : jsstring) : jsstring :=
  match s with
  | [] => []
  | c :: r => if is_ws c then trimStart r else s
  end.

Definition trimEnd (s : jsstring) : jsstring := rev (trimStart (rev s)).

(** [s.trim()] *)
Definition trim (s : jsstring) : jsstring := trimEnd (trimStart s).

(** [s.trim() !== ""] *)
Definition nonblank (s : jsstring) : bool :=
  match trim s with [] => false | _ :: _ => true end.

(** Truthiness of a string: only the empty string is falsy. *)
Definition truthy_str (s : jsstring) : bool :=
  match s with [] => false | _ :: _ => true end.

(** [s.replace(/:/g, "")] *)
Definition remove_colons (s : jsstring) : jsstring :=
  filter (fun c => negb (c =? colon)) s.

(** [s.replace(/\n/g, " ")] *)
Definition newlines_to_spaces (s : jsstring) : jsstring :=
  map (fun c => if c =? newline then space else c) s.

(** [s.replace(/\s+/g, " ")]: [in_run] tells that the previous code unit
    belonged to the whitespace run being replaced. *)
Fixpoint collapse_from (in_run : bool) (s : jsstring) : jsstring :=
  match s with
  | [] => []
  | c :: r =>
      if is_ws c
      then (if in_run then collapse_from true r else space :: collapse_from true r)
      else c :: collapse_from false r
  end.

Definition collapse_ws (s : jsstring) : jsstring := collapse_from false s.

(** [Array.prototype.slice(0, end)] *)
Definition slice0 {A} (l : list A) (e : Z) : list A :=
  let len := Z.of_nat (length l) in
  let k := if e <? 0 then Z.max (len + e) 0 else Z.min e len in
  firstn (Z.to_nat k) l.

(** ** Numbers that hold integers

    Double-precision arithmetic on integers, after ECMA-262 (the Number
    type, Number::add, Number::divide, Number::toString). *)

(** The integer nearest to [num / den], the even one on a tie, for
    [0 <= num] and [0 < den]. *)
Definition round_half_even (num den : Z) : Z :=
  let q := num / den in
  let r := num mod den in
  if 2 * r <? den then q
  else if den <? 2 * r then q + 1
  else if Z.even q then q else q + 1.

(** The double nearest to a non-negative integer: 53 significant bits. *)
Definition nearest_double (x : Z) : Z :=
  let e := Z.log2 x - 52 in
  if e <=? 0 then x else round_half_even x (2 ^ e) * 2 ^ e.

(** The Number that an integer numeral denotes. *)
Definition to_Number (z : Z) : Z := Z.sgn z * nearest_double (Z.abs z).

(** [a + b] on Numbers that hold the integers [a] and [b], for sums of
    magnitude below 2^1024 (from there on the code has [Infinity]). *)
Definition Number_add (a b : Z) : Z := to_Number (a + b).

(** [floor (log2 (num / den))] for positive [num] and [den]. *)
Definition binade (num den : Z) : Z :=
  let d := Z.log2 num - Z.log2 den in
  if num * 2 ^ Z.max 0 (- d) <? den * 2 ^ Z.max 0 d then d - 1 else d.

(** [a / b] on Numbers that hold the integers [a] and [b <> 0]: the double
    nearest to the quotient, in the range of normal doubles. *)
Definition Number_div (a b : Z) : Q :=
  if a =? 0 then 0%Q
  else
    let e := binade (Z.abs a) (Z.abs b) - 52 in
    let m := round_half_even (Z.abs a * 2 ^ Z.max 0 (- e))
                             (Z.abs b * 2 ^ Z.max 0 e) in
    Qmake (Z.sgn a * Z.sgn b * m * 2 ^ Z.max 0 e)
          (Z.to_pos (2 ^ Z.max 0 (- e))).

(** [Math.ceil] *)
Definition Math_ceil (x : Q) : Z := Qceiling x.

Definition MAX_SAFE_INTEGER : Z := 2 ^ 53 - 1.

(** The decimal digits of an integer. *)
Definition decimal (z : Z) : jsstring :=
  lit (NilZero.string_of_int (Z.to_int z)).

Definition digit_count (x : Z) : Z := Z.of_nat (length (decimal x)).

(** Number::toString, step 5, for one length [k]: the [s] of [k] digits
    and the [n] for which [s * 10^(n-k)] rounds to the double [x], the one
    nearest to [x] when there are two, the even one on a tie; [n] is the
    number of digits of [x], or one more when [s * 10^(n-k)] is the next
    power of ten. *)
Definition digits_of_length (x n k : Z) : option (Z * Z) :=
  let p := 10 ^ (n - k) in
  let lo := x / p in
  let hi := lo + 1 in
  let ok_lo := nearest_double (lo * p) =? x in
  let ok_hi := nearest_double (hi * p) =? x in
  let up := if hi =? 10 ^ k then (10 ^ (k - 1), n + 1) else (hi, n) in
  match ok_lo, ok_hi with
  | true, true =>
      let dl := x - lo * p in
      let dh := hi * p - x in
      if dl <? dh then Some (lo, n)
      else if dh <? dl then Some up
      else if Z.even lo then Some (lo, n) else Some up
  | true, false => Some (lo, n)
  | false, true => Some up
  | false, false => None
  end.

(** The least [k] with such digits, from [k] on; 17 digits identify every
    double, and an integer of [n] digits needs at most [n]. *)
Fixpoint shortest_digits (fuel : nat) (x n k : Z) : Z * Z * Z :=
  match fuel with
  | O => (x, n, n)
  | S f =>
      if n <? k then (x, n, n)
      else match digits_of_length x n k with
           | Some (s, n') => (s, n', k)
           | None => shortest_digits f x n (k + 1)
           end
  end.

(** Number::toString of a positive integer double: the digits followed by
    zeros up to 21 digits, the exponent form from there on. *)
Definition Number_toString_positive (x : Z) : jsstring :=
  if 2 ^ 1024 <=? x then lit "Infinity"
  else
    let '(s, n, k) := shortest_digits 17 x (digit_count x) 1 in
    let digits := decimal s in
    if n <=? 21 then digits ++ repeat 48 (Z.to_nat (n - k))
    else
      match digits with
      | d :: rest =>
          (d :: match rest with [] => [] | _ :: _ => 46 :: rest end)
            ++ lit "e+" ++ decimal (n - 1)
      | [] => []
      end.

(** The text of the Number that holds the integer [z], as a template
    literal or [toString()] gives it: [7] is printed as 7, [2^64] as
    18446744073709552000 and [10^21] as 1e+21. *)
Definition int_to_string (z : Z) : jsstring :=
  let x := to_Number z in
  if x =? 0 then lit "0"
  else if x <? 0 then 45 :: Number_toString_positive (- x)
  else Number_toString_positive x.

(** ** Exceptions *)

(** What the code at hand throws: the engine's [TypeError] on a property
    read of [null] or [undefined], and [new Error(message)]. *)
Inductive Exn : Type :=
  | TypeError
  | Error (message : jsstring).

Inductive Result (A : Type) : Type :=
  | Ok (a : A)
  | Throw (e : Exn).
Arguments Ok {A} a.
Arguments Throw {A} e.

Definition bind {A B} (m : Result A) (k : A -> Result B) : Result B :=
  match m with
  | Ok a => k a
  | Throw e => Throw e
  end.

Notation "x <- m ;; k" := (bind m (fun x => k))
  (at level 61, m at next level, right associativity).

(** [Array.prototype.map] with a callback that may throw: the first
    exception aborts the traversal. *)
Fixpoint mapM {A B} (f : A -> Result B) (l : list A) : Result (list B) :=
  match l with
  | [] => Ok []
  | a :: r => b <- f a ;; bs <- mapM f r ;; Ok (b :: bs)
  end.

(** [Array.prototype.filter] with a callback that may throw. *)
Fixpoint filterM {A} (f : A -> Result bool) (l : list A) : Result (list A) :=
  match l with
  | [] => Ok []
  | a :: r =>
      b <- f a ;; rs <- filterM f r ;; Ok (if b then a :: rs else rs)
  end.

(** ** DataFormatter.ts *)

Definition MAX_ARRAY_ITEMS : Z := 50.
Definition MAX_FACTS_COUNT : Z := 5.

Inductive FormatType : Type :=
  | SHORT_VALUE
  | LONG_TEXT
  | URL
  | LINK
  | LINK_WITH_PATH
  | LINK_ID_WITH_PATH.

(** The elements [formatArray] meets at run time.  Its parameter is typed
    [string[] | Array<{name; id?}>] and then cast to [any[]]; the body
    inspects every element with [typeof] and property reads, so the
    elements are modelled as the dynamic values those tests distinguish. *)
Inductive Item : Type :=
  | IStr (s : jsstring)
  | IObj (name : option jsstring) (id : option Z)
  | IFunction (name : jsstring)
  | INull
  | IUndefined.

(** [item.name]: reading a property of [null] or [undefined] throws; a
    string has no [name] property, a function has its name. *)
Definition get_name (it : Item) : Result (option jsstring) :=
  match it with
  | IStr _ => Ok None
  | IObj n _ => Ok n
  | IFunction n => Ok (Some n)
  | INull | IUndefined => Throw TypeError
  end.

Definition get_id (it : Item) : option Z :=
  match it with
  | IObj _ i => i
  | _ => None
  end.

(** [typeof item === 'object'] *)
Definition typeof_object (it : Item) : bool :=
  match it with
  | IObj _ _ | INull => true
  | IStr _ | IFunction _ | IUndefined => false
  end.

Definition truthy_opt_str (o : option jsstring) : bool :=
  match o with Some s => truthy_str s | None => false end.

(** Truthiness of an optional number: absent, [0] are falsy. *)
Definition truthy_id (o : option Z) : bool :=
  match o with Some z => negb (z =? 0) | None => false end.

(** [cleanTextForMetadata] *)
Definition cleanTextForMetadata (text : jsstring) : jsstring :=
  if negb (truthy_str text) then [] else trim (remove_colons text).

(** [folderPath && folderPath.trim() !== ""] *)
Definition path_given (folderPath : option jsstring) : bool :=
  match folderPath with
  | Some p => truthy_str p && nonblank p
  | None => false
  end.

Definition path_text (folderPath : option jsstring) : jsstring :=
  match folderPath with Some p => p | None => [] end.

Definition quoted_link (inner : jsstring) : jsstring :=
  dquote :: lit "[[" ++ inner ++ lit "]]" ++ [dquote].

(** The callback of [map] in the [LINK_ID_WITH_PATH] branch. *)
Definition renderIdLink (folderPath : option jsstring)
    (name : jsstring) (id : option Z) : jsstring :=
  let cleanName := cleanTextForMetadata name in
  match id with
  | Some i =>
      if path_given folderPath && truthy_id id
      then quoted_link (path_text folderPath ++ lit "/" ++ int_to_string i
                          ++ lit "|" ++ cleanName)
      else if truthy_id id
      then quoted_link (int_to_string i ++ lit "|" ++ cleanName)
      else quoted_link cleanName
  | None => quoted_link cleanName
  end.

(** The [switch] on the format type, applied to one kept string. *)
Definition renderString (formatType : FormatType)
    (folderPath : option jsstring) (item : jsstring) : jsstring :=
  match formatType with
  | SHORT_VALUE => cleanTextForMetadata item
  | LONG_TEXT =>
      let cleanedItem := trim (collapse_ws (newlines_to_spaces item)) in
      dquote :: cleanedItem ++ [dquote]
  | URL => trim item
  | LINK => quoted_link (cleanTextForMetadata item)
  | LINK_WITH_PATH =>
      let cleanName := cleanTextForMetadata item in
      if path_given folderPath
      then quoted_link (path_text folderPath ++ lit "/" ++ cleanName)
      else quoted_link cleanName
  | LINK_ID_WITH_PATH => item
  end.

(** [item.name && item.name.trim() !== ""] *)
Definition keepPerson (it : Item) : Result bool :=
  n <- get_name it ;;
  Ok (match n with
      | Some s => truthy_str s && nonblank s
      | None => false
      end).

(** [typeof item === 'object' && item.name ? item.name : item] *)
Definition toStringItem (it : Item) : Result Item :=
  if typeof_object it
  then n <- get_name it ;;
       Ok (match n with
           | Some s => if truthy_str s then IStr s else it
           | None => it
           end)
  else Ok it.

(** [typeof item === 'string' && item.trim() !== ""], keeping the string. *)
Definition keepString (it : Item) : option jsstring :=
  match it with
  | IStr s => if nonblank s then Some s else None
  | _ => None
  end.

Fixpoint filterStrings (l : list Item) : list jsstring :=
  match l with
  | [] => []
  | it :: r =>
      match keepString it with
      | Some s => s :: filterStrings r
      | None => filterStrings r
      end
  end.

Definition personName (it : Item) : jsstring :=
  match it with
  | IObj (Some n) _ => n
  | IFunction n => n
  | _ => []
  end.

Definition formatArray (items : list Item) (formatType : FormatType)
    (folderPath : option jsstring) (maxItems : Z) : Result (list jsstring) :=
  match formatType with
  | LINK_ID_WITH_PATH =>
      kept <- filterM keepPerson items ;;
      Ok (map (fun it => renderIdLink folderPath (personName it) (get_id it))
              (slice0 kept maxItems))
  | _ =>
      stringItems <- mapM toStringItem items ;;
      let filteredItems := slice0 (filterStrings stringItems) maxItems in
      Ok (map (renderString formatType folderPath) filteredItems)
  end.

(** *** Seasons *)

Record SeasonsData : Type := {
  count : Z;
  averageEpisodesPerSeason : Z
}.

(** [calculateSeasonsData]: a season is represented by its
    [episodesCount]. *)
Definition calculateSeasonsData (seasonsInfo : option (list Z)) : SeasonsData :=
  match seasonsInfo with
  | None => {| count := 0; averageEpisodesPerSeason := 0 |}
  | Some [] => {| count := 0; averageEpisodesPerSeason := 0 |}
  | Some seasons =>
      let totalEpisodes :=
        fold_left (fun total episodesCount => Number_add total episodesCount)
                  seasons 0 in
      let averageEpisodes :=
        Math_ceil (Number_div totalEpisodes (Z.of_nat (length seasons))) in
      {| count := Z.of_nat (length seasons);
         averageEpisodesPerSeason := averageEpisodes |}
  end.

(** *** People *)

(** [KinopoiskPerson], with the three properties the formatter reads.  A
    property that is missing or [null] is [None]. *)
Record KinopoiskPerson : Type := {
  person_id : option Z;
  person_name : option jsstring;
  person_enProfession : option jsstring
}.

(** [{ name: person.name, id: person.id }] *)
Record PersonData : Type := {
  pd_name : jsstring;
  pd_id : option Z
}.

Definition item_of_person (p : PersonData) : Item :=
  IObj (Some (pd_name p)) (pd_id p).

Record People : Type := {
  directors : list PersonData;
  actors : list PersonData;
  writers : list PersonData;
  producers : list PersonData
}.

Definition no_people : People :=
  {| directors := []; actors := []; writers := []; producers := [] |}.

(** One iteration of the [for ... of] loop of [extractPeople]. *)
Definition extractPeople_step (result : People) (person : KinopoiskPerson) : People :=
  match person_name person, person_enProfession person with
  | Some name, Some enProfession =>
      if negb (truthy_str name) || negb (truthy_str enProfession) then result
      else
        let personData := {| pd_name := name; pd_id := person_id person |} in
        if jsstring_eqb enProfession (lit "director") then
          {| directors := directors result ++ [personData];
             actors := actors result;
             writers := writers result;
             producers := producers result |}
        else if jsstring_eqb enProfession (lit "actor") then
          {| directors := directors result;
             actors := actors result ++ [personData];
             writers := writers result;
             producers := producers result |}
        else if jsstring_eqb enProfession (lit "writer") then
          {| directors := directors result;
             actors := actors result;
             writers := writers result ++ [personData];
             producers := producers result |}
        else if jsstring_eqb enProfession (lit "producer") then
          {| directors := directors result;
             actors := actors result;
             writers := writers result;
             producers := producers result ++ [personData] |}
        else result
  | _, _ => result
  end.

Definition extractPeople (persons : list KinopoiskPerson) : People :=
  fold_left extractPeople_step persons no_people.

(** [extractPersonIds]: the ids that are not [undefined]. *)
Definition extractPersonIds (persons : list PersonData) : list Z :=
  flat_map (fun person => match pd_id person with
                          | Some id => [id]
                          | None => []
                          end) persons.

(** *** Names of companies, networks, related titles and alternate names *)

(** [.filter((name) => name && name.trim() !== "")] *)
Definition filterNames (names : list jsstring) : list jsstring :=
  filter (fun name => truthy_str name && nonblank name) names.

(** *** Facts *)

Definition lt_sign : code_unit := 60.
Definition gt_sign : code_unit := 62.
Definition ampersand : code_unit := 38.
Definition semicolon : code_unit := 59.
Definition hash_sign : code_unit := 35.

(** [text.replace(/<[^>]*>/g, "")]: a [<] opens a tag only when a [>]
    follows somewhere; the tag then runs to the first [>]. *)
Fixpoint remove_tags_from (in_tag : bool) (s : jsstring) : jsstring :=
  match s with
  | [] => []
  | c :: r =>
      if in_tag
      then (if c =? gt_sign then remove_tags_from false r
            else remove_tags_from true r)
      else if (c =? lt_sign) && existsb (fun x => x =? gt_sign) r
      then remove_tags_from true r
      else c :: remove_tags_from false r
  end.

Definition remove_tags (s : jsstring) : jsstring := remove_tags_from false s.

Fixpoint starts_with (prefix s : jsstring) : bool :=
  match prefix, s with
  | [], _ => true
  | _ :: _, [] => false
  | a :: p, b :: r => (a =? b) && starts_with p r
  end.

(** [s.replace(new RegExp(pattern, "g"), replacement)] for a pattern
    without metacharacters: the matches are taken left to right and do
    not overlap.  [skip] counts the code units of the current match that
    are still to be dropped. *)
Fixpoint replace_all_from (skip : nat) (pattern replacement s : jsstring)
    : jsstring :=
  match s with
  | [] => []
  | c :: r =>
      match skip with
      | S k => replace_all_from k pattern replacement r
      | O =>
          if truthy_str pattern && starts_with pattern s
          then replacement
                 ++ replace_all_from (length pattern - 1) pattern replacement r
          else c :: replace_all_from 0 pattern replacement r
      end
  end.

Definition replace_all (pattern replacement s : jsstring) : jsstring :=
  replace_all_from 0 pattern replacement s.

(** [HTML_ENTITIES], in the order [Object.entries] lists it. *)
Definition HTML_ENTITIES : list (jsstring * jsstring) :=
  [ (lit "&laquo;", [171]);
    (lit "&raquo;", [187]);
    (lit "&ldquo;", [dquote]);
    (lit "&rdquo;", [dquote]);
    (lit "&lsquo;", [39]);
    (lit "&rsquo;", [39]);
    (lit "&quot;", [dquote]);
    (lit "&amp;", [ampersand]);
    (lit "&lt;", [lt_sign]);
    (lit "&gt;", [gt_sign]);
    (lit "&nbsp;", [space]);
    (lit "&ndash;", [8211]);
    (lit "&mdash;", [8212]);
    (lit "&hellip;", [8230]) ].

(** The class [\w]. *)
Definition is_word (c : code_unit) : bool :=
  ((48 <=? c) && (c <=? 57)) || ((65 <=? c) && (c <=? 90))
  || ((97 <=? c) && (c <=? 122)) || (c =? 95).

Fixpoint word_run (s : jsstring) : nat :=
  match s with
  | c :: r => if is_word c then S (word_run r) else O
  | [] => O
  end.

(** Length of the match of [&#?\w+;] at the head of [s], if any. *)
Definition entity_match (s : jsstring) : option nat :=
  match s with
  | c :: r =>
      if c =? ampersand then
        let '(h, body) :=
          match r with
          | x :: r' => if x =? hash_sign then (1%nat, r') else (0%nat, r)
          | [] => (0%nat, r)
          end in
        let w := word_run body in
        match w, skipn w body with
        | S _, x :: _ =>
            if x =? semicolon then Some (1 + h + w + 1)%nat else None
        | _, _ => None
        end
      else None
  | [] => None
  end.

(** [text.replace(/&#?\w+;/g, "")] *)
Fixpoint remove_entities_from (skip : nat) (s : jsstring) : jsstring :=
  match s with
  | [] => []
  | c :: r =>
      match skip with
      | S k => remove_entities_from k r
      | O =>
          match entity_match s with
          | Some n => remove_entities_from (n - 1) r
          | None => c :: remove_entities_from 0 r
          end
      end
  end.

Definition remove_entities (s : jsstring) : jsstring :=
  remove_entities_from 0 s.

(** [stripHtmlTags] *)
Definition stripHtmlTags (text : jsstring) : jsstring :=
  let cleanText := remove_tags text in
  let cleanText :=
    fold_left (fun acc entry => replace_all (fst entry) (snd entry) acc)
              HTML_ENTITIES cleanText in
  let cleanText := remove_entities cleanText in
  trim cleanText.

Record KinopoiskFact : Type := {
  fact_value : jsstring;
  fact_spoiler : bool
}.

(** [processFacts] *)
Definition processFacts (facts : list KinopoiskFact) : list jsstring :=
  map (fun fact => stripHtmlTags (fact_value fact))
      (slice0
         (filter (fun fact =>
                    negb (fact_spoiler fact)
                    && truthy_str (fact_value fact)
                    && nonblank (fact_value fact))
                 facts)
         MAX_FACTS_COUNT).

(** *** Images and content types *)

(** [createImageLink] *)
Definition createImageLink (imagePath : jsstring) : list jsstring :=
  if negb (truthy_str imagePath) || negb (nonblank imagePath) then []
  else if negb (starts_with (lit "http") imagePath)
  then [lit "![[" ++ imagePath ++ lit "]]"]
  else [lit "![](" ++ imagePath ++ lit ")"].

(** [TYPE_TRANSLATIONS]: the Russian display strings, as code units. *)
Definition TYPE_TRANSLATIONS : list (jsstring * jsstring) :=
  [ (lit "animated-series",
     [1040; 1085; 1080; 1084; 1072; 1094; 1080; 1086; 1085; 1085; 1099; 1081;
      32; 1089; 1077; 1088; 1080; 1072; 1083]);
    (lit "anime", [1040; 1085; 1080; 1084; 1077]);
    (lit "cartoon",
     [1052; 1091; 1083; 1100; 1090; 1092; 1080; 1083; 1100; 1084]);
    (lit "movie", [1060; 1080; 1083; 1100; 1084]);
    (lit "tv-series", [1057; 1077; 1088; 1080; 1072; 1083]) ].

(** The properties that every object literal inherits from
    [Object.prototype] (ECMA-262, with Annex B): eleven functions and the
    accessor [__proto__], which answers the prototype itself, an object
    without [name] and [id]. *)
Definition OBJECT_PROTOTYPE : list (jsstring * Item) :=
  [ (lit "constructor", IFunction (lit "Object"));
    (lit "hasOwnProperty", IFunction (lit "hasOwnProperty"));
    (lit "isPrototypeOf", IFunction (lit "isPrototypeOf"));
    (lit "propertyIsEnumerable", IFunction (lit "propertyIsEnumerable"));
    (lit "toLocaleString", IFunction (lit "toLocaleString"));
    (lit "toString", IFunction (lit "toString"));
    (lit "valueOf", IFunction (lit "valueOf"));
    (lit "__defineGetter__", IFunction (lit "__defineGetter__"));
    (lit "__defineSetter__", IFunction (lit "__defineSetter__"));
    (lit "__lookupGetter__", IFunction (lit "__lookupGetter__"));
    (lit "__lookupSetter__", IFunction (lit "__lookupSetter__"));
    (lit "__proto__", IObj None None) ].

Fixpoint lookup {V : Type} (key : jsstring) (table : list (jsstring * V))
    : option V :=
  match table with
  | [] => None
  | (k, v) :: rest => if jsstring_eqb k key then Some v else lookup key rest
  end.

(** [translateType]: [TYPE_TRANSLATIONS[type] || type].  The table is an
    object literal, so the read finds its five own keys and then the
    members of [Object.prototype], which are truthy and are no strings. *)
Definition translateType (type : jsstring) : Item :=
  match lookup type TYPE_TRANSLATIONS with
  | Some v => if truthy_str v then IStr v else IStr type
  | None =>
      match lookup type OBJECT_PROTOTYPE with
      | Some member => member
      | None => IStr type
      end
  end.

(** ** The Date built-in

    Time values are milliseconds since the epoch, in UTC.  The
    definitions follow the abstract operations of ECMA-262
    (Day, DayFromYear, YearFromTime, MonthFromTime, DateFromTime,
    MakeDay, Date.prototype.toISOString). *)

Definition msPerDay : Z := 86400000.

Definition Day (t : Z) : Z := t / msPerDay.
Definition TimeWithinDay (t : Z) : Z := t mod msPerDay.

Definition DayFromYear (y : Z) : Z :=
  365 * (y - 1970) + (y - 1969) / 4 - (y - 1901) / 100 + (y - 1601) / 400.

Definition InLeapYear (y : Z) : bool :=
  ((y mod 4 =? 0) && negb (y mod 100 =? 0)) || (y mod 400 =? 0).

(** The largest [y] with [DayFromYear y <= d]: an estimate from the mean
    year length, corrected by at most one. *)
Definition YearFromDay (d : Z) : Z :=
  let y := 1970 + (400 * d) / 146097 in
  if d <? DayFromYear y then y - 1
  else if DayFromYear (y + 1) <=? d then y + 1
  else y.

Definition YearFromTime (t : Z) : Z := YearFromDay (Day t).

Definition DayWithinYear (d : Z) : Z := d - DayFromYear (YearFromDay d).

(** Day number within the year on which month [m] (0 to 11) starts. *)
Definition month_start (leap : bool) (m : Z) : Z :=
  let l := if leap then 1 else 0 in
  if m <=? 0 then 0
  else if m =? 1 then 31
  else if m =? 2 then 59 + l
  else if m =? 3 then 90 + l
  else if m =? 4 then 120 + l
  else if m =? 5 then 151 + l
  else if m =? 6 then 181 + l
  else if m =? 7 then 212 + l
  else if m =? 8 then 243 + l
  else if m =? 9 then 273 + l
  else if m =? 10 then 304 + l
  else if m =? 11 then 334 + l
  else 365 + l.

Definition MonthFromDay (d : Z) : Z :=
  let leap := InLeapYear (YearFromDay d) in
  let w := DayWithinYear d in
  if w <? month_start leap 1 then 0
  else if w <? month_start leap 2 then 1
  else if w <? month_start leap 3 then 2
  else if w <? month_start leap 4 then 3
  else if w <? month_start leap 5 then 4
  else if w <? month_start leap 6 then 5
  else if w <? month_start leap 7 then 6
  else if w <? month_start leap 8 then 7
  else if w <? month_start leap 9 then 8
  else if w <? month_start leap 10 then 9
  else if w <? month_start leap 11 then 10
  else 11.

Definition DateFromDay (d : Z) : Z :=
  DayWithinYear d - month_start (InLeapYear (YearFromDay d)) (MonthFromDay d) + 1.

Definition DaysInMonth (y m : Z) : Z :=
  month_start (InLeapYear y) (m + 1) - month_start (InLeapYear y) m.

(** [MakeDay(year, month, date)] for a month in 0..11. *)
Definition MakeDay (y m dt : Z) : Z :=
  DayFromYear y + month_start (InLeapYear y) m + dt - 1.

Definition digit (k : Z) : code_unit := 48 + k.

(** [n] in decimal on [w] digits, zero-padded. *)
Fixpoint pad (w : nat) (n : Z) : jsstring :=
  match w with
  | O => []
  | S w' => pad w' (n / 10) ++ [digit (n mod 10)]
  end.

Definition iso_year (y : Z) : jsstring :=
  if (0 <=? y) && (y <=? 9999) then pad 4 y
  else (if y <? 0 then lit "-" else lit "+") ++ pad 6 (Z.abs y).

(** The date part [YYYY-MM-DD] of [toISOString]. *)
Definition iso_date (t : Z) : jsstring :=
  let d := Day t in
  iso_year (YearFromDay d) ++ lit "-" ++ pad 2 (MonthFromDay d + 1)
    ++ lit "-" ++ pad 2 (DateFromDay d).

(** The time part [HH:mm:ss.sssZ] of [toISOString]. *)
Definition iso_time (t : Z) : jsstring :=
  let w := TimeWithinDay t in
  pad 2 (w / 3600000) ++ lit ":" ++ pad 2 ((w / 60000) mod 60) ++ lit ":"
    ++ pad 2 ((w / 1000) mod 60) ++ lit "." ++ pad 3 (w mod 1000) ++ lit "Z".

(** [Date.prototype.toISOString] of a valid date. *)
Definition toISOString (t : Z) : jsstring :=
  iso_date t ++ lit "T" ++ iso_time t.

(** [s.split(sep)[0]] for a separator of one code unit. *)
Fixpoint before_first (sep : code_unit) (s : jsstring) : jsstring :=
  match s with
  | [] => []
  | c :: r => if c =? sep then [] else c :: before_first sep r
  end.

Definition digit_value (c : code_unit) : option Z :=
  if (48 <=? c) && (c <=? 57) then Some (c - 48) else None.

(** The value of a run of decimal digits; [None] if another code unit
    occurs.  [acc] is the value read so far. *)
Fixpoint read_digits (acc : Z) (s : jsstring) : option Z :=
  match s with
  | [] => Some acc
  | c :: r =>
      match digit_value c with
      | Some v => read_digits (10 * acc + v) r
      | None => None
      end
  end.

Definition segment (from len : nat) (s : jsstring) : jsstring :=
  firstn len (skipn from s).

Definition unit_at (i : nat) (s : jsstring) : code_unit := nth i s (-1).

(** The day number of a ten-unit [YYYY-MM-DD] with a month in 1..12 and a
    day that exists in that month. *)
Definition parse_iso_day (s : jsstring) : option Z :=
  match read_digits 0 (segment 0 4 s), read_digits 0 (segment 5 2 s),
        read_digits 0 (segment 8 2 s) with
  | Some y, Some m, Some d =>
      if (length s =? 10)%nat && (unit_at 4 s =? 45) && (unit_at 7 s =? 45)
         && (1 <=? m) && (m <=? 12) && (1 <=? d) && (d <=? DaysInMonth y (m - 1))
      then Some (MakeDay y (m - 1) d)
      else None
  | _, _, _ => None
  end.

(** The milliseconds of a twelve-unit [HH:mm:ss.sss] within a day. *)
Definition parse_iso_clock (s : jsstring) : option Z :=
  match read_digits 0 (segment 0 2 s), read_digits 0 (segment 3 2 s),
        read_digits 0 (segment 6 2 s), read_digits 0 (segment 9 3 s) with
  | Some h, Some mi, Some sec, Some ms =>
      if (length s =? 12)%nat && (unit_at 2 s =? 58) && (unit_at 5 s =? 58)
         && (unit_at 8 s =? 46) && (h <=? 23) && (mi <=? 59) && (sec <=? 59)
      then Some (h * 3600000 + mi * 60000 + sec * 1000 + ms)
      else None
  | _, _, _, _ => None
  end.

(** The two forms of the ECMA-262 date-time string format on which every
    engine agrees: the date-only form [YYYY-MM-DD], read as UTC midnight,
    and the full form [YYYY-MM-DDTHH:mm:ss.sssZ] that [toISOString]
    prints. *)
Definition parse_iso_strict (s : jsstring) : option Z :=
  if (length s =? 10)%nat then
    match parse_iso_day s with
    | Some d => Some (d * msPerDay)
    | None => None
    end
  else if (length s =? 24)%nat && (unit_at 10 s =? 84) && (unit_at 23 s =? 90)
  then
    match parse_iso_day (segment 0 10 s), parse_iso_clock (segment 11 12 s) with
    | Some d, Some w => Some (d * msPerDay + w)
    | _, _ => None
    end
  else None.

(** ** Numbers of the output record *)

Inductive JsNumber : Type :=
  | Finite (q : Q)
  | NaN.

(** Truthiness of a number that is present: [0] is falsy. *)
Definition truthy_num (q : Q) : bool := negb (Qnum q =? 0).

(** [x || 0] for an optional number. *)
Definition or_zero (x : option Q) : JsNumber :=
  match x with
  | Some q => if truthy_num q then Finite q else Finite 0
  | None => Finite 0
  end.

(** [Number(x.toFixed(0))]: [toFixed] takes the integer nearest to the
    magnitude of [x], the larger one on a tie, and restores the sign. *)
Definition toFixed0 (x : Q) : Z :=
  if Qnum x <? 0 then - Qfloor (- x + (1 # 2)) else Qfloor (x + (1 # 2)).

(** [x || ""] for an optional string. *)
Definition or_empty (x : option jsstring) : jsstring :=
  match x with
  | Some s => s
  | None => []
  end.

(** ** The API record and the flat output record *)

Record KinopoiskRatings : Type := {
  rating_kp : option Q;
  rating_imdb : option Q;
  rating_filmCritics : option Q;
  rating_russianFilmCritics : option Q
}.

Record KinopoiskVotes : Type := {
  votes_kp : option Q;
  votes_imdb : option Q;
  votes_filmCritics : option Q;
  votes_russianFilmCritics : option Q
}.

Record KinopoiskMoney : Type := {
  money_value : option Q;
  money_currency : option jsstring
}.

Record KinopoiskFees : Type := {
  fees_world : option KinopoiskMoney;
  fees_russia : option KinopoiskMoney;
  fees_usa : option KinopoiskMoney
}.

Record KinopoiskPremiere : Type := {
  premiere_world : option jsstring;
  premiere_russia : option jsstring;
  premiere_digital : option jsstring;
  premiere_cinema : option jsstring
}.

Record KinopoiskExternalIds : Type := {
  ext_imdb : option jsstring;
  ext_tmdb : option Q;
  ext_kpHD : option jsstring
}.

Record KinopoiskReleaseYear : Type := {
  release_start : option Q;
  release_end : option Q
}.

Record KinopoiskDistributors : Type := {
  distributors_distributor : option jsstring;
  distributors_distributorRelease : option jsstring
}.

(** [KinopoiskFullInfo].  A collection of named things (genres, countries,
    names, networks, companies, related titles) is the list of the [name]
    properties, the only ones read; an image is its optional [url]; a
    season is its [episodesCount]. *)
Module FullInfo.
Record t : Type := {
  id : Z;
  name : jsstring;
  alternativeName : option jsstring;
  type : option jsstring;
  year : Z;
  description : option jsstring;
  poster : option (option jsstring);
  genres : list jsstring;
  countries : list jsstring;
  persons : option (list KinopoiskPerson);
  movieLength : option Q;
  backdrop : option (option jsstring);
  logo : option (option jsstring);
  isSeries : bool;
  seriesLength : option Q;
  status : option jsstring;
  rating : option KinopoiskRatings;
  externalId : option KinopoiskExternalIds;
  seasonsInfo : option (list Z);
  slogan : option jsstring;
  budget : option KinopoiskMoney;
  fees : option KinopoiskFees;
  premiere : option KinopoiskPremiere;
  votes : option KinopoiskVotes;
  facts : option (list KinopoiskFact);
  shortDescription : option jsstring;
  ageRating : option Q;
  ratingMpaa : option jsstring;
  releaseYears : option (list KinopoiskReleaseYear);
  top10 : option Q;
  top250 : option Q;
  totalSeriesLength : option Q;
  enName : option jsstring;
  names : option (list jsstring);
  networks : option (option (list jsstring));
  subType : option jsstring;
  sequelsAndPrequels : option (list jsstring);
  productionCompanies : option (list jsstring);
  distributors : option KinopoiskDistributors
}.
End FullInfo.

(** The object literal that [createMovieShowFrom] returns. *)
Module MovieShow.
Record t : Type := {
  id : Z;
  name : list jsstring;
  alternativeName : list jsstring;
  year : Z;
  description : list jsstring;
  shortDescription : list jsstring;
  nameForFile : jsstring;
  alternativeNameForFile : jsstring;
  enNameForFile : jsstring;
  posterUrl : list jsstring;
  coverUrl : list jsstring;
  logoUrl : list jsstring;
  posterMarkdown : list jsstring;
  coverMarkdown : list jsstring;
  logoMarkdown : list jsstring;
  posterPath : list jsstring;
  coverPath : list jsstring;
  logoPath : list jsstring;
  genres : list jsstring;
  genresLinks : list jsstring;
  countries : list jsstring;
  countriesLinks : list jsstring;
  type : list jsstring;
  subType : list jsstring;
  director : list jsstring;
  directorsLinks : list jsstring;
  directorsLinksWithPath : list jsstring;
  directorsIdsWithPath : list jsstring;
  actors : list jsstring;
  actorsLinks : list jsstring;
  actorsLinksWithPath : list jsstring;
  actorsIdsWithPath : list jsstring;
  writers : list jsstring;
  writersLinks : list jsstring;
  writersLinksWithPath : list jsstring;
  writersIdsWithPath : list jsstring;
  producers : list jsstring;
  producersLinks : list jsstring;
  producersLinksWithPath : list jsstring;
  producersIdsWithPath : list jsstring;
  movieLength : JsNumber;
  isSeries : bool;
  seriesLength : JsNumber;
  totalSeriesLength : JsNumber;
  isComplete : bool;
  seasonsCount : Z;
  seriesInSeasonCount : Z;
  ratingKp : JsNumber;
  ratingImdb : JsNumber;
  ratingFilmCritics : JsNumber;
  ratingRussianFilmCritics : JsNumber;
  votesKp : JsNumber;
  votesImdb : JsNumber;
  votesFilmCritics : JsNumber;
  votesRussianFilmCritics : JsNumber;
  kinopoiskUrl : list jsstring;
  imdbId : list jsstring;
  tmdbId : JsNumber;
  kpHDId : list jsstring;
  slogan : list jsstring;
  ageRating : JsNumber;
  ratingMpaa : list jsstring;
  budgetValue : JsNumber;
  budgetCurrency : list jsstring;
  feesWorldValue : JsNumber;
  feesWorldCurrency : list jsstring;
  feesRussiaValue : JsNumber;
  feesRussiaCurrency : list jsstring;
  feesUsaValue : JsNumber;
  feesUsaCurrency : list jsstring;
  premiereWorld : list jsstring;
  premiereRussia : list jsstring;
  premiereDigital : list jsstring;
  premiereCinema : list jsstring;
  releaseYearsStart : JsNumber;
  releaseYearsEnd : JsNumber;
  top10 : JsNumber;
  top250 : JsNumber;
  facts : list jsstring;
  allNamesString : list jsstring;
  enName : list jsstring;
  networks : list jsstring;
  networksLinks : list jsstring;
  productionCompanies : list jsstring;
  productionCompaniesLinks : list jsstring;
  distributor : list jsstring;
  distributorRelease : list jsstring;
  sequelsAndPrequels : list jsstring;
  sequelsAndPrequelsLinks : list jsstring
}.
End MovieShow.

(** The paths of the plugin settings that the formatter keeps. *)
Record Settings : Type := {
  actorsPath : jsstring;
  directorsPath : jsstring;
  writersPath : jsstring;
  producersPath : jsstring
}.

Record Companies : Type := {
  co_networks : list jsstring;
  co_productionCompanies : list jsstring;
  co_sequelsAndPrequels : list jsstring
}.

(** [x?.map(...).filter(...) || []] *)
Definition namesOrEmpty (x : option (list jsstring)) : list jsstring :=
  match x with
  | Some l => filterNames l
  | None => []
  end.

(** [extractCompanies] *)
Definition extractCompanies (fullInfo : FullInfo.t) : Companies :=
  {| co_networks :=
       match FullInfo.networks fullInfo with
       | Some items => namesOrEmpty items
       | None => []
       end;
     co_productionCompanies := namesOrEmpty (FullInfo.productionCompanies fullInfo);
     co_sequelsAndPrequels := namesOrEmpty (FullInfo.sequelsAndPrequels fullInfo) |}.

(** [processNames] *)
Definition processNames (fullInfo : FullInfo.t) : list jsstring :=
  namesOrEmpty (FullInfo.names fullInfo).

(** [image?.url || ""] *)
Definition image_url (image : option (option jsstring)) : jsstring :=
  match image with
  | Some url => or_empty url
  | None => []
  end.

(** [money?.value || 0] and [money?.currency || ""] *)
Definition money_value_or_zero (m : option KinopoiskMoney) : JsNumber :=
  match m with
  | Some x => or_zero (money_value x)
  | None => Finite 0
  end.

Definition money_currency_or_empty (m : option KinopoiskMoney) : jsstring :=
  match m with
  | Some x => or_empty (money_currency x)
  | None => []
  end.

(** [x?.f] for an optional record [x] and an optional property [f]. *)
Definition opt_get {A B} (x : option A) (f : A -> option B) : option B :=
  match x with
  | Some a => f a
  | None => None
  end.

(** [fullInfo.rating?.kp ? Number(fullInfo.rating?.kp?.toFixed(0)) : 0] *)
Definition ratingKp_of (rating : option KinopoiskRatings) : JsNumber :=
  match opt_get rating rating_kp with
  | Some kp =>
      if truthy_num kp then Finite (inject_Z (toFixed0 kp)) else Finite 0
  | None => Finite 0
  end.

(** [fullInfo.rating ? Number(fullInfo.rating?.imdb?.toFixed(0)) : 0]:
    the guard tests the rating object; when it has no [imdb], the
    optional call yields [undefined] and [Number(undefined)] is [NaN]. *)
Definition ratingImdb_of (rating : option KinopoiskRatings) : JsNumber :=
  match rating with
  | Some r =>
      match rating_imdb r with
      | Some imdb => Finite (inject_Z (toFixed0 imdb))
      | None => NaN
      end
  | None => Finite 0
  end.

Definition strs (l : list jsstring) : list Item := map IStr l.

(** ** The transformation, over the platform *)

Section Platform.

(** [capitalizeFirstLetter] of [Utils/utils], a module outside the
    sources at hand. *)
Variable capitalizeFirstLetter : jsstring -> jsstring.

(** What the engine's [Date.parse] answers on a string that is in neither
    of the two forms of [parse_iso_strict]: the other ISO forms and the
    implementation-defined fallback.  [None] is [NaN]. *)
Variable engine_parse : jsstring -> option Z.

(** [LocalTZA(t, true)]: the offset of local time from UTC, in
    milliseconds, at the UTC time value [t]. *)
Variable LocalTZA : Z -> Z.

(** [new Date(dateString).getTime()] *)
Definition Date_parse (s : jsstring) : option Z :=
  match parse_iso_strict s with
  | Some t => Some t
  | None => engine_parse s
  end.

(** [date.getFullYear()] *)
Definition getFullYear (t : Z) : Z := YearFromTime (t + LocalTZA t).

(** [formatDate].  [toISOString] throws only on an invalid date, which
    the guard has excluded, so the [catch] branch is not reached. *)
Definition formatDate (dateString : option jsstring) : jsstring :=
  match dateString with
  | None => []
  | Some s =>
      if negb (truthy_str s) then []
      else
        match Date_parse s with
        | None => []
        | Some t =>
            if (getFullYear t <? 1800) || (getFullYear t >? 2100) then []
            else before_first 84 (toISOString t)
        end
  end.

(** [formatDate(x) || x || ""], the element of the array passed for
    [distributorRelease]. *)
Definition distributorReleaseValue (x : option jsstring) : jsstring :=
  if truthy_str (formatDate x) then formatDate x else or_empty x.

(** [createMovieShowFrom], with the formatter's [settings] field as an
    argument. *)
Definition createMovieShowFrom (settings : option Settings)
    (fullInfo : FullInfo.t) : Result MovieShow.t :=
  let seasonsData := calculateSeasonsData (FullInfo.seasonsInfo fullInfo) in
  let people :=
    extractPeople (match FullInfo.persons fullInfo with
                   | Some l => l
                   | None => []
                   end) in
  let companies := extractCompanies fullInfo in
  let facts :=
    processFacts (match FullInfo.facts fullInfo with
                  | Some l => l
                  | None => []
                  end) in
  let allNames := processNames fullInfo in
  let firstReleaseYear :=
    match FullInfo.releaseYears fullInfo with
    | Some (y :: _) => Some y
    | _ => None
    end in
  let fmt items formatType := formatArray items formatType None MAX_ARRAY_ITEMS in
  let fmtPath items formatType path :=
    formatArray items formatType path MAX_ARRAY_ITEMS in
  let path_of f := option_map f settings in
  let persons_of l := map item_of_person l in
  let premiere_of f := formatDate (opt_get (FullInfo.premiere fullInfo) f) in
  name' <- fmt [IStr (FullInfo.name fullInfo)] SHORT_VALUE ;;
  alternativeName' <-
    fmt [IStr (or_empty (FullInfo.alternativeName fullInfo))] SHORT_VALUE ;;
  description' <-
    fmt [IStr (or_empty (FullInfo.description fullInfo))] LONG_TEXT ;;
  shortDescription' <-
    fmt [IStr (or_empty (FullInfo.shortDescription fullInfo))] LONG_TEXT ;;
  posterUrl' <- fmt [IStr (image_url (FullInfo.poster fullInfo))] URL ;;
  coverUrl' <- fmt [IStr (image_url (FullInfo.backdrop fullInfo))] URL ;;
  logoUrl' <- fmt [IStr (image_url (FullInfo.logo fullInfo))] URL ;;
  genres' <-
    fmt (strs (map capitalizeFirstLetter (FullInfo.genres fullInfo))) SHORT_VALUE ;;
  genresLinks' <-
    fmt (strs (map capitalizeFirstLetter (FullInfo.genres fullInfo))) LINK ;;
  countries' <- fmt (strs (FullInfo.countries fullInfo)) SHORT_VALUE ;;
  countriesLinks' <- fmt (strs (FullInfo.countries fullInfo)) LINK ;;
  type' <-
    fmt [translateType (or_empty (FullInfo.type fullInfo))] SHORT_VALUE ;;
  subType' <- fmt [IStr (or_empty (FullInfo.subType fullInfo))] SHORT_VALUE ;;
  director' <- fmt (persons_of (directors people)) SHORT_VALUE ;;
  directorsLinks' <- fmt (persons_of (directors people)) LINK ;;
  directorsLinksWithPath' <-
    fmtPath (persons_of (directors people)) LINK_WITH_PATH (path_of directorsPath) ;;
  directorsIdsWithPath' <-
    fmtPath (persons_of (directors people)) LINK_ID_WITH_PATH
            (path_of directorsPath) ;;
  actors' <- fmt (persons_of (actors people)) SHORT_VALUE ;;
  actorsLinks' <- fmt (persons_of (actors people)) LINK ;;
  actorsLinksWithPath' <-
    fmtPath (persons_of (actors people)) LINK_WITH_PATH (path_of actorsPath) ;;
  actorsIdsWithPath' <-
    fmtPath (persons_of (actors people)) LINK_ID_WITH_PATH (path_of actorsPath) ;;
  writers' <- fmt (persons_of (writers people)) SHORT_VALUE ;;
  writersLinks' <- fmt (persons_of (writers people)) LINK ;;
  writersLinksWithPath' <-
    fmtPath (persons_of (writers people)) LINK_WITH_PATH (path_of writersPath) ;;
  writersIdsWithPath' <-
    fmtPath (persons_of (writers people)) LINK_ID_WITH_PATH (path_of writersPath) ;;
  producers' <- fmt (persons_of (producers people)) SHORT_VALUE ;;
  producersLinks' <- fmt (persons_of (producers people)) LINK ;;
  producersLinksWithPath' <-
    fmtPath (persons_of (producers people)) LINK_WITH_PATH
            (path_of producersPath) ;;
  producersIdsWithPath' <-
    fmtPath (persons_of (producers people)) LINK_ID_WITH_PATH
            (path_of producersPath) ;;
  kinopoiskUrl' <-
    fmt [IStr (lit "https://www.kinopoisk.ru/film/"
                 ++ int_to_string (FullInfo.id fullInfo) ++ lit "/")] URL ;;
  imdbId' <-
    fmt [IStr (or_empty (opt_get (FullInfo.externalId fullInfo) ext_imdb))]
        SHORT_VALUE ;;
  kpHDId' <-
    fmt [IStr (or_empty (opt_get (FullInfo.externalId fullInfo) ext_kpHD))]
        SHORT_VALUE ;;
  slogan' <- fmt [IStr (or_empty (FullInfo.slogan fullInfo))] LONG_TEXT ;;
  ratingMpaa' <- fmt [IStr (or_empty (FullInfo.ratingMpaa fullInfo))] SHORT_VALUE ;;
  budgetCurrency' <-
    fmt [IStr (money_currency_or_empty (FullInfo.budget fullInfo))] SHORT_VALUE ;;
  feesWorldCurrency' <-
    fmt [IStr (money_currency_or_empty
                 (opt_get (FullInfo.fees fullInfo) fees_world))] SHORT_VALUE ;;
  feesRussiaCurrency' <-
    fmt [IStr (money_currency_or_empty
                 (opt_get (FullInfo.fees fullInfo) fees_russia))] SHORT_VALUE ;;
  feesUsaCurrency' <-
    fmt [IStr (money_currency_or_empty
                 (opt_get (FullInfo.fees fullInfo) fees_usa))] SHORT_VALUE ;;
  premiereWorld' <- fmt [IStr (premiere_of premiere_world)] SHORT_VALUE ;;
  premiereRussia' <- fmt [IStr (premiere_of premiere_russia)] SHORT_VALUE ;;
  premiereDigital' <- fmt [IStr (premiere_of premiere_digital)] SHORT_VALUE ;;
  premiereCinema' <- fmt [IStr (premiere_of premiere_cinema)] SHORT_VALUE ;;
  facts' <- fmt (strs facts) LONG_TEXT ;;
  allNamesString' <- fmt (strs allNames) SHORT_VALUE ;;
  enName' <- fmt [IStr (or_empty (FullInfo.enName fullInfo))] SHORT_VALUE ;;
  networks' <- fmt (strs (co_networks companies)) SHORT_VALUE ;;
  networksLinks' <- fmt (strs (co_networks companies)) LINK ;;
  productionCompanies' <-
    fmt (strs (co_productionCompanies companies)) SHORT_VALUE ;;
  productionCompaniesLinks' <- fmt (strs (co_productionCompanies companies)) LINK ;;
  distributor' <-
    fmt [IStr (or_empty (opt_get (FullInfo.distributors fullInfo)
                                 distributors_distributor))] SHORT_VALUE ;;
  distributorRelease' <-
    fmt [IStr (distributorReleaseValue
                 (opt_get (FullInfo.distributors fullInfo)
                          distributors_distributorRelease))] SHORT_VALUE ;;
  sequelsAndPrequels' <- fmt (strs (co_sequelsAndPrequels companies)) SHORT_VALUE ;;
  sequelsAndPrequelsLinks' <- fmt (strs (co_sequelsAndPrequels companies)) LINK ;;
  Ok {|
    MovieShow.id := FullInfo.id fullInfo;
    MovieShow.name := name';
    MovieShow.alternativeName := alternativeName';
    MovieShow.year := FullInfo.year fullInfo;
    MovieShow.description := description';
    MovieShow.shortDescription := shortDescription';
    MovieShow.nameForFile := cleanTextForMetadata (FullInfo.name fullInfo);
    MovieShow.alternativeNameForFile :=
      cleanTextForMetadata (or_empty (FullInfo.alternativeName fullInfo));
    MovieShow.enNameForFile :=
      cleanTextForMetadata (or_empty (FullInfo.enName fullInfo));
    MovieShow.posterUrl := posterUrl';
    MovieShow.coverUrl := coverUrl';
    MovieShow.logoUrl := logoUrl';
    MovieShow.posterMarkdown := createImageLink (image_url (FullInfo.poster fullInfo));
    MovieShow.coverMarkdown := createImageLink (image_url (FullInfo.backdrop fullInfo));
    MovieShow.logoMarkdown := createImageLink (image_url (FullInfo.logo fullInfo));
    MovieShow.posterPath := [];
    MovieShow.coverPath := [];
    MovieShow.logoPath := [];
    MovieShow.genres := genres';
    MovieShow.genresLinks := genresLinks';
    MovieShow.countries := countries';
    MovieShow.countriesLinks := countriesLinks';
    MovieShow.type := type';
    MovieShow.subType := subType';
    MovieShow.director := director';
    MovieShow.directorsLinks := directorsLinks';
    MovieShow.directorsLinksWithPath := directorsLinksWithPath';
    MovieShow.directorsIdsWithPath := directorsIdsWithPath';
    MovieShow.actors := actors';
    MovieShow.actorsLinks := actorsLinks';
    MovieShow.actorsLinksWithPath := actorsLinksWithPath';
    MovieShow.actorsIdsWithPath := actorsIdsWithPath';
    MovieShow.writers := writers';
    MovieShow.writersLinks := writersLinks';
    MovieShow.writersLinksWithPath := writersLinksWithPath';
    MovieShow.writersIdsWithPath := writersIdsWithPath';
    MovieShow.producers := producers';
    MovieShow.producersLinks := producersLinks';
    MovieShow.producersLinksWithPath := producersLinksWithPath';
    MovieShow.producersIdsWithPath := producersIdsWithPath';
    MovieShow.movieLength := or_zero (FullInfo.movieLength fullInfo);
    MovieShow.isSeries := FullInfo.isSeries fullInfo;
    MovieShow.seriesLength := or_zero (FullInfo.seriesLength fullInfo);
    MovieShow.totalSeriesLength := or_zero (FullInfo.totalSeriesLength fullInfo);
    MovieShow.isComplete :=
      jsstring_eqb (or_empty (FullInfo.status fullInfo)) (lit "completed");
    MovieShow.seasonsCount := count seasonsData;
    MovieShow.seriesInSeasonCount := averageEpisodesPerSeason seasonsData;
    MovieShow.ratingKp := ratingKp_of (FullInfo.rating fullInfo);
    MovieShow.ratingImdb := ratingImdb_of (FullInfo.rating fullInfo);
    MovieShow.ratingFilmCritics :=
      or_zero (opt_get (FullInfo.rating fullInfo) rating_filmCritics);
    MovieShow.ratingRussianFilmCritics :=
      or_zero (opt_get (FullInfo.rating fullInfo) rating_russianFilmCritics);
    MovieShow.votesKp := or_zero (opt_get (FullInfo.votes fullInfo) votes_kp);
    MovieShow.votesImdb := or_zero (opt_get (FullInfo.votes fullInfo) votes_imdb);
    MovieShow.votesFilmCritics :=
      or_zero (opt_get (FullInfo.votes fullInfo) votes_filmCritics);
    MovieShow.votesRussianFilmCritics :=
      or_zero (opt_get (FullInfo.votes fullInfo) votes_russianFilmCritics);
    MovieShow.kinopoiskUrl := kinopoiskUrl';
    MovieShow.imdbId := imdbId';
    MovieShow.tmdbId := or_zero (opt_get (FullInfo.externalId fullInfo) ext_tmdb);
    MovieShow.kpHDId := kpHDId';
    MovieShow.slogan := slogan';
    MovieShow.ageRating := or_zero (FullInfo.ageRating fullInfo);
    MovieShow.ratingMpaa := ratingMpaa';
    MovieShow.budgetValue := money_value_or_zero (FullInfo.budget fullInfo);
    MovieShow.budgetCurrency := budgetCurrency';
    MovieShow.feesWorldValue :=
      money_value_or_zero (opt_get (FullInfo.fees fullInfo) fees_world);
    MovieShow.feesWorldCurrency := feesWorldCurrency';
    MovieShow.feesRussiaValue :=
      money_value_or_zero (opt_get (FullInfo.fees fullInfo) fees_russia);
    MovieShow.feesRussiaCurrency := feesRussiaCurrency';
    MovieShow.feesUsaValue :=
      money_value_or_zero (opt_get (FullInfo.fees fullInfo) fees_usa);
    MovieShow.feesUsaCurrency := feesUsaCurrency';
    MovieShow.premiereWorld := premiereWorld';
    MovieShow.premiereRussia := premiereRussia';
    MovieShow.premiereDigital := premiereDigital';
    MovieShow.premiereCinema := premiereCinema';
    MovieShow.releaseYearsStart := or_zero (opt_get firstReleaseYear release_start);
    MovieShow.releaseYearsEnd := or_zero (opt_get firstReleaseYear release_end);
    MovieShow.top10 := or_zero (FullInfo.top10 fullInfo);
    MovieShow.top250 := or_zero (FullInfo.top250 fullInfo);
    MovieShow.facts := facts';
    MovieShow.allNamesString := allNamesString';
    MovieShow.enName := enName';
    MovieShow.networks := networks';
    MovieShow.networksLinks := networksLinks';
    MovieShow.productionCompanies := productionCompanies';
    MovieShow.productionCompaniesLinks := productionCompaniesLinks';
    MovieShow.distributor := distributor';
    MovieShow.distributorRelease := distributorRelease';
    MovieShow.sequelsAndPrequels := sequelsAndPrequels';
    MovieShow.sequelsAndPrequelsLinks := sequelsAndPrequelsLinks'
  |}.

End Platform.

(** ** provider.ts *)

Definition API_BASE_URL : jsstring := lit "https://api.kinopoisk.dev/v1.4".
Definition MAX_SEARCH_RESULTS : Z := 50.

(** Modelled from the spec: [ApiValidator] is outside the sources at
    hand.  "isValidToken(token): true iff token, trimmed, is non-empty." *)
Definition isValidToken (token : jsstring) : bool := nonblank token.

(** Modelled from the spec: "isValidSearchQuery(query): true iff query,
    trimmed, is non-empty." *)
Definition isValidSearchQuery (query : jsstring) : bool := nonblank query.

(** Modelled from the spec: "isValidMovieId(id): true iff id is an
    integer > 0." *)
Definition isValidMovieId (id : Z) : bool := 0 <? id.

(** A value of the [params] record of [apiGet]. *)
Inductive ParamValue : Type :=
  | PString (s : jsstring)
  | PNumber (n : Z).

(** [value.toString()] *)
Definition param_toString (v : ParamValue) : jsstring :=
  match v with
  | PString s => s
  | PNumber n => int_to_string n
  end.

(** [value !== undefined && value !== null && value !== ""] *)
Definition param_set (v : ParamValue) : bool :=
  match v with
  | PString s => truthy_str s
  | PNumber _ => true
  end.

(** The argument of [requestUrl]. *)
Record Request : Type := {
  req_url : jsstring;
  req_method : jsstring;
  req_headers : list (jsstring * jsstring)
}.

(** An asynchronous method of the provider, run to completion: from the
    requests issued so far to its outcome and the requests issued by the
    end. *)
Definition Prog (A : Type) : Type := list Request -> Result A * list Request.

Definition ret {A} (a : A) : Prog A := fun log => (Ok a, log).

Definition throw {A} (e : Exn) : Prog A := fun log => (Throw e, log).

Definition bindP {A B} (m : Prog A) (k : A -> Prog B) : Prog B :=
  fun log =>
    match m log with
    | (Ok a, log') => k a log'
    | (Throw e, log') => (Throw e, log')
    end.

Notation "x <~ m ;; k" := (bindP m (fun x => k))
  (at level 61, m at next level, right associativity).

(** [try { return m } catch { return a }] *)
Definition catch {A} (m : Prog A) (a : A) : Prog A :=
  fun log =>
    match m log with
    | (Ok x, log') => (Ok x, log')
    | (Throw _, log') => (Ok a, log')
    end.

(** [q] occurs in [m]. *)
Definition is_infix (q m : jsstring) : Prop :=
  exists before after, m = before ++ q ++ after.

(** Modelled from the spec: the helper [tWithParams] of the i18n module is
    outside the sources at hand; of the message it builds for
    [provider.nothingFound] from the query the spec says that it "must
    include the original query text". *)
Definition includes_query
    (tWithParams : jsstring -> list (jsstring * jsstring) -> jsstring) : Prop :=
  forall query,
    is_infix query (tWithParams (lit "provider.nothingFound")
                                [(lit "query", query)]).

Section Provider.

(** The platform of the formatter. *)
Variable capitalizeFirstLetter : jsstring -> jsstring.
Variable engine_parse : jsstring -> option Z.
Variable LocalTZA : Z -> Z.

(** The i18n module: [t(key)] and [tWithParams(key, params)]. *)
Variable t : jsstring -> jsstring.
Variable tWithParams : jsstring -> list (jsstring * jsstring) -> jsstring.

(** The decoded body of a response, the value a failed request throws,
    and an element of [docs], none of which the provider inspects. *)
Variable Json : Type.
Variable Failure : Type.
Variable SuggestItem : Type.

(** Whether a decoded body is [null] or [undefined], on which a property
    read throws, and whether it is falsy. *)
Variable nullish : Json -> bool.
Variable falsy : Json -> bool.

(** [searchResults.docs] of a body that is not nullish: [None] when it is
    missing or otherwise falsy, the array as the declared type has it. *)
Variable docs_of : Json -> option (list SuggestItem).

(** A body seen through the declared type [KinopoiskFullInfo]: [None] when
    it does not have that shape (a [name] that is [null], no [genres]). *)
Variable full_info_of : Json -> option FullInfo.t.

(** What the formatter does with a body that is truthy and not of the
    declared shape; nothing validates the body before it is handed over. *)
Variable createMovieShowFromUndeclared :
  option Settings -> Json -> Result MovieShow.t.

(** [requestUrl] of the host application: the body of the response, or
    the value thrown, given the requests issued before. *)
Variable requestUrl : list Request -> Request -> Json + Failure.

(** [ErrorHandler.handleApiError], outside the sources at hand. *)
Variable handleApiError : Failure -> Exn.

(** [url.href] of the platform's [URL] for a base and the query
    parameters set on it. *)
Variable url_href : jsstring -> list (jsstring * jsstring) -> jsstring.

(** [buildUrl] *)
Definition buildUrl (endpoint : jsstring)
    (params : list (jsstring * ParamValue)) : jsstring :=
  url_href (API_BASE_URL ++ endpoint)
           (map (fun kv => (fst kv, param_toString (snd kv)))
                (filter (fun kv => param_set (snd kv)) params)).

(** [apiGet] *)
Definition apiGet (endpoint token : jsstring)
    (params : list (jsstring * ParamValue))
    (headers : list (jsstring * jsstring)) : Prog Json :=
  if negb (isValidToken token)
  then throw (Error (t (lit "provider.tokenRequired")))
  else
    let url := buildUrl endpoint params in
    let request :=
      {| req_url := url;
         req_method := lit "GET";
         req_headers :=
           [(lit "Accept", lit "*/*"); (lit "X-API-KEY", trim token)] ++ headers |} in
    fun log =>
      match requestUrl log request with
      | inl json => (Ok json, log ++ [request])
      | inr error => (Throw (handleApiError error), log ++ [request])
      end.

(** The message of the error that [searchByQuery] throws on an empty
    result. *)
Definition nothingFoundMessage (query : jsstring) : jsstring :=
  tWithParams (lit "provider.nothingFound") [(lit "query", query)]
    ++ lit " " ++ t (lit "provider.tryChangeQuery").

(** [searchByQuery]: the read of [searchResults.docs] throws on a body
    that is [null] or [undefined]. *)
Definition searchByQuery (query token : jsstring) : Prog (list SuggestItem) :=
  if negb (isValidSearchQuery query)
  then throw (Error (t (lit "provider.enterMovieTitle")))
  else
    searchResults <~
      apiGet (lit "/movie/search") token
             [(lit "query", PString (trim query));
              (lit "limit", PNumber MAX_SEARCH_RESULTS)] [] ;;
    if nullish searchResults then throw TypeError
    else
      match docs_of searchResults with
      | Some (d :: ds) => ret (d :: ds)
      | _ => throw (Error (nothingFoundMessage query))
      end.

(** [getMovieById]: what the formatter throws passes through. *)
Definition getMovieById (settings : option Settings) (id : Z)
    (token : jsstring) : Prog MovieShow.t :=
  if negb (isValidMovieId id)
  then throw (Error (t (lit "provider.invalidMovieId")))
  else if negb (isValidToken token)
  then throw (Error (t (lit "provider.tokenRequiredForMovie")))
  else
    movieData <~ apiGet (lit "/movie/" ++ int_to_string id) token [] [] ;;
    if falsy movieData
    then throw (Error (t (lit "provider.movieInfoError")))
    else
      fun log =>
        (match full_info_of movieData with
         | Some fullInfo =>
             createMovieShowFrom capitalizeFirstLetter engine_parse LocalTZA
                                 settings fullInfo
         | None => createMovieShowFromUndeclared settings movieData
         end, log).

(** [validateToken] *)
Definition validateToken (token : jsstring) : Prog bool :=
  if negb (isValidToken token) then ret false
  else
    catch (_ <~ apiGet (lit "/movie") token
                       [(lit "page", PNumber 1); (lit "limit", PNumber 1)] [] ;;
           ret true)
          false.

(** The categories of the spec, by the place that throws. *)
Definition InvalidInput (e : Exn) : Prop :=
  e = Error (t (lit "provider.enterMovieTitle"))
  \/ e = Error (t (lit "provider.tokenRequired"))
  \/ e = Error (t (lit "provider.invalidMovieId"))
  \/ e = Error (t (lit "provider.tokenRequiredForMovie")).

Definition EmptyResult (e : Exn) : Prop :=
  (exists query, e = Error (nothingFoundMessage query))
  \/ e = Error (t (lit "provider.movieInfoError")).

End Provider.

Arguments apiGet t {Json Failure} requestUrl handleApiError url_href
  endpoint token params headers _.
Arguments searchByQuery t tWithParams {Json Failure SuggestItem} nullish
  docs_of requestUrl handleApiError url_href query token _.
Arguments validateToken t {Json Failure} requestUrl handleApiError url_href
  token _.

(** The one request that a search issues. *)
Definition search_request
    (url_href : jsstring -> list (jsstring * jsstring) -> jsstring)
    (query token : jsstring) : Request :=
  {| req_url :=
       buildUrl url_href (lit "/movie/search")
                [(lit "query", PString (trim query));
                 (lit "limit", PNumber MAX_SEARCH_RESULTS)];
     req_method := lit "GET";
     req_headers := [(lit "Accept", lit "*/*"); (lit "X-API-KEY", trim token)] |}.

(** ** search_modal.ts *)

(** An invocation of the modal's callback: [callback(error)] or
    [callback(null, results)]. *)
Inductive SearchCallbackArgs (SuggestItem : Type) : Type :=
  | CallbackError (error : Exn)
  | CallbackResults (results : list SuggestItem).
Arguments CallbackError {SuggestItem} error.
Arguments CallbackResults {SuggestItem} results.

(** What the modal sets on its button. *)
Record ButtonState : Type := {
  btn_disabled : bool;
  btn_text : jsstring
}.

(** The fields of [SearchModal], with what it does to the application
    around it: whether the modal is still open, the texts of the notices
    it has shown and the invocations of its callback, oldest first.  The
    button and the input exist once [onOpen] has run; the input is
    represented by its disabled flag. *)
Record SearchModal (SuggestItem : Type) : Type := {
  sm_isBusy : bool;
  sm_okBtnRef : option ButtonState;
  sm_inputRef : option bool;
  sm_query : jsstring;
  sm_token : jsstring;
  sm_open : bool;
  sm_notices : list jsstring;
  sm_calls : list (SearchCallbackArgs SuggestItem)
}.
Arguments sm_isBusy {SuggestItem} _.
Arguments sm_okBtnRef {SuggestItem} _.
Arguments sm_inputRef {SuggestItem} _.
Arguments sm_query {SuggestItem} _.
Arguments sm_token {SuggestItem} _.
Arguments sm_open {SuggestItem} _.
Arguments sm_notices {SuggestItem} _.
Arguments sm_calls {SuggestItem} _.

Section SearchModalModel.

Variable t : jsstring -> jsstring.
Variable tWithParams : jsstring -> list (jsstring * jsstring) -> jsstring.
Variable Json : Type.
Variable Failure : Type.
Variable SuggestItem : Type.
Variable nullish : Json -> bool.
Variable docs_of : Json -> option (list SuggestItem).
Variable requestUrl : list Request -> Request -> Json + Failure.
Variable handleApiError : Failure -> Exn.
Variable url_href : jsstring -> list (jsstring * jsstring) -> jsstring.

(** The [message] the engine gives a [TypeError]. *)
Variable typeErrorMessage : jsstring.

(** [new Notice(text)] *)
Definition showNotice (text : jsstring) (m : SearchModal SuggestItem)
    : SearchModal SuggestItem :=
  {| sm_isBusy := sm_isBusy m;
     sm_okBtnRef := sm_okBtnRef m;
     sm_inputRef := sm_inputRef m;
     sm_query := sm_query m;
     sm_token := sm_token m;
     sm_open := sm_open m;
     sm_notices := sm_notices m ++ [text];
     sm_calls := sm_calls m |}.

(** [this.callback(...)] *)
Definition invokeCallback (args : SearchCallbackArgs SuggestItem)
    (m : SearchModal SuggestItem) : SearchModal SuggestItem :=
  {| sm_isBusy := sm_isBusy m;
     sm_okBtnRef := sm_okBtnRef m;
     sm_inputRef := sm_inputRef m;
     sm_query := sm_query m;
     sm_token := sm_token m;
     sm_open := sm_open m;
     sm_notices := sm_notices m;
     sm_calls := sm_calls m ++ [args] |}.

(** [this.close()] *)
Definition closeModal (m : SearchModal SuggestItem) : SearchModal SuggestItem :=
  {| sm_isBusy := sm_isBusy m;
     sm_okBtnRef := sm_okBtnRef m;
     sm_inputRef := sm_inputRef m;
     sm_query := sm_query m;
     sm_token := sm_token m;
     sm_open := false;
     sm_notices := sm_notices m;
     sm_calls := sm_calls m |}.

(** [setBusy] *)
Definition setBusy (busy : bool) (m : SearchModal SuggestItem)
    : SearchModal SuggestItem :=
  {| sm_isBusy := busy;
     sm_okBtnRef :=
       match sm_okBtnRef m with
       | Some _ =>
           Some {| btn_disabled := busy;
                   btn_text := if busy then t (lit "modals.searching")
                               else t (lit "modals.searchButton") |}
       | None => None
       end;
     sm_inputRef :=
       match sm_inputRef m with
       | Some _ => Some busy
       | None => None
       end;
     sm_query := sm_query m;
     sm_token := sm_token m;
     sm_open := sm_open m;
     sm_notices := sm_notices m;
     sm_calls := sm_calls m |}.

(** [validateInput] of the search modal: the verdict and the modal after
    the notice, if any. *)
Definition modalValidateInput (m : SearchModal SuggestItem)
    : bool * SearchModal SuggestItem :=
  if negb (truthy_str (trim (sm_query m)))
  then (false, showNotice (t (lit "modals.enterMovieName")) m)
  else if negb (truthy_str (trim (sm_token m)))
  then (false, showNotice (t (lit "modals.needApiToken")) m)
  else if sm_isBusy m then (false, m)
  else (true, m).

(** [error.message]; every value thrown in this model is an [Error]. *)
Definition errorMessage (e : Exn) : jsstring :=
  match e with
  | TypeError => typeErrorMessage
  | Error message => message
  end.

(** [handleSearchError] *)
Definition handleSearchError (error : Exn) (m : SearchModal SuggestItem)
    : SearchModal SuggestItem :=
  invokeCallback (CallbackError error) (showNotice (errorMessage error) m).

(** [search], run to completion: the modal and the requests issued by the
    end. *)
Definition modalSearch (m : SearchModal SuggestItem) (log : list Request)
    : SearchModal SuggestItem * list Request :=
  match modalValidateInput m with
  | (false, m') => (m', log)
  | (true, m') =>
      let busy := setBusy true m' in
      match searchByQuery t tWithParams nullish docs_of requestUrl handleApiError
                          url_href (trim (sm_query busy)) (sm_token busy) log
      with
      | (Ok searchResults, log') =>
          (setBusy false
             (closeModal (invokeCallback (CallbackResults searchResults) busy)),
           log')
      | (Throw error, log') =>
          (setBusy false (handleSearchError error busy), log')
      end
  end.

End SearchModalModel.

Arguments showNotice {SuggestItem} text m.
Arguments invokeCallback {SuggestItem} args m.
Arguments closeModal {SuggestItem} m.
Arguments setBusy t {SuggestItem} busy m.
Arguments modalValidateInput t {SuggestItem} m.
Arguments handleSearchError {SuggestItem} typeErrorMessage error m.
Arguments modalSearch t tWithParams {Json Failure SuggestItem} nullish docs_of
  requestUrl handleApiError url_href typeErrorMessage m log.

(** ** suggest_modal.ts *)

(** [isValidImageUrl]; [URL_parses url] tells whether [new URL(url)]
    returns instead of throwing. *)
Definition isValidImageUrl (URL_parses : jsstring -> bool)
    (url : option jsstring) : bool :=
  match url with
  | None => false
  | Some u =>
      if negb (truthy_str u) || negb (nonblank u) then false
      else if URL_parses u
      then starts_with (lit "http://") u || starts_with (lit "https://") u
      else false
  end.

(** ** Vocabulary of the statements *)

(** The local time zone is at most a day away from UTC. *)
Definition zone_within_a_day (LocalTZA : Z -> Z) : Prop :=
  forall t, - msPerDay <= LocalTZA t <= msPerDay.

(** The persons of a bucket that every representation keeps. *)
Definition keptPersons (b : list PersonData) (maxItems : Z) : list PersonData :=
  slice0 (filter (fun p => nonblank (pd_name p)) b) maxItems.

(** The total of the episode counts of a season list. *)
Definition sum_episodes (seasons : list Z) : Z := fold_right Z.add 0 seasons.

(** The ceiling of [a / b], for [b > 0]. *)
Definition ceil_div (a b : Z) : Z := - ((- a) / b).

(** Episode counts that are not negative and whose total is an integer
    that a Number holds exactly. *)
Definition safe_seasons (seasons : list Z) : Prop :=
  Forall (fun episodesCount => 0 <= episodesCount) seasons
  /\ sum_episodes seasons <= MAX_SAFE_INTEGER.

(** The code units of a string that are not whitespace, in order. *)
Definition visible (s : jsstring) : jsstring :=
  filter (fun c => negb (is_ws c)) s.

(** The entry that [extractPeople] pushes for a person. *)
Definition personData_of (p : KinopoiskPerson) : PersonData :=
  {| pd_name := or_empty (person_name p); pd_id := person_id p |}.

(** The person has a name and the role key [role]. *)
Definition has_role (role : jsstring) (p : KinopoiskPerson) : bool :=
  truthy_opt_str (person_name p)
  && truthy_opt_str (person_enProfession p)
  && jsstring_eqb (or_empty (person_enProfession p)) role.

(** The persons of a role, in the order of the list. *)
Definition bucket (role : jsstring) (persons : list KinopoiskPerson)
    : list PersonData :=
  map personData_of (filter (has_role role) persons).

(** The person has a name and one of the four roles. *)
Definition grouped (p : KinopoiskPerson) : bool :=
  has_role (lit "director") p || has_role (lit "actor") p
  || has_role (lit "writer") p || has_role (lit "producer") p.

(** The four representations of a bucket have the length of the list of
    kept persons, and position [i] of each renders the person at position
    [i] of that list. *)
Definition index_aligned (folderPath : option jsstring)
    (kept : list PersonData)
    (plain links linksWithPath idsWithPath : list jsstring) : Prop :=
  length plain = length kept
  /\ length links = length kept
  /\ length linksWithPath = length kept
  /\ length idsWithPath = length kept
  /\ forall i p,
       nth_error kept i = Some p ->
       nth_error plain i = Some (cleanTextForMetadata (pd_name p))
       /\ nth_error links i
          = Some (quoted_link (cleanTextForMetadata (pd_name p)))
       /\ nth_error linksWithPath i
          = Some (renderString LINK_WITH_PATH folderPath (pd_name p))
       /\ nth_error idsWithPath i
          = Some (renderIdLink folderPath (pd_name p) (pd_id p)).

(** A record to run the transformation on: two persons with a role of
    the four, one without a name and one with another role; a rating
    object that carries [kp] and nothing else; a release date that is not
    a date. *)
Definition sample_persons : list KinopoiskPerson :=
  [ {| person_id := Some 7; person_name := Some (lit "Doe");
       person_enProfession := Some (lit "actor") |};
    {| person_id := None; person_name := Some (lit "Roe");
       person_enProfession := Some (lit "director") |};
    {| person_id := Some 9; person_name := None;
       person_enProfession := Some (lit "actor") |};
    {| person_id := Some 11; person_name := Some (lit "Poe");
       person_enProfession := Some (lit "composer") |} ].

Definition sample_record : FullInfo.t :=
  {| FullInfo.id := 326;
     FullInfo.name := lit "Escape";
     FullInfo.alternativeName := None;
     FullInfo.type := Some (lit "movie");
     FullInfo.year := 1994;
     FullInfo.description := None;
     FullInfo.poster := None;
     FullInfo.genres := [];
     FullInfo.countries := [];
     FullInfo.persons := Some sample_persons;
     FullInfo.movieLength := None;
     FullInfo.backdrop := None;
     FullInfo.logo := None;
     FullInfo.isSeries := false;
     FullInfo.seriesLength := None;
     FullInfo.status := None;
     FullInfo.rating :=
       Some {| rating_kp := Some (81 # 10); rating_imdb := None;
               rating_filmCritics := None;
               rating_russianFilmCritics := None |};
     FullInfo.externalId := None;
     FullInfo.seasonsInfo := None;
     FullInfo.slogan := None;
     FullInfo.budget := None;
     FullInfo.fees := None;
     FullInfo.premiere :=
       Some {| premiere_world := Some (lit "1994-09-10");
               premiere_russia := Some (lit "not-a-date");
               premiere_digital := None;
               premiere_cinema := None |};
     FullInfo.votes := None;
     FullInfo.facts := None;
     FullInfo.shortDescription := None;
     FullInfo.ageRating := None;
     FullInfo.ratingMpaa := None;
     FullInfo.releaseYears := None;
     FullInfo.top10 := None;
     FullInfo.top250 := None;
     FullInfo.totalSeriesLength := None;
     FullInfo.enName := None;
     FullInfo.names := None;
     FullInfo.networks := None;
     FullInfo.subType := None;
     FullInfo.sequelsAndPrequels := None;
     FullInfo.productionCompanies := None;
     FullInfo.distributors :=
       Some {| distributors_distributor := None;
               distributors_distributorRelease := Some (lit "soon") |} |}.

(** A series with three facts, one of them a spoiler and one blank, and a
    release date that is no date. *)
Definition sample_facts : list KinopoiskFact :=
  [ {| fact_value := lit "He dies  at the end"; fact_spoiler := true |};
    {| fact_value := lit "<b>Shot</b> in  Rome"; fact_spoiler := false |};
    {| fact_value := lit "  "; fact_spoiler := false |} ].

Definition sample_series : FullInfo.t :=
  {| FullInfo.id := 4647040;
     FullInfo.name := lit "Dark";
     FullInfo.alternativeName := None;
     FullInfo.type := Some (lit "tv-series");
     FullInfo.year := 2017;
     FullInfo.description := None;
     FullInfo.poster := None;
     FullInfo.genres := [];
     FullInfo.countries := [];
     FullInfo.persons := None;
     FullInfo.movieLength := None;
     FullInfo.backdrop := None;
     FullInfo.logo := None;
     FullInfo.isSeries := true;
     FullInfo.seriesLength := None;
     FullInfo.status := None;
     FullInfo.rating :=
       Some {| rating_kp := Some (0 # 1); rating_imdb := Some (87 # 10);
               rating_filmCritics := None;
               rating_russianFilmCritics := None |};
     FullInfo.externalId := None;
     FullInfo.seasonsInfo := Some [10; 8; 8];
     FullInfo.slogan := None;
     FullInfo.budget := None;
     FullInfo.fees := None;
     FullInfo.premiere := None;
     FullInfo.votes := None;
     FullInfo.facts := Some sample_facts;
     FullInfo.shortDescription := None;
     FullInfo.ageRating := None;
     FullInfo.ratingMpaa := None;
     FullInfo.releaseYears := None;
     FullInfo.top10 := None;
     FullInfo.top250 := None;
     FullInfo.totalSeriesLength := None;
     FullInfo.enName := None;
     FullInfo.names := None;
     FullInfo.networks := None;
     FullInfo.subType := None;
     FullInfo.sequelsAndPrequels := None;
     FullInfo.productionCompanies := None;
     FullInfo.distributors :=
       Some {| distributors_distributor := None;
               distributors_distributorRelease := Some (lit "TBA: soon") |} |}.

Definition sample_settings : Settings :=
  {| actorsPath := lit "actors";
     directorsPath := lit "directors";
     writersPath := lit "writers";
     producersPath := lit "producers" |}.

(** The persons of the record, [fullInfo.persons || []]. *)
Definition persons_of_record (fullInfo : FullInfo.t) : list KinopoiskPerson :=
  match FullInfo.persons fullInfo with
  | Some l => l
  | None => []
  end.

(** The text [YYYY-MM-DD] of a calendar date. *)
Definition ymd_text (y m d : Z) : jsstring :=
  pad 4 y ++ lit "-" ++ pad 2 m ++ lit "-" ++ pad 2 d.

(** The text [HH:mm:ss.sss] of a time of day. *)
Definition clock_text (h mi sec ms : Z) : jsstring :=
  pad 2 h ++ lit ":" ++ pad 2 mi ++ lit ":" ++ pad 2 sec ++ lit "." ++ pad 3 ms.

(** The string has no whitespace at either end. *)
Definition trimmed (s : jsstring) : Prop :=
  (forall c r, s = c :: r -> is_ws c = false)
  /\ (forall r c, s = r ++ [c] -> is_ws c = false).

(** No [<] of the string is followed, anywhere later, by a [>]. *)
Definition tag_free (s : jsstring) : Prop :=
  forall a b, s = a ++ lt_sign :: b -> ~ In gt_sign b.

(** The text [YYYY-MM-DDTHH:mm:ss.sssZ] of an instant in UTC. *)
Definition timestamp_text (y m d h mi sec ms : Z) : jsstring :=
  ymd_text y m d ++ lit "T" ++ clock_text h mi sec ms ++ lit "Z".

(** The code unit is a digit or a sign. *)
Definition date_unit (c : code_unit) : Prop := 43 <= c <= 57.

(** Between [log] and [log'] at most one request was issued, a GET that
    carries the token trimmed, and not empty, as its API key. *)
Definition at_most_one_request (token : jsstring) (log log' : list Request)
    : Prop :=
  log' = log
  \/ exists request,
       log' = log ++ [request]
       /\ req_method request = lit "GET"
       /\ In (lit "X-API-KEY", trim token) (req_headers request)
       /\ trim token <> [].

(** The string that [formatArray] takes from an element outside the
    LINK_ID_WITH_PATH mode: the string itself, or the name of an object
    that has one. *)
Definition item_string (it : Item) (s : jsstring) : Prop :=
  it = IStr s \/ exists id, it = IObj (Some s) id.

(** The [type] field of the output record for a content type. *)
Definition type_field (type : jsstring) : list jsstring :=
  match translateType type with
  | IStr s => if nonblank s then [cleanTextForMetadata s] else []
  | _ => []
  end.

(** Whether a string begins with a code unit that is not whitespace. *)
Definition head_visible (s : jsstring) : bool :=
  match s with
  | c :: _ => negb (is_ws c)
  | [] => false
  end.

(** The words of a string: its maximal runs of code units that are not
    whitespace, in order. *)
Fixpoint words (s : jsstring) : list jsstring :=
  match s with
  | [] => []
  | c :: r =>
      if is_ws c then words r
      else if head_visible r
      then match words r with
           | w :: ws => (c :: w) :: ws
           | [] => [[c]]
           end
      else [c] :: words r
  end.

(** Words joined by single spaces. *)
Fixpoint unwords (ws : list jsstring) : jsstring :=
  match ws with
  | [] => []
  | w :: rest =>
      match rest with
      | [] => w
      | _ :: _ => w ++ space :: unwords rest
      end
  end.

(** Every whitespace code unit is a space and stands before a code unit
    that is not whitespace. *)
Fixpoint spaced (s : jsstring) : bool :=
  match s with
  | [] => true
  | c :: r =>
      if is_ws c then (c =? space) && head_visible r && spaced r
      else spaced r
  end.

(** * Properties *)

(** ** The model at work *)

Example stripHtmlTags_decodes :
  stripHtmlTags (lit " <p>Tom &amp;lt; <b>Jerry</b>&nbsp;&#39;ok&#39;</p> ")
  = lit "Tom < Jerry ok".
Proof. reflexivity. Qed.

Example stripHtmlTags_open_tag :
  stripHtmlTags (lit "a < b &; c &copy d") = lit "a < b &; c &copy d".
Proof. reflexivity. Qed.

Example toISOString_epoch :
  toISOString 0 = lit "1970-01-01T00:00:00.000Z"
  /\ toISOString (-1) = lit "1969-12-31T23:59:59.999Z"
  /\ toISOString 951782400000 = lit "2000-02-29T00:00:00.000Z".
Proof. repeat split. Qed.

Example parse_iso_strict_forms :
  parse_iso_strict (lit "1994-09-10") = Some 779155200000
  /\ parse_iso_strict (lit "1994-09-10T12:34:56.789Z") = Some 779200496789
  /\ parse_iso_strict (lit "2023-02-29") = None
  /\ parse_iso_strict (lit "10 Sep 1994") = None.
Proof. repeat split. Qed.

Example formatArray_modes :
  formatArray (strs [lit " a:b "; lit "  "]) SHORT_VALUE None MAX_ARRAY_ITEMS
  = Ok [lit "ab"]
  /\ formatArray (strs [lit " http://x "]) URL None MAX_ARRAY_ITEMS
     = Ok [lit "http://x"]
  /\ formatArray (strs [lit "Drama"]) LINK None MAX_ARRAY_ITEMS
     = Ok [dquote :: lit "[[Drama]]" ++ [dquote]]
  /\ formatArray (strs [lit "Doe"]) LINK_WITH_PATH (Some (lit "actors"))
                 MAX_ARRAY_ITEMS
     = Ok [dquote :: lit "[[actors/Doe]]" ++ [dquote]]
  /\ formatArray (strs [lit "Doe"]) LINK_WITH_PATH (Some (lit "  "))
                 MAX_ARRAY_ITEMS
     = Ok [dquote :: lit "[[Doe]]" ++ [dquote]].
Proof. repeat split. Qed.

Example extractPeople_sample :
  extractPeople sample_persons
  = {| directors := [{| pd_name := lit "Roe"; pd_id := None |}];
       actors := [{| pd_name := lit "Doe"; pd_id := Some 7 |}];
       writers := [];
       producers := [] |}.
Proof. reflexivity. Qed.

Example toFixed0_ties :
  toFixed0 (81 # 10) = 8 /\ toFixed0 (85 # 10) = 9 /\ toFixed0 (- 85 # 10) = -9.
Proof. repeat split. Qed.

(** ** Lists and strings *)

Lemma slice0_firstn {A} (l : list A) (e : Z) :
  0 <= e -> slice0 l e = firstn (Z.to_nat e) l.
Proof.
  intros He. unfold slice0.
  destruct (Z.ltb_spec e 0) as [H|_]; [lia|].
  destruct (Z.le_ge_cases e (Z.of_nat (length l))) as [H|H].
  - now rewrite Z.min_l.
  - rewrite Z.min_r, Nat2Z.id by lia.
    rewrite !firstn_all2; trivial; lia.
Qed.

Lemma slice0_length {A} (l : list A) (e : Z) :
  0 <= e -> (Z.of_nat (length (slice0 l e)) <= e)%Z.
Proof.
  intros He. rewrite slice0_firstn, length_firstn by assumption. lia.
Qed.

Lemma slice0_map {A B} (f : A -> B) (l : list A) (e : Z) :
  slice0 (map f l) e = map f (slice0 l e).
Proof.
  unfold slice0. rewrite length_map. apply firstn_map.
Qed.

Lemma slice0_nil {A} (e : Z) : slice0 (@nil A) e = [].
Proof. unfold slice0. now rewrite firstn_nil. Qed.

Lemma nonblank_truthy (s : jsstring) : nonblank s = true -> truthy_str s = true.
Proof. destruct s; [discriminate | reflexivity]. Qed.

Lemma truthy_and_nonblank (s : jsstring) : truthy_str s && nonblank s = nonblank s.
Proof.
  destruct (nonblank s) eqn:E.
  - now rewrite (nonblank_truthy s E).
  - apply andb_false_r.
Qed.

(** ** [formatArray] on the two shapes of its declared parameter type *)

Lemma mapM_toStringItem_strs (l : list jsstring) :
  mapM toStringItem (strs l) = Ok (strs l).
Proof.
  induction l as [|s l IH]; simpl; [reflexivity|].
  now rewrite IH.
Qed.

Lemma filterStrings_strs (l : list jsstring) :
  filterStrings (strs l) = filter nonblank l.
Proof.
  induction l as [|s l IH]; simpl; [reflexivity|].
  rewrite IH. now destruct (nonblank s).
Qed.

Lemma filterM_keepPerson_strs (l : list jsstring) :
  filterM keepPerson (strs l) = Ok [].
Proof.
  induction l as [|s l IH]; simpl; [reflexivity|].
  now rewrite IH.
Qed.

Lemma mapM_toStringItem_persons (b : list PersonData) :
  exists l,
    mapM toStringItem (map item_of_person b) = Ok l
    /\ filterStrings l = map pd_name (filter (fun p => nonblank (pd_name p)) b).
Proof.
  induction b as [|p b (l & IH1 & IH2)]; simpl.
  - exists []. split; reflexivity.
  - rewrite IH1. simpl.
    destruct (truthy_str (pd_name p)) eqn:T.
    + eexists. split; [reflexivity|]. simpl. rewrite IH2.
      now destruct (nonblank (pd_name p)).
    + eexists. split; [reflexivity|]. simpl. rewrite IH2.
      destruct (nonblank (pd_name p)) eqn:N; [|reflexivity].
      apply nonblank_truthy in N. congruence.
Qed.

Lemma filterM_keepPerson_persons (b : list PersonData) :
  filterM keepPerson (map item_of_person b)
  = Ok (map item_of_person (filter (fun p => nonblank (pd_name p)) b)).
Proof.
  induction b as [|p b IH]; simpl; [reflexivity|].
  rewrite IH. simpl. rewrite truthy_and_nonblank.
  now destruct (nonblank (pd_name p)).
Qed.

(** What one kept string becomes under each mode but the id mode. *)
Lemma formatArray_strs (l : list jsstring) (formatType : FormatType)
    (folderPath : option jsstring) (maxItems : Z) :
  formatArray (strs l) formatType folderPath maxItems
  = Ok (match formatType with
        | LINK_ID_WITH_PATH => []
        | _ => map (renderString formatType folderPath)
                   (slice0 (filter nonblank l) maxItems)
        end).
Proof.
  destruct formatType; unfold formatArray;
    rewrite ?mapM_toStringItem_strs, ?filterM_keepPerson_strs; simpl;
    rewrite ?filterStrings_strs, ?slice0_nil; reflexivity.
Qed.

Lemma formatArray_persons (b : list PersonData) (formatType : FormatType)
    (folderPath : option jsstring) (maxItems : Z) :
  formatArray (map item_of_person b) formatType folderPath maxItems
  = Ok (match formatType with
        | LINK_ID_WITH_PATH =>
            map (fun p => renderIdLink folderPath (pd_name p) (pd_id p))
                (keptPersons b maxItems)
        | _ => map (fun p => renderString formatType folderPath (pd_name p))
                   (keptPersons b maxItems)
        end).
Proof.
  unfold keptPersons.
  destruct (mapM_toStringItem_persons b) as (l & H1 & H2).
  destruct formatType; unfold formatArray;
    rewrite ?H1, ?filterM_keepPerson_persons; simpl;
    rewrite ?H2, ?slice0_map, ?map_map; reflexivity.
Qed.

(** Outside the declared parameter type the formatter can abort: a [null]
    element makes the property read throw. *)
Lemma formatArray_null_throws (formatType : FormatType)
    (folderPath : option jsstring) (maxItems : Z) :
  formatArray [INull] formatType folderPath maxItems = Throw TypeError.
Proof. destruct formatType; reflexivity. Qed.

(** ** The calendar *)

Lemma YearFromDay_spec (d : Z) :
  DayFromYear (YearFromDay d) <= d < DayFromYear (YearFromDay d + 1).
Proof.
  unfold YearFromDay.
  destruct (Z.ltb_spec d (DayFromYear (1970 + 400 * d / 146097))) as [H|H].
  - replace (1970 + 400 * d / 146097 - 1 + 1)
      with (1970 + 400 * d / 146097) by lia.
    split; [|lia]. revert H. unfold DayFromYear.
    Z.div_mod_to_equations. lia.
  - destruct (Z.leb_spec (DayFromYear (1970 + 400 * d / 146097 + 1)) d)
      as [H1|H1]; [|lia].
    split; [lia|]. revert H1. unfold DayFromYear.
    Z.div_mod_to_equations. lia.
Qed.

Lemma DayFromYear_next (y : Z) :
  DayFromYear (y + 1) = DayFromYear y + (if InLeapYear y then 366 else 365).
Proof.
  unfold DayFromYear, InLeapYear.
  destruct (Z.eqb_spec (y mod 4) 0), (Z.eqb_spec (y mod 100) 0),
    (Z.eqb_spec (y mod 400) 0); cbn [negb andb orb];
    Z.div_mod_to_equations; lia.
Qed.

Lemma DayFromYear_mono (y1 y2 : Z) :
  y1 <= y2 -> DayFromYear y1 <= DayFromYear y2.
Proof.
  unfold DayFromYear. intros H. Z.div_mod_to_equations. lia.
Qed.

Lemma DayFromYear_lt (y1 y2 : Z) :
  y1 < y2 -> DayFromYear y1 < DayFromYear y2.
Proof.
  unfold DayFromYear. intros H. Z.div_mod_to_equations. lia.
Qed.

(** The year of a day lies between two years exactly when the day lies
    between the first day of the one and the last day of the other. *)
Lemma YearFromDay_between (d a b : Z) :
  a <= YearFromDay d <= b <-> DayFromYear a <= d < DayFromYear (b + 1).
Proof.
  pose proof (YearFromDay_spec d) as [H1 H2].
  split.
  - intros [Ha Hb]. split.
    + apply Z.le_trans with (DayFromYear (YearFromDay d)); trivial.
      now apply DayFromYear_mono.
    + apply Z.lt_le_trans with (DayFromYear (YearFromDay d + 1)); trivial.
      apply DayFromYear_mono. lia.
  - intros [Ha Hb]. split.
    + destruct (Z.le_gt_cases a (YearFromDay d)) as [|C]; trivial.
      assert (DayFromYear (YearFromDay d + 1) <= DayFromYear a)
        by (apply DayFromYear_mono; lia).
      lia.
    + destruct (Z.le_gt_cases (YearFromDay d) b) as [|C]; trivial.
      assert (DayFromYear (b + 1) <= DayFromYear (YearFromDay d))
        by (apply DayFromYear_mono; lia).
      lia.
Qed.

Lemma DayWithinYear_range (d : Z) :
  0 <= DayWithinYear d < (if InLeapYear (YearFromDay d) then 366 else 365).
Proof.
  unfold DayWithinYear.
  pose proof (YearFromDay_spec d) as [H1 H2].
  rewrite DayFromYear_next in H2. lia.
Qed.

Lemma MonthFromDay_range (d : Z) : 0 <= MonthFromDay d <= 11.
Proof.
  unfold MonthFromDay.
  repeat match goal with
         | |- context [if ?c then _ else _] => destruct c
         end; lia.
Qed.

Ltac eval_month_start :=
  repeat match goal with
         | |- context [month_start ?b ?m] =>
             let v := eval vm_compute in (month_start b m) in
             change (month_start b m) with v
         | H : context [month_start ?b ?m] |- _ =>
             let v := eval vm_compute in (month_start b m) in
             change (month_start b m) with v in H
         end.

Lemma DateFromDay_range (d : Z) : 1 <= DateFromDay d <= 31.
Proof.
  unfold DateFromDay, MonthFromDay.
  pose proof (DayWithinYear_range d) as H.
  set (w := DayWithinYear d) in *. clearbody w.
  destruct (InLeapYear (YearFromDay d));
    repeat match goal with
           | |- context [if ?a <? ?b then _ else _] =>
               destruct (Z.ltb_spec a b)
           end; eval_month_start; lia.
Qed.

Lemma Day_shift (t dt : Z) :
  - msPerDay <= dt <= msPerDay -> Day t - 1 <= Day (t + dt) <= Day t + 1.
Proof.
  unfold Day, msPerDay. intros H. Z.div_mod_to_equations. lia.
Qed.

Ltac eval_DayFromYear :=
  repeat match goal with
         | |- context [DayFromYear ?y] =>
             let v := eval vm_compute in (DayFromYear y) in
             change (DayFromYear y) with v
         | H : context [DayFromYear ?y] |- _ =>
             let v := eval vm_compute in (DayFromYear y) in
             change (DayFromYear y) with v in H
         end.

(** A time value whose year is in [a, b] in a zone at most a day away
    from UTC has its UTC year in [a - 1, b + 1]. *)
Lemma YearFromTime_shift (t dt a b : Z) :
  - msPerDay <= dt <= msPerDay ->
  a <= YearFromTime (t + dt) <= b ->
  a - 1 <= YearFromTime t <= b + 1.
Proof.
  unfold YearFromTime. intros Hdt H.
  apply YearFromDay_between in H.
  apply YearFromDay_between.
  pose proof (Day_shift t dt Hdt).
  pose proof (DayFromYear_lt (a - 1) a ltac:(lia)).
  pose proof (DayFromYear_lt (b + 1) (b + 1 + 1) ltac:(lia)).
  lia.
Qed.

(** ** The text of a date *)

Lemma pad_digits (w : nat) (n : Z) :
  Forall (fun c => 48 <= c <= 57) (pad w n).
Proof.
  revert n. induction w as [|w IH]; intros n; simpl; [constructor|].
  apply Forall_app. split; [apply IH|].
  constructor; [|constructor].
  unfold digit. pose proof (Z.mod_pos_bound n 10). lia.
Qed.

Lemma pad_length (w : nat) (n : Z) : length (pad w n) = w.
Proof.
  revert n. induction w as [|w IH]; intros n; simpl; [reflexivity|].
  rewrite length_app, IH. simpl. lia.
Qed.

Lemma before_first_app (sep : code_unit) (a b : jsstring) :
  Forall (fun c => c <> sep) a -> before_first sep (a ++ sep :: b) = a.
Proof.
  induction 1 as [|c a Hc _ IH]; simpl.
  - now rewrite Z.eqb_refl.
  - destruct (Z.eqb_spec c sep); [contradiction|]. now rewrite IH.
Qed.

Lemma pad_without (sep : code_unit) (w : nat) (n : Z) :
  sep < 48 \/ 57 < sep -> Forall (fun c => c <> sep) (pad w n).
Proof.
  intros H. eapply Forall_impl; [|apply pad_digits].
  simpl. intros c Hc. lia.
Qed.

Lemma iso_year_without_T (y : Z) : Forall (fun c => c <> 84) (iso_year y).
Proof.
  unfold iso_year.
  destruct (_ && _); [apply pad_without; lia|].
  apply Forall_app. split; [|apply pad_without; lia].
  destruct (_ <? _); constructor; (discriminate || constructor).
Qed.

Lemma iso_date_without_T (t : Z) : Forall (fun c => c <> 84) (iso_date t).
Proof.
  unfold iso_date.
  assert (Hdash : Forall (fun c => c <> 84) (lit "-"))
    by (constructor; [discriminate | constructor]).
  apply Forall_app. split; [apply iso_year_without_T|].
  apply Forall_app. split; [exact Hdash|].
  apply Forall_app. split; [apply pad_without; lia|].
  apply Forall_app. split; [exact Hdash|].
  apply pad_without; lia.
Qed.

(** [toISOString().split("T")[0]] is the date part. *)
Lemma iso_date_split (t : Z) : before_first 84 (toISOString t) = iso_date t.
Proof.
  unfold toISOString. change (lit "T" ++ iso_time t) with (84 :: iso_time t).
  apply before_first_app, iso_date_without_T.
Qed.

(** ** Date normalization *)

Section DateNormalization.

Variable engine_parse : jsstring -> option Z.
Variable LocalTZA : Z -> Z.

Lemma formatDate_unparseable (s : jsstring) :
  Date_parse engine_parse s = None -> formatDate engine_parse LocalTZA (Some s) = [].
Proof.
  intros H. unfold formatDate. rewrite H. now destruct (negb _).
Qed.

Lemma formatDate_out_of_range (s : jsstring) (t : Z) :
  Date_parse engine_parse s = Some t ->
  getFullYear LocalTZA t < 1800 \/ 2100 < getFullYear LocalTZA t ->
  formatDate engine_parse LocalTZA (Some s) = [].
Proof.
  intros H Hy. unfold formatDate. rewrite H.
  destruct (negb _); [reflexivity|].
  rewrite Z.gtb_ltb.
  destruct (Z.ltb_spec (getFullYear LocalTZA t) 1800),
    (Z.ltb_spec 2100 (getFullYear LocalTZA t)); try reflexivity; lia.
Qed.

Lemma formatDate_in_range (s : jsstring) (t : Z) :
  s <> [] ->
  Date_parse engine_parse s = Some t ->
  1800 <= getFullYear LocalTZA t <= 2100 ->
  formatDate engine_parse LocalTZA (Some s) = iso_date t.
Proof.
  intros Hs H Hy. unfold formatDate. rewrite H.
  destruct s as [|c s]; [contradiction|]. cbn [truthy_str negb].
  rewrite Z.gtb_ltb.
  destruct (Z.ltb_spec (getFullYear LocalTZA t) 1800),
    (Z.ltb_spec 2100 (getFullYear LocalTZA t)); try lia.
  apply iso_date_split.
Qed.

Lemma iso_date_four_digit_year (t : Z) :
  0 <= YearFromTime t <= 9999 ->
  iso_date t
  = pad 4 (YearFromTime t) ++ lit "-" ++ pad 2 (MonthFromDay (Day t) + 1)
      ++ lit "-" ++ pad 2 (DateFromDay (Day t)).
Proof.
  intros H. unfold iso_date, iso_year. fold (YearFromTime t).
  destruct (Z.leb_spec 0 (YearFromTime t)),
    (Z.leb_spec (YearFromTime t) 9999); try lia.
  reflexivity.
Qed.

(** What [formatDate] does, case by case: the date is rejected on the
    local-time year of the parsed instant, and rendered as its UTC
    calendar date.  [formatDate] returns the empty string when the string
    is absent or empty, when the engine cannot parse it, or when
    [getFullYear] of the parsed instant lies outside [1800, 2100];
    otherwise it returns the UTC calendar date of the instant as
    [YYYY-MM-DD], whose year is then in [1799, 2101].  "1994-09-10" maps
    to "1994-09-10"; "not-a-date" maps to the empty string when the
    engine rejects it; every date whose UTC year is 1700 maps to the
    empty string. *)
Lemma formatDate_normalizes :
  zone_within_a_day LocalTZA ->
  formatDate engine_parse LocalTZA None = []
  /\ formatDate engine_parse LocalTZA (Some []) = []
  /\ (forall s : jsstring, Date_parse engine_parse s = None -> formatDate engine_parse LocalTZA (Some s) = [])
  /\ (forall (s : jsstring) (t : Z),
        Date_parse engine_parse s = Some t ->
        getFullYear LocalTZA t < 1800 \/ 2100 < getFullYear LocalTZA t ->
        formatDate engine_parse LocalTZA (Some s) = [])
  /\ (forall (s : jsstring) (t : Z),
        s <> [] ->
        Date_parse engine_parse s = Some t ->
        1800 <= getFullYear LocalTZA t <= 2100 ->
        formatDate engine_parse LocalTZA (Some s)
        = pad 4 (YearFromTime t) ++ lit "-"
            ++ pad 2 (MonthFromDay (Day t) + 1) ++ lit "-"
            ++ pad 2 (DateFromDay (Day t))
        /\ 1799 <= YearFromTime t <= 2101
        /\ 1 <= MonthFromDay (Day t) + 1 <= 12
        /\ 1 <= DateFromDay (Day t) <= 31)
  /\ formatDate engine_parse LocalTZA (Some (lit "1994-09-10")) = lit "1994-09-10"
  /\ (engine_parse (lit "not-a-date") = None ->
      formatDate engine_parse LocalTZA (Some (lit "not-a-date")) = [])
  /\ (forall (s : jsstring) (t : Z),
        Date_parse engine_parse s = Some t ->
        YearFromTime t = 1700 ->
        formatDate engine_parse LocalTZA (Some s) = []).
Proof.
  intros Hz.
  split; [reflexivity|]. split; [reflexivity|].
  split; [exact formatDate_unparseable|].
  split; [exact formatDate_out_of_range|].
  split; [|split; [|split]].
  - intros s t Hs Hp Hy.
    assert (Hu : 1800 - 1 <= YearFromTime t <= 2100 + 1)
      by (apply (YearFromTime_shift t (LocalTZA t)); [apply Hz | exact Hy]).
    rewrite (formatDate_in_range s t Hs Hp Hy).
    rewrite iso_date_four_digit_year by lia.
    pose proof (MonthFromDay_range (Day t)).
    pose proof (DateFromDay_range (Day t)).
    repeat split; lia.
  - assert (Hp : Date_parse engine_parse (lit "1994-09-10") = Some 779155200000)
      by reflexivity.
    rewrite (formatDate_in_range (lit "1994-09-10") _ ltac:(discriminate) Hp).
    + reflexivity.
    + unfold getFullYear, YearFromTime.
      apply YearFromDay_between. eval_DayFromYear.
      pose proof (Day_shift 779155200000 (LocalTZA 779155200000) (Hz _)) as Hd.
      change (Day 779155200000) with 9018 in Hd. lia.
  - intros He. apply formatDate_unparseable.
    unfold Date_parse.
    now replace (parse_iso_strict (lit "not-a-date")) with (@None Z)
      by reflexivity.
  - intros s t Hp Hy. apply (formatDate_out_of_range s t Hp). left.
    unfold getFullYear, YearFromTime in *.
    assert (H : 1700 <= YearFromDay (Day t) <= 1700) by lia.
    apply YearFromDay_between in H.
    assert (G : 1699 <= YearFromDay (Day (t + LocalTZA t)) <= 1701).
    { apply YearFromDay_between. eval_DayFromYear.
      pose proof (Day_shift t (LocalTZA t) (Hz t)). lia. }
    lia.
Qed.

End DateNormalization.

(** The lemma at work in the zone UTC+3 with an engine that rejects
    every string outside the two strict forms. *)
Lemma formatDate_normalizes_witness :
  zone_within_a_day (fun _ => 10800000)
  /\ formatDate (fun _ => None) (fun _ => 10800000) (Some (lit "1994-09-10"))
     = lit "1994-09-10".
Proof.
  assert (H : zone_within_a_day (fun _ => 10800000))
    by (intros t; unfold msPerDay; lia).
  split; [exact H|].
  apply (formatDate_normalizes (fun _ => None) (fun _ => 10800000) H).
Defined.

(** C4, at the input on which the code departs from it: the string
    "2101-01-01" where local time is one hour behind UTC.  The guard
    reads the year in local time, where the instant still lies in 2100,
    and the output is the date in UTC: the string comes back as
    "2101-01-01", a year outside [1800, 2100], instead of the empty
    string.  In the same zone "1800-01-01", whose year is inside, is
    rejected, and in UTC itself both strings are treated as the claim
    says. *)
Theorem formatDate_guard_reads_local_year :
  let west := fun _ : Z => -3600000 in
  let utc := fun _ : Z => 0 in
  let engine := fun _ : jsstring => @None Z in
  formatDate engine west (Some (lit "2101-01-01")) = lit "2101-01-01"
  /\ getFullYear west 4133980800000 = 2100
  /\ YearFromTime 4133980800000 = 2101
  /\ formatDate engine west (Some (lit "1800-01-01")) = []
  /\ formatDate engine utc (Some (lit "2101-01-01")) = []
  /\ formatDate engine utc (Some (lit "1800-01-01")) = lit "1800-01-01".
Proof.
  repeat split; vm_compute; reflexivity.
Qed.

(** ** Season aggregation *)

Lemma ceil_div_spec (a b : Z) :
  0 < b -> b * (ceil_div a b - 1) < a <= b * ceil_div a b.
Proof.
  unfold ceil_div. intros Hb. Z.div_mod_to_equations. nia.
Qed.

Lemma nearest_double_safe (x : Z) :
  0 <= x <= MAX_SAFE_INTEGER -> nearest_double x = x.
Proof.
  intros [H0 H1]. unfold nearest_double.
  destruct (Z.eq_dec x 0) as [->|Hx]; [reflexivity|].
  assert (L : Z.log2 x < 53).
  { apply Z.log2_lt_pow2; [lia|]. unfold MAX_SAFE_INTEGER in H1. lia. }
  replace (Z.log2 x - 52 <=? 0) with true; [reflexivity|].
  symmetry. apply Z.leb_le. lia.
Qed.

Lemma Number_add_safe (a b : Z) :
  0 <= a + b <= MAX_SAFE_INTEGER -> Number_add a b = a + b.
Proof.
  intros H. unfold Number_add, to_Number.
  rewrite Z.abs_eq by lia. rewrite nearest_double_safe by exact H.
  destruct (Z.eq_dec (a + b) 0) as [E|E]; [rewrite E; reflexivity|].
  rewrite Z.sgn_pos by lia. lia.
Qed.

Lemma fold_left_Number_add (l : list Z) (a : Z) :
  0 <= a -> Forall (fun n => 0 <= n) l ->
  a + sum_episodes l <= MAX_SAFE_INTEGER ->
  fold_left (fun total episodesCount => Number_add total episodesCount) l a
  = a + sum_episodes l.
Proof.
  intros Ha Hl. revert a Ha.
  induction Hl as [|x l Hx Hl IH]; intros a Ha Hs;
    cbn [fold_left sum_episodes fold_right] in *.
  - lia.
  - fold (sum_episodes l) in *.
    assert (0 <= sum_episodes l).
    { clear -Hl. induction Hl; cbn [sum_episodes fold_right]; [lia|].
      fold (sum_episodes l). lia. }
    rewrite Number_add_safe by lia.
    rewrite IH by lia. lia.
Qed.

Lemma round_half_even_le (num den N : Z) :
  0 < den -> num <= N * den -> round_half_even num den <= N.
Proof.
  intros Hd H. unfold round_half_even.
  destruct (2 * (num mod den) <? den) eqn:E1;
    [Z.div_mod_to_equations; nia|].
  apply Z.ltb_ge in E1.
  assert (num / den + 1 <= N) by (Z.div_mod_to_equations; nia).
  destruct (den <? 2 * (num mod den)); [assumption|].
  destruct (Z.even (num / den)); lia.
Qed.

Lemma round_half_even_gt (num den L : Z) :
  0 < den -> L * den <= num -> den < 2 * (num - L * den) ->
  L < round_half_even num den.
Proof.
  intros Hd H1 H2. unfold round_half_even.
  assert (Hq : L <= num / den) by (Z.div_mod_to_equations; nia).
  destruct (Z.eq_dec (num / den) L) as [E|E].
  - assert (R : num mod den = num - L * den)
      by (Z.div_mod_to_equations; nia).
    rewrite R.
    replace (2 * (num - L * den) <? den) with false
      by (symmetry; apply Z.ltb_ge; lia).
    replace (den <? 2 * (num - L * den)) with true
      by (symmetry; apply Z.ltb_lt; lia).
    lia.
  - destruct (2 * (num mod den) <? den); [lia|].
    destruct (den <? 2 * (num mod den)); [lia|].
    destruct (Z.even (num / den)); lia.
Qed.

Lemma binade_bracket (a b : Z) :
  0 < a < 2 ^ 53 -> 0 < b ->
  binade a b <= 52
  /\ 2 ^ 52 * b <= a * 2 ^ (52 - binade a b).
Proof.
  intros [Ha Ha'] Hb.
  pose proof (Z.log2_spec a Ha) as [La La'].
  pose proof (Z.log2_spec b Hb) as [Lb Lb'].
  pose proof (Z.log2_nonneg a) as Na.
  pose proof (Z.log2_nonneg b) as Nb.
  assert (L53 : Z.log2 a < 53) by (apply Z.log2_lt_pow2; lia).
  unfold binade. set (d := Z.log2 a - Z.log2 b).
  destruct (a * 2 ^ Z.max 0 (- d) <? b * 2 ^ Z.max 0 d) eqn:E.
  - split; [lia|].
    replace (52 - (d - 1)) with (Z.log2 b + (53 - Z.log2 a)) by lia.
    rewrite Z.pow_add_r by lia.
    assert (P : 2 ^ 53 = 2 ^ Z.log2 a * 2 ^ (53 - Z.log2 a)).
    { rewrite <- Z.pow_add_r by lia. f_equal. lia. }
    assert (0 < 2 ^ (53 - Z.log2 a)) by (apply Z.pow_pos_nonneg; lia).
    assert (0 < 2 ^ Z.log2 b) by (apply Z.pow_pos_nonneg; lia).
    rewrite Z.pow_succ_r in Lb' by lia.
    change (2 ^ 53) with (2 * 2 ^ 52) in P.
    set (X := 2 ^ Z.log2 a) in *. set (Y := 2 ^ (53 - Z.log2 a)) in *.
    set (W := 2 ^ Z.log2 b) in *.
    assert (X * (W * Y) <= a * (W * Y)) by (apply Z.mul_le_mono_nonneg_r; nia).
    assert (2 ^ 52 * b < 2 ^ 52 * (2 * W)) by (apply Z.mul_lt_mono_pos_l; lia).
    replace (X * (W * Y)) with (2 * 2 ^ 52 * W) in * by (rewrite P; ring).
    lia.
  - apply Z.ltb_ge in E. split; [lia|].
    destruct (Z.le_gt_cases 0 d) as [Hd|Hd].
    + rewrite Z.max_r in E by lia. rewrite Z.max_l in E by lia.
      change (2 ^ 0) with 1 in E.
      assert (P : 2 ^ 52 = 2 ^ d * 2 ^ (52 - d)).
      { rewrite <- Z.pow_add_r by lia. f_equal. lia. }
      assert (0 < 2 ^ (52 - d)) by (apply Z.pow_pos_nonneg; lia).
      rewrite P. nia.
    + rewrite Z.max_l in E by lia. rewrite Z.max_r in E by lia.
      change (2 ^ 0) with 1 in E.
      replace (52 - d) with (52 + - d) by lia.
      rewrite Z.pow_add_r by lia. nia.
Qed.

Lemma Math_ceil_Number_div (a b : Z) :
  0 <= a <= MAX_SAFE_INTEGER -> 0 < b ->
  Math_ceil (Number_div a b) = ceil_div a b.
Proof.
  intros [Ha Ha'] Hb. unfold Number_div.
  destruct (Z.eqb_spec a 0) as [->|Hn].
  { unfold ceil_div. reflexivity. }
  assert (Hp : 0 < a < 2 ^ 53) by (unfold MAX_SAFE_INTEGER in Ha'; lia).
  rewrite (Z.abs_eq a) by lia. rewrite (Z.abs_eq b) by lia.
  destruct (binade_bracket a b Hp Hb) as [B1 B2].
  set (e := binade a b - 52) in *.
  rewrite (Z.max_l 0 e) by lia. rewrite (Z.max_r 0 (- e)) by lia.
  rewrite !Z.sgn_pos by lia.
  change (2 ^ 0) with 1. rewrite !Z.mul_1_r, !Z.mul_1_l.
  replace (52 - binade a b) with (- e) in B2 by lia.
  set (P := 2 ^ (- e)) in *.
  assert (HP : 0 < P) by (apply Z.pow_pos_nonneg; lia).
  set (m := round_half_even (a * P) b).
  pose proof (ceil_div_spec a b Hb) as [C1 C2].
  set (c := ceil_div a b) in *.
  assert (U : m <= c * P) by (apply round_half_even_le; nia).
  assert (L : (c - 1) * P < m).
  { apply round_half_even_gt; [lia|nia|].
    change (2 ^ 53) with (2 * 2 ^ 52) in Hp. nia. }
  unfold Math_ceil, Qceiling, Qfloor, Qopp. cbn [Qnum Qden].
  rewrite Z2Pos.id by lia.
  Z.div_mod_to_equations. nia.
Qed.

Lemma calculateSeasonsData_safe (season : Z) (rest : list Z) :
  safe_seasons (season :: rest) ->
  averageEpisodesPerSeason (calculateSeasonsData (Some (season :: rest)))
  = ceil_div (sum_episodes (season :: rest))
             (Z.of_nat (length (season :: rest))).
Proof.
  intros [Hn Hs]. unfold calculateSeasonsData. cbn [averageEpisodesPerSeason].
  assert (H0 : 0 <= sum_episodes (season :: rest)).
  { clear Hs. induction Hn as [|x l Hx _ IH];
      cbn [sum_episodes fold_right]; [lia|].
    fold (sum_episodes l). lia. }
  rewrite fold_left_Number_add by (trivial; lia).
  rewrite Z.add_0_l.
  apply Math_ceil_Number_div; [lia|]. simpl length. lia.
Qed.

(** C6, as amended: season aggregation outputs the length of the list as
    [count]; an absent or empty list gives 0 for both outputs; the episode
    counts [10, 10, 11] give 3 and 11; and when the episode counts are not
    negative and their total is at most 2^53 - 1,
    [averageEpisodesPerSeason] is the ceiling of the total over the count
    (the integer [a] with [count * (a - 1) < total <= count * a]). *)
Theorem calculateSeasonsData_aggregates :
  calculateSeasonsData None = {| count := 0; averageEpisodesPerSeason := 0 |}
  /\ calculateSeasonsData (Some [])
     = {| count := 0; averageEpisodesPerSeason := 0 |}
  /\ (forall seasons : list Z,
        count (calculateSeasonsData (Some seasons))
        = Z.of_nat (length seasons))
  /\ (forall (season : Z) (rest : list Z),
        let seasons := season :: rest in
        let data := calculateSeasonsData (Some seasons) in
        safe_seasons seasons ->
        averageEpisodesPerSeason data
        = ceil_div (sum_episodes seasons) (count data)
        /\ count data * (averageEpisodesPerSeason data - 1)
           < sum_episodes seasons
           <= count data * averageEpisodesPerSeason data)
  /\ calculateSeasonsData (Some [10; 10; 11])
     = {| count := 3; averageEpisodesPerSeason := 11 |}.
Proof.
  split; [reflexivity|]. split; [reflexivity|].
  split; [intros [|season rest]; reflexivity|].
  split; [|vm_compute; reflexivity].
  intros season rest seasons data Hsafe.
  assert (Hc : count data = Z.of_nat (length seasons)) by reflexivity.
  assert (Ha : averageEpisodesPerSeason data
               = ceil_div (sum_episodes seasons) (count data)).
  { rewrite Hc. apply calculateSeasonsData_safe. exact Hsafe. }
  split; [exact Ha|].
  rewrite Ha. apply ceil_div_spec. rewrite Hc. unfold seasons. simpl length. lia.
Qed.

Lemma calculateSeasonsData_aggregates_witness :
  safe_seasons [24; 22; 25]
  /\ averageEpisodesPerSeason (calculateSeasonsData (Some [24; 22; 25])) = 24.
Proof.
  assert (H : safe_seasons [24; 22; 25]).
  { split; [repeat constructor; lia | vm_compute; discriminate]. }
  split; [exact H|].
  destruct calculateSeasonsData_aggregates as (_ & _ & _ & A & _).
  destruct (A 24 [22; 25] H) as [E _]. rewrite E. reflexivity.
Defined.

(** C6, where the claim fails: for the episode counts [2^53, 1] the total
    is 2^53 + 1, which no Number holds; the sum is rounded to 2^53 and the
    average comes out as 2^52, below the ceiling of the total over 2. *)
Lemma calculateSeasonsData_rounding_counterexample :
  let seasons := [2 ^ 53; 1] in
  averageEpisodesPerSeason (calculateSeasonsData (Some seasons)) = 2 ^ 52
  /\ ceil_div (sum_episodes seasons) (Z.of_nat (length seasons)) = 2 ^ 52 + 1
  /\ averageEpisodesPerSeason (calculateSeasonsData (Some seasons))
     <> ceil_div (sum_episodes seasons) (Z.of_nat (length seasons)).
Proof.
  split; [vm_compute; reflexivity|].
  split; [vm_compute; reflexivity | vm_compute; discriminate].
Qed.

(** ** Whitespace *)

Lemma trimStart_suffix (s : jsstring) :
  exists pre, s = pre ++ trimStart s /\ visible pre = [].
Proof.
  induction s as [|c s (pre & E & V)]; simpl.
  - exists []. split; reflexivity.
  - destruct (is_ws c) eqn:W.
    + exists (c :: pre). split; [simpl; congruence|].
      unfold visible in *. simpl. now rewrite W.
    + exists []. split; reflexivity.
Qed.

Lemma trimStart_head (s : jsstring) (c : code_unit) (r : jsstring) :
  trimStart s = c :: r -> is_ws c = false.
Proof.
  induction s as [|x s IH]; simpl; [discriminate|].
  destruct (is_ws x) eqn:W; [exact IH|].
  intros [= <- _]. exact W.
Qed.

Lemma visible_app (a b : jsstring) : visible (a ++ b) = visible a ++ visible b.
Proof. apply filter_app. Qed.

Lemma visible_rev (a : jsstring) : visible (rev a) = rev (visible a).
Proof.
  induction a as [|c a IH]; simpl; [reflexivity|].
  rewrite visible_app, IH. unfold visible at 2 3. simpl.
  destruct (is_ws c); simpl; [now rewrite app_nil_r | reflexivity].
Qed.

Lemma trimEnd_prefix (s : jsstring) :
  exists post, s = trimEnd s ++ post /\ visible post = [].
Proof.
  unfold trimEnd. destruct (trimStart_suffix (rev s)) as (pre & E & V).
  exists (rev pre). split.
  - rewrite <- rev_app_distr, <- E. now rewrite rev_involutive.
  - now rewrite visible_rev, V.
Qed.

Lemma trimEnd_last (s r : jsstring) (c : code_unit) :
  trimEnd s = r ++ [c] -> is_ws c = false.
Proof.
  unfold trimEnd. intros H.
  apply (f_equal (@rev _)) in H. rewrite rev_involutive, rev_app_distr in H.
  simpl in H. eapply trimStart_head, H.
Qed.

(** [trim] cuts whitespace off both ends and nothing else. *)
Lemma trim_infix (s : jsstring) :
  exists pre post,
    s = pre ++ trim s ++ post /\ visible pre = [] /\ visible post = [].
Proof.
  destruct (trimStart_suffix s) as (pre & E1 & V1).
  destruct (trimEnd_prefix (trimStart s)) as (post & E2 & V2).
  exists pre, post. unfold trim. repeat split; trivial.
  now rewrite <- E2.
Qed.

Lemma trim_head (s : jsstring) (c : code_unit) (r : jsstring) :
  trim s = c :: r -> is_ws c = false.
Proof.
  unfold trim. intros H.
  destruct (trimEnd_prefix (trimStart s)) as (post & E & _).
  rewrite H in E. simpl in E. eapply trimStart_head, E.
Qed.

Lemma trim_last (s r : jsstring) (c : code_unit) :
  trim s = r ++ [c] -> is_ws c = false.
Proof. apply trimEnd_last. Qed.

Lemma visible_trim (s : jsstring) : visible (trim s) = visible s.
Proof.
  destruct (trim_infix s) as (pre & post & E & V1 & V2).
  rewrite E at 2. rewrite !visible_app, V1, V2. now rewrite app_nil_r.
Qed.

Lemma visible_newlines_to_spaces (s : jsstring) :
  visible (newlines_to_spaces s) = visible s.
Proof.
  induction s as [|c s IH]; simpl; [reflexivity|].
  unfold visible in *. simpl. rewrite IH.
  destruct (Z.eqb_spec c newline) as [->|]; reflexivity.
Qed.

Lemma visible_collapse_from (in_run : bool) (s : jsstring) :
  visible (collapse_from in_run s) = visible s.
Proof.
  revert in_run. induction s as [|c s IH]; intros in_run; simpl; [reflexivity|].
  unfold visible in *. destruct (is_ws c) eqn:W.
  - destruct in_run; simpl; rewrite ?W; apply IH.
  - simpl. rewrite W. simpl. now rewrite IH.
Qed.

(** Every whitespace code unit that [collapse_from] leaves is a space. *)
Lemma collapse_from_spaces (in_run : bool) (s : jsstring) (c : code_unit) :
  In c (collapse_from in_run s) -> is_ws c = true -> c = space.
Proof.
  revert in_run. induction s as [|x s IH]; intros in_run; simpl; [tauto|].
  destruct (is_ws x) eqn:W.
  - destruct in_run; simpl; [apply IH|].
    intros [<-|H] Hc; [reflexivity | exact (IH _ H Hc)].
  - simpl. intros [<-|H] Hc; [congruence | exact (IH _ H Hc)].
Qed.

(** Within a whitespace run, [collapse_from] emits nothing more. *)
Lemma collapse_from_run_head (s : jsstring) (c : code_unit) (r : jsstring) :
  collapse_from true s = c :: r -> is_ws c = false.
Proof.
  induction s as [|x s IH]; simpl; [discriminate|].
  destruct (is_ws x) eqn:W; [exact IH|].
  intros [= <- _]. exact W.
Qed.

(** No two neighbours in the result of [collapse_from] are both
    whitespace. *)
Lemma collapse_from_neighbours (in_run : bool) (s pre : jsstring)
    (a b : code_unit) (post : jsstring) :
  collapse_from in_run s = pre ++ a :: b :: post ->
  is_ws a = true -> is_ws b = false.
Proof.
  revert in_run pre. induction s as [|x s IH]; intros in_run pre; simpl.
  - destruct pre; discriminate.
  - destruct (is_ws x) eqn:W.
    + destruct in_run; [apply IH|].
      destruct pre as [|p pre]; simpl.
      * intros [= _ H] _. eapply collapse_from_run_head, H.
      * intros [= _ H]. eapply IH, H.
    + destruct pre as [|p pre]; simpl.
      * intros [= <- _] Ha. congruence.
      * intros [= _ H]. eapply IH, H.
Qed.

(** ** Words *)

Lemma words_all_ws (s : jsstring) : visible s = [] -> words s = [].
Proof.
  induction s as [|c s IH]; [reflexivity|].
  unfold visible in *. simpl. destruct (is_ws c); simpl; [exact IH|discriminate].
Qed.

Lemma head_visible_all_ws (s : jsstring) :
  visible s = [] -> head_visible s = false.
Proof.
  destruct s as [|c s]; [reflexivity|].
  unfold visible. simpl. destruct (is_ws c); [reflexivity | discriminate].
Qed.

Lemma words_head_visible (s : jsstring) :
  head_visible s = true -> exists w ws, words s = w :: ws.
Proof.
  destruct s as [|c r]; [discriminate|]. cbn [head_visible words].
  destruct (is_ws c); [discriminate|]. intros _.
  destruct (head_visible r); [destruct (words r)|]; eauto.
Qed.

Lemma unwords_cons (c : code_unit) (w : jsstring) (ws : list jsstring) :
  unwords ((c :: w) :: ws) = c :: unwords (w :: ws).
Proof. destruct ws; reflexivity. Qed.

Lemma trimStart_head_visible (s : jsstring) :
  head_visible s = true -> trimStart s = s.
Proof.
  destruct s as [|c r]; [reflexivity|]. cbn [head_visible trimStart].
  now destruct (is_ws c).
Qed.

Lemma words_app_ws_l (pre s : jsstring) :
  visible pre = [] -> words (pre ++ s) = words s.
Proof.
  induction pre as [|c pre IH]; [reflexivity|].
  unfold visible in *. simpl.
  destruct (is_ws c); simpl; [exact IH | discriminate].
Qed.

Lemma head_visible_app_ws (s post : jsstring) :
  visible post = [] -> head_visible (s ++ post) = head_visible s.
Proof.
  intros H. destruct s as [|c s]; [|reflexivity].
  now apply head_visible_all_ws.
Qed.

Lemma words_app_ws_r (s post : jsstring) :
  visible post = [] -> words (s ++ post) = words s.
Proof.
  intros H. induction s as [|c s IH]; [now apply words_all_ws|].
  cbn [app words]. rewrite IH, head_visible_app_ws by exact H. reflexivity.
Qed.

Lemma words_trim (s : jsstring) : words (trim s) = words s.
Proof.
  destruct (trim_infix s) as (pre & post & E & V1 & V2).
  rewrite E at 2. rewrite words_app_ws_l by exact V1.
  now rewrite words_app_ws_r by exact V2.
Qed.

Lemma head_visible_collapse_from (s : jsstring) :
  head_visible (collapse_from false s) = head_visible s.
Proof.
  destruct s as [|c s]; [reflexivity|]. cbn [collapse_from].
  destruct (is_ws c) eqn:W; cbn [head_visible]; [|now rewrite W].
  rewrite W. reflexivity.
Qed.

Lemma words_collapse_from (in_run : bool) (s : jsstring) :
  words (collapse_from in_run s) = words s.
Proof.
  revert in_run. induction s as [|c s IH]; intros in_run; [reflexivity|].
  cbn [collapse_from words]. destruct (is_ws c) eqn:W.
  - destruct in_run; [apply IH|].
    cbn [words]. change (is_ws space) with true. cbn iota. apply IH.
  - cbn [words]. rewrite W, head_visible_collapse_from, IH. reflexivity.
Qed.

Lemma is_ws_newline_to_space (c : code_unit) :
  is_ws (if c =? newline then space else c) = is_ws c.
Proof. destruct (Z.eqb_spec c newline) as [->|]; reflexivity. Qed.

Lemma head_visible_newlines_to_spaces (s : jsstring) :
  head_visible (newlines_to_spaces s) = head_visible s.
Proof.
  destruct s as [|c s]; [reflexivity|].
  cbn [newlines_to_spaces map head_visible].
  now rewrite is_ws_newline_to_space.
Qed.

Lemma words_newlines_to_spaces (s : jsstring) :
  words (newlines_to_spaces s) = words s.
Proof.
  induction s as [|c s IH]; [reflexivity|].
  change (newlines_to_spaces (c :: s))
    with ((if c =? newline then space else c) :: newlines_to_spaces s).
  cbn [words]. rewrite is_ws_newline_to_space, IH,
    head_visible_newlines_to_spaces.
  destruct (Z.eqb_spec c newline) as [->|]; reflexivity.
Qed.

Lemma spaced_intro (s : jsstring) :
  (forall c, In c s -> is_ws c = true -> c = space) ->
  (forall pre a b post,
      s = pre ++ a :: b :: post -> is_ws a = true -> is_ws b = false) ->
  (forall r c, s = r ++ [c] -> is_ws c = false) ->
  spaced s = true.
Proof.
  induction s as [|c s IH]; intros A B D; [reflexivity|].
  assert (S : spaced s = true).
  { apply IH.
    - intros x Hx. apply A. now right.
    - intros pre a b post E. apply (B (c :: pre) a b post). now rewrite E.
    - intros r x E. apply (D (c :: r) x). now rewrite E. }
  cbn [spaced]. rewrite S. destruct (is_ws c) eqn:W; [|reflexivity].
  rewrite (A c (or_introl eq_refl) W). change (space =? space) with true.
  destruct s as [|b post].
  - pose proof (D [] c eq_refl). congruence.
  - cbn [head_visible]. now rewrite (B [] c b post eq_refl W).
Qed.

Lemma unwords_words_spaced (s : jsstring) :
  spaced s = true -> unwords (words s) = trimStart s.
Proof.
  induction s as [|c r IH]; [reflexivity|].
  cbn [spaced words trimStart]. destruct (is_ws c) eqn:W.
  - intros H. apply andb_prop in H as [_ H]. now apply IH.
  - intros S. specialize (IH S). destruct (head_visible r) eqn:V.
    + destruct (words_head_visible r V) as (w & ws & E).
      rewrite E, unwords_cons, <- E, IH.
      now rewrite trimStart_head_visible.
    + destruct r as [|x r']; [reflexivity|].
      cbn [head_visible] in V. apply negb_false_iff in V.
      cbn [spaced] in S. rewrite V in S.
      apply andb_prop in S as [S S3]. apply andb_prop in S as [S1 S2].
      apply Z.eqb_eq in S1. subst x.
      cbn [words trimStart] in *. rewrite V in *.
      destruct (words_head_visible r' S2) as (w & ws & E).
      rewrite E in *. cbn [unwords app]. do 2 f_equal.
      change (unwords (w :: ws) = r'). rewrite IH.
      now apply trimStart_head_visible.
Qed.

Lemma long_text_words (s : jsstring) :
  trim (collapse_ws (newlines_to_spaces s)) = unwords (words s).
Proof.
  set (collapsed := collapse_ws (newlines_to_spaces s)).
  assert (S : spaced (trim collapsed) = true).
  { destruct (trim_infix collapsed) as (pre' & post' & E & _ & _).
    apply spaced_intro.
    - intros c Hc. apply (collapse_from_spaces false (newlines_to_spaces s)).
      fold (collapse_ws (newlines_to_spaces s)). fold collapsed.
      rewrite E. apply in_or_app. right. apply in_or_app. now left.
    - intros pre a b post Hc.
      apply (collapse_from_neighbours false (newlines_to_spaces s)
                                      (pre' ++ pre) a b (post ++ post')).
      fold (collapse_ws (newlines_to_spaces s)). fold collapsed.
      rewrite E at 1. rewrite Hc, <- !app_assoc. reflexivity.
    - intros r c. apply trim_last. }
  rewrite <- (words_newlines_to_spaces s),
    <- (words_collapse_from false (newlines_to_spaces s)).
  fold (collapse_ws (newlines_to_spaces s)). fold collapsed.
  rewrite <- (words_trim collapsed), (unwords_words_spaced _ S).
  destruct (trim collapsed) as [|c r] eqn:E; [reflexivity|].
  symmetry. apply trimStart_head_visible. cbn [head_visible].
  now rewrite (trim_head collapsed c r E).
Qed.

(** The words of a string hold its visible code units and nothing else. *)
Lemma words_visible (s : jsstring) :
  concat (words s) = visible s
  /\ Forall (fun w => w <> [] /\ visible w = w) (words s).
Proof.
  induction s as [|c r [IH1 IH2]]; [split; [reflexivity | constructor]|].
  cbn [words]. unfold visible in *. cbn [filter].
  destruct (is_ws c) eqn:W; cbn [negb]; [now split|].
  destruct (head_visible r).
  - destruct (words r) as [|w ws].
    + cbn [concat app] in *. rewrite <- IH1. split; [reflexivity|].
      repeat constructor; [discriminate|]. cbn [filter]. now rewrite W.
    + cbn [concat app] in *. rewrite <- IH1. split; [reflexivity|].
      inversion IH2 as [|? ? [_ Hw] Hws]. subst.
      constructor; [|exact Hws]. split; [discriminate|].
      cbn [filter]. rewrite W. cbn [negb]. now rewrite Hw.
  - cbn [concat app]. rewrite IH1. split; [reflexivity|].
    constructor; [|exact IH2]. split; [discriminate|].
    cbn [filter]. now rewrite W.
Qed.

(** ** The modes of [formatArray] *)

Lemma formatArray_one_string (s : jsstring) (formatType : FormatType)
    (folderPath : option jsstring) :
  formatArray [IStr s] formatType folderPath MAX_ARRAY_ITEMS
  = Ok (match formatType with
        | LINK_ID_WITH_PATH => []
        | _ => if nonblank s then [renderString formatType folderPath s] else []
        end).
Proof.
  change [IStr s] with (strs [s]). rewrite formatArray_strs.
  simpl filter. destruct formatType, (nonblank s); reflexivity.
Qed.

(** C8: for a non-blank string the LONG_TEXT mode yields one element:
    a double quote, the words of the string joined by single spaces, and
    a double quote.  The words are the maximal runs of code units that are
    not whitespace, so every whitespace run between two words, newlines
    included, has become one space and the runs at the ends are gone.
    The cleaned text keeps the visible code units of the input in order;
    its only whitespace is the space, never twice in a row and never at
    either end.  The element holds no newline. *)
Theorem long_text_format (s : jsstring) (folderPath : option jsstring) :
  nonblank s = true ->
  let cleaned := unwords (words s) in
  formatArray [IStr s] LONG_TEXT folderPath MAX_ARRAY_ITEMS
  = Ok [dquote :: cleaned ++ [dquote]]
  /\ concat (words s) = visible s
  /\ Forall (fun w => w <> [] /\ visible w = w) (words s)
  /\ visible cleaned = visible s
  /\ (forall c, In c cleaned -> is_ws c = true -> c = space)
  /\ (forall pre a b post,
        cleaned = pre ++ a :: b :: post -> is_ws a = true -> is_ws b = false)
  /\ (forall c r, cleaned = c :: r -> is_ws c = false)
  /\ (forall r c, cleaned = r ++ [c] -> is_ws c = false)
  /\ ~ In newline (dquote :: cleaned ++ [dquote]).
Proof.
  intros Hs cleaned.
  set (collapsed := collapse_ws (newlines_to_spaces s)).
  assert (C : cleaned = trim collapsed)
    by (symmetry; apply long_text_words).
  destruct (trim_infix collapsed) as (pre' & post' & E & _ & _).
  assert (Hsp : forall c, In c (trim collapsed) -> is_ws c = true -> c = space).
  { intros c Hc. apply (collapse_from_spaces false (newlines_to_spaces s)).
    fold (collapse_ws (newlines_to_spaces s)). fold collapsed.
    rewrite E. apply in_or_app. right. apply in_or_app. now left. }
  destruct (words_visible s) as [W1 W2].
  split; [|split; [exact W1|split; [exact W2|]]].
  { rewrite formatArray_one_string, Hs, C. reflexivity. }
  rewrite C. split; [|split; [|split; [|split; [|split]]]].
  - rewrite visible_trim. unfold collapsed, collapse_ws.
    now rewrite visible_collapse_from, visible_newlines_to_spaces.
  - exact Hsp.
  - intros pre a b post Hc.
    apply (collapse_from_neighbours false (newlines_to_spaces s)
                                    (pre' ++ pre) a b (post ++ post')).
    fold (collapse_ws (newlines_to_spaces s)). fold collapsed.
    rewrite E at 1. rewrite Hc, <- !app_assoc. reflexivity.
  - intros c r. apply trim_head.
  - intros r c. apply trim_last.
  - simpl. intros [H|H]; [discriminate|].
    apply in_app_or in H. destruct H as [H|[H|[]]]; [|discriminate].
    apply Hsp in H; [discriminate | reflexivity].
Qed.

(** The theorem at work on "A", two newlines, "B" and a space. *)
Lemma long_text_format_witness :
  nonblank [65; 10; 10; 66; 32] = true
  /\ words [65; 10; 10; 66; 32] = [[65]; [66]]
  /\ formatArray [IStr [65; 10; 10; 66; 32]] LONG_TEXT None MAX_ARRAY_ITEMS
     = Ok [[dquote; 65; space; 66; dquote]].
Proof.
  split; [reflexivity|]. split; [reflexivity|].
  exact (proj1 (long_text_format [65; 10; 10; 66; 32] None eq_refl)).
Defined.

(** C5 as stated fails on an id of 0, which is present but falsy: with the
    path "actors" the entity [{name: "Doe", id: 0}] is rendered as
    ["[[Doe]]"], not as ["[[actors/0|Doe]]"]. *)
Lemma link_id_zero_counterexample :
  formatArray [IObj (Some (lit "Doe")) (Some 0)] LINK_ID_WITH_PATH
              (Some (lit "actors")) MAX_ARRAY_ITEMS
  = Ok [dquote :: lit "[[Doe]]" ++ [dquote]]
  /\ formatArray [IObj (Some (lit "Doe")) (Some 0)] LINK_ID_WITH_PATH
                 (Some (lit "actors")) MAX_ARRAY_ITEMS
     <> Ok [dquote :: lit "[[actors/0|Doe]]" ++ [dquote]].
Proof.
  split; [reflexivity | vm_compute; discriminate].
Qed.

(** C5, amended: an id counts only when it is present and not 0.  For an
    entity with a non-blank name, LINK_ID_WITH_PATH renders
    ["[[path/Id|Name]]"] when the path is non-blank and the id is present
    and not 0, ["[[Id|Name]]"] when only such an id is present, and
    ["[[Name]]"] otherwise, the name sanitized and the id as the template
    literal prints the Number ([int_to_string]); [{name: "Doe", id: 7}]
    with the path "actors" gives ["[[actors/7|Doe]]"], [{name: "Doe"}]
    gives ["[[Doe]]"], and the id 10^21 is printed as 1e+21. *)
Theorem link_id_with_path_rendering :
  (forall (name : jsstring) (id : option Z) (folderPath : option jsstring),
      nonblank name = true ->
      formatArray [IObj (Some name) id] LINK_ID_WITH_PATH folderPath
                  MAX_ARRAY_ITEMS
      = Ok [quoted_link
              (match id with
               | Some i =>
                   if i =? 0 then cleanTextForMetadata name
                   else if path_given folderPath
                   then path_text folderPath ++ lit "/" ++ int_to_string i
                          ++ lit "|" ++ cleanTextForMetadata name
                   else int_to_string i ++ lit "|" ++ cleanTextForMetadata name
               | None => cleanTextForMetadata name
               end)])
  /\ formatArray [IObj (Some (lit "Doe")) (Some 7)] LINK_ID_WITH_PATH
                 (Some (lit "actors")) MAX_ARRAY_ITEMS
     = Ok [dquote :: lit "[[actors/7|Doe]]" ++ [dquote]]
  /\ formatArray [IObj (Some (lit "Doe")) None] LINK_ID_WITH_PATH
                 (Some (lit "actors")) MAX_ARRAY_ITEMS
     = Ok [dquote :: lit "[[Doe]]" ++ [dquote]]
  /\ formatArray [IObj (Some (lit "Doe")) (Some (10 ^ 21))]
                 LINK_ID_WITH_PATH (Some (lit "actors")) MAX_ARRAY_ITEMS
     = Ok [dquote :: lit "[[actors/1e+21|Doe]]" ++ [dquote]].
Proof.
  split; [|split; [|split]]; [|reflexivity|reflexivity|vm_compute; reflexivity].
  intros name id folderPath Hn.
  change [IObj (Some name) id]
    with (map item_of_person [{| pd_name := name; pd_id := id |}]).
  rewrite formatArray_persons. unfold keptPersons. simpl filter. rewrite Hn.
  change (slice0 [{| pd_name := name; pd_id := id |}] MAX_ARRAY_ITEMS)
    with [{| pd_name := name; pd_id := id |}].
  cbn [map pd_name pd_id]. unfold renderIdLink.
  destruct id as [i|]; [|reflexivity].
  cbn [truthy_id]. destruct (i =? 0), (path_given folderPath); reflexivity.
Qed.

Lemma link_id_with_path_rendering_witness :
  nonblank (lit "Doe") = true
  /\ formatArray [IObj (Some (lit "Doe")) (Some 7)] LINK_ID_WITH_PATH None
                 MAX_ARRAY_ITEMS
     = Ok [dquote :: lit "[[7|Doe]]" ++ [dquote]].
Proof.
  split; [reflexivity|].
  exact (proj1 link_id_with_path_rendering (lit "Doe") (Some 7) None eq_refl).
Defined.

(** C2: on an empty collection [formatArray] returns the empty array in
    every mode, for every path and cap.  On strings it never throws: it
    returns the rendering of the non-blank ones, so that blank entries
    are left out, and an entity without a name is left out in the same
    way.  The sanitizers return the empty string on the empty string. *)
Theorem formatArray_never_throws :
  (forall formatType folderPath maxItems,
      formatArray [] formatType folderPath maxItems = Ok [])
  /\ (forall (l : list jsstring) formatType folderPath maxItems,
        exists out,
          formatArray (strs l) formatType folderPath maxItems = Ok out
          /\ formatArray (strs (filter nonblank l)) formatType folderPath
                         maxItems = Ok out
          /\ (formatType <> LINK_ID_WITH_PATH ->
              out = map (renderString formatType folderPath)
                        (slice0 (filter nonblank l) maxItems)))
  /\ (forall (b : list PersonData) formatType folderPath maxItems,
        exists out,
          formatArray (map item_of_person b) formatType folderPath maxItems
          = Ok out
          /\ length out = length (keptPersons b maxItems))
  /\ (forall (id : option Z) formatType folderPath maxItems,
        formatArray [IObj None id] formatType folderPath maxItems = Ok [])
  /\ cleanTextForMetadata [] = []
  /\ stripHtmlTags [] = [].
Proof.
  split; [|split; [|split; [|split; [|split; reflexivity]]]].
  - intros formatType folderPath maxItems.
    destruct formatType; unfold formatArray; simpl; now rewrite slice0_nil.
  - intros l formatType folderPath maxItems.
    eexists. split; [apply formatArray_strs|]. split.
    + rewrite formatArray_strs.
      assert (E : filter nonblank (filter nonblank l) = filter nonblank l).
      { induction l as [|s l IH]; simpl; [reflexivity|].
        destruct (nonblank s) eqn:N; simpl; rewrite ?N, IH; reflexivity. }
      now rewrite E.
    + intros H. destruct formatType; try reflexivity. contradiction.
  - intros b formatType folderPath maxItems.
    eexists. split; [apply formatArray_persons|].
    destruct formatType; apply length_map.
  - intros id formatType folderPath maxItems.
    destruct formatType; unfold formatArray; simpl; now rewrite ?slice0_nil.
Qed.

Lemma formatArray_never_throws_witness :
  SHORT_VALUE <> LINK_ID_WITH_PATH
  /\ exists out,
       formatArray (strs [lit "a:b"; lit "  "; lit "c"]) SHORT_VALUE None
                   MAX_ARRAY_ITEMS = Ok out
       /\ out = [lit "ab"; lit "c"].
Proof.
  split; [discriminate|].
  destruct (proj1 (proj2 formatArray_never_throws)
              [lit "a:b"; lit "  "; lit "c"] SHORT_VALUE None MAX_ARRAY_ITEMS)
    as (out & E & _ & F).
  exists out. split; [exact E|]. rewrite F by discriminate. reflexivity.
Defined.

(** ** Person grouping *)

Lemma jsstring_eqb_eq (a b : jsstring) : jsstring_eqb a b = true <-> a = b.
Proof.
  unfold jsstring_eqb. destruct (list_eq_dec Z.eq_dec a b); split;
    congruence.
Qed.

Lemma has_role_exclusive (p : KinopoiskPerson) (r1 r2 : jsstring) :
  has_role r1 p = true -> has_role r2 p = true -> r1 = r2.
Proof.
  unfold has_role. intros H1 H2.
  apply andb_prop in H1, H2. destruct H1 as [_ H1], H2 as [_ H2].
  apply jsstring_eqb_eq in H1, H2. congruence.
Qed.

Lemma extractPeople_step_spec (result : People) (p : KinopoiskPerson) :
  directors (extractPeople_step result p)
  = directors result ++ bucket (lit "director") [p]
  /\ actors (extractPeople_step result p)
     = actors result ++ bucket (lit "actor") [p]
  /\ writers (extractPeople_step result p)
     = writers result ++ bucket (lit "writer") [p]
  /\ producers (extractPeople_step result p)
     = producers result ++ bucket (lit "producer") [p].
Proof.
  unfold extractPeople_step, bucket, has_role, personData_of.
  destruct p as [pid name role];
    cbn [person_name person_enProfession person_id filter].
  assert (Same : forall l : list PersonData, l = l ++ map personData_of [])
    by (intros l; simpl; now rewrite app_nil_r).
  unfold personData_of in Same.
  destruct name as [name|], role as [role|];
    cbn [truthy_opt_str or_empty andb]; rewrite ?andb_false_r;
    try (repeat split; apply Same).
  destruct (truthy_str name), (truthy_str role); cbn [negb orb andb];
    try (repeat split; apply Same).
  destruct (jsstring_eqb role (lit "director")) eqn:E1.
  { apply jsstring_eqb_eq in E1. subst role.
    cbn [directors actors writers producers]. repeat split; apply Same. }
  destruct (jsstring_eqb role (lit "actor")) eqn:E2.
  { apply jsstring_eqb_eq in E2. subst role.
    cbn [directors actors writers producers]. repeat split; apply Same. }
  destruct (jsstring_eqb role (lit "writer")) eqn:E3.
  { apply jsstring_eqb_eq in E3. subst role.
    cbn [directors actors writers producers]. repeat split; apply Same. }
  destruct (jsstring_eqb role (lit "producer")) eqn:E4;
    cbn [directors actors writers producers]; repeat split; apply Same.
Qed.

Lemma bucket_cons (role : jsstring) (p : KinopoiskPerson)
    (persons : list KinopoiskPerson) :
  bucket role (p :: persons) = bucket role [p] ++ bucket role persons.
Proof.
  unfold bucket. simpl. destruct (has_role role p); reflexivity.
Qed.

Lemma extractPeople_fold (persons : list KinopoiskPerson) (result : People) :
  let final := fold_left extractPeople_step persons result in
  directors final = directors result ++ bucket (lit "director") persons
  /\ actors final = actors result ++ bucket (lit "actor") persons
  /\ writers final = writers result ++ bucket (lit "writer") persons
  /\ producers final = producers result ++ bucket (lit "producer") persons.
Proof.
  revert result. induction persons as [|p persons IH]; intros result.
  - simpl. unfold bucket. simpl. now rewrite !app_nil_r.
  - cbn [fold_left]. cbv zeta.
    destruct (IH (extractPeople_step result p)) as (D & A & W & P).
    destruct (extractPeople_step_spec result p) as (D' & A' & W' & P').
    rewrite D, A, W, P, D', A', W', P'.
    rewrite !(bucket_cons _ p persons), <- !app_assoc. repeat split.
Qed.

(** Each bucket holds the persons of its role, in their order. *)
Lemma extractPeople_buckets (persons : list KinopoiskPerson) :
  directors (extractPeople persons) = bucket (lit "director") persons
  /\ actors (extractPeople persons) = bucket (lit "actor") persons
  /\ writers (extractPeople persons) = bucket (lit "writer") persons
  /\ producers (extractPeople persons) = bucket (lit "producer") persons.
Proof. exact (extractPeople_fold persons no_people). Qed.

Lemma grouped_once (p : KinopoiskPerson) :
  (length (bucket (lit "director") [p]) + length (bucket (lit "actor") [p])
   + length (bucket (lit "writer") [p]) + length (bucket (lit "producer") [p])
   = if grouped p then 1 else 0)%nat.
Proof.
  unfold bucket, grouped. cbn [filter].
  destruct (has_role (lit "director") p) eqn:D,
    (has_role (lit "actor") p) eqn:A,
    (has_role (lit "writer") p) eqn:W,
    (has_role (lit "producer") p) eqn:P; try reflexivity; exfalso;
    repeat match goal with
           | H1 : has_role ?a p = true, H2 : has_role ?b p = true |- _ =>
               pose proof (has_role_exclusive p a b H1 H2); clear H1
           end; discriminate.
Qed.

(** A person with a name and one of the four roles is in one bucket, and
    nobody else is in any. *)
Lemma extractPeople_count (persons : list KinopoiskPerson) :
  (length (directors (extractPeople persons))
   + length (actors (extractPeople persons))
   + length (writers (extractPeople persons))
   + length (producers (extractPeople persons))
   = length (filter grouped persons))%nat.
Proof.
  destruct (extractPeople_buckets persons) as (D & A & W & P).
  rewrite D, A, W, P. clear.
  induction persons as [|p persons IH]; [reflexivity|].
  rewrite !(bucket_cons _ p persons), !length_app.
  pose proof (grouped_once p) as G. cbn [filter].
  destruct (grouped p); simpl length; lia.
Qed.

Lemma index_aligned_maps (folderPath : option jsstring)
    (kept : list PersonData) :
  index_aligned folderPath kept
    (map (fun p => renderString SHORT_VALUE None (pd_name p)) kept)
    (map (fun p => renderString LINK None (pd_name p)) kept)
    (map (fun p => renderString LINK_WITH_PATH folderPath (pd_name p)) kept)
    (map (fun p => renderIdLink folderPath (pd_name p) (pd_id p)) kept).
Proof.
  unfold index_aligned. rewrite !length_map. repeat split;
    rewrite nth_error_map, H; reflexivity.
Qed.

(** ** The transformation as a whole *)

(** Runs the calls of [formatArray] in [createMovieShowFrom] one after the
    other; each is on strings or on a bucket of persons. *)
Lemma translateType_cases (type : jsstring) :
  (exists s, translateType type = IStr s)
  \/ (exists n, translateType type = IFunction n)
  \/ translateType type = IObj None None.
Proof.
  unfold translateType, TYPE_TRANSLATIONS, OBJECT_PROTOTYPE, lookup.
  repeat match goal with
         | |- context [jsstring_eqb ?k type] =>
             destruct (jsstring_eqb k type)
         end;
    cbn [truthy_str]; eauto.
Qed.

Lemma formatArray_translateType (type : jsstring) :
  formatArray [translateType type] SHORT_VALUE None MAX_ARRAY_ITEMS
  = Ok (type_field type).
Proof.
  unfold type_field.
  destruct (translateType_cases type) as [[s E]|[[n E]|E]]; rewrite E.
  - rewrite formatArray_one_string. reflexivity.
  - reflexivity.
  - reflexivity.
Qed.

Ltac run_formatArray :=
  cbv beta zeta delta [createMovieShowFrom];
  repeat (rewrite formatArray_translateType; cbv beta iota delta [bind]);
  repeat (rewrite formatArray_one_string; cbv beta iota delta [bind]);
  repeat (rewrite formatArray_strs; cbv beta iota delta [bind]);
  repeat (rewrite formatArray_persons; cbv beta iota delta [bind]).

Section Transformation.

Variable capitalizeFirstLetter : jsstring -> jsstring.
Variable engine_parse : jsstring -> option Z.
Variable LocalTZA : Z -> Z.

(** The transformer never throws on a record of the declared type. *)
Lemma createMovieShowFrom_total (settings : option Settings)
    (fullInfo : FullInfo.t) :
  exists m,
    createMovieShowFrom capitalizeFirstLetter engine_parse LocalTZA
                        settings fullInfo = Ok m.
Proof.
  run_formatArray. eexists. reflexivity.
Qed.

(** C3: a person without a name or without a role key is in no bucket; a
    person with both is in the bucket of its role if that is one of the
    four, and in none otherwise; each bucket keeps the order of the list.
    For each bucket the four representations of the output record are
    index-aligned on the persons of the bucket that are kept. *)
Theorem people_grouped_and_aligned (settings : option Settings)
    (fullInfo : FullInfo.t) :
  let persons := persons_of_record fullInfo in
  let people := extractPeople persons in
  (directors people = bucket (lit "director") persons
   /\ actors people = bucket (lit "actor") persons
   /\ writers people = bucket (lit "writer") persons
   /\ producers people = bucket (lit "producer") persons)
  /\ (length (directors people) + length (actors people)
      + length (writers people) + length (producers people)
      = length (filter grouped persons))%nat
  /\ (forall p r1 r2, has_role r1 p = true -> has_role r2 p = true -> r1 = r2)
  /\ exists m,
       createMovieShowFrom capitalizeFirstLetter engine_parse LocalTZA
                           settings fullInfo = Ok m
       /\ index_aligned (option_map directorsPath settings)
            (keptPersons (directors people) MAX_ARRAY_ITEMS)
            (MovieShow.director m) (MovieShow.directorsLinks m)
            (MovieShow.directorsLinksWithPath m)
            (MovieShow.directorsIdsWithPath m)
       /\ index_aligned (option_map actorsPath settings)
            (keptPersons (actors people) MAX_ARRAY_ITEMS)
            (MovieShow.actors m) (MovieShow.actorsLinks m)
            (MovieShow.actorsLinksWithPath m)
            (MovieShow.actorsIdsWithPath m)
       /\ index_aligned (option_map writersPath settings)
            (keptPersons (writers people) MAX_ARRAY_ITEMS)
            (MovieShow.writers m) (MovieShow.writersLinks m)
            (MovieShow.writersLinksWithPath m)
            (MovieShow.writersIdsWithPath m)
       /\ index_aligned (option_map producersPath settings)
            (keptPersons (producers people) MAX_ARRAY_ITEMS)
            (MovieShow.producers m) (MovieShow.producersLinks m)
            (MovieShow.producersLinksWithPath m)
            (MovieShow.producersIdsWithPath m).
Proof.
  intros persons people.
  split; [apply extractPeople_buckets|].
  split; [apply extractPeople_count|].
  split; [apply has_role_exclusive|].
  run_formatArray. eexists. split; [reflexivity|].
  cbn [MovieShow.director MovieShow.directorsLinks
       MovieShow.directorsLinksWithPath MovieShow.directorsIdsWithPath
       MovieShow.actors MovieShow.actorsLinks
       MovieShow.actorsLinksWithPath MovieShow.actorsIdsWithPath
       MovieShow.writers MovieShow.writersLinks
       MovieShow.writersLinksWithPath MovieShow.writersIdsWithPath
       MovieShow.producers MovieShow.producersLinks
       MovieShow.producersLinksWithPath MovieShow.producersIdsWithPath].
  split; [|split; [|split]]; apply index_aligned_maps.
Qed.

(** The rating fields of the output record. *)
Lemma createMovieShowFrom_ratings (settings : option Settings)
    (fullInfo : FullInfo.t) :
  exists m,
    createMovieShowFrom capitalizeFirstLetter engine_parse LocalTZA
                        settings fullInfo = Ok m
    /\ MovieShow.ratingKp m = ratingKp_of (FullInfo.rating fullInfo)
    /\ MovieShow.ratingImdb m = ratingImdb_of (FullInfo.rating fullInfo)
    /\ MovieShow.ratingFilmCritics m
       = or_zero (opt_get (FullInfo.rating fullInfo) rating_filmCritics)
    /\ MovieShow.ratingRussianFilmCritics m
       = or_zero (opt_get (FullInfo.rating fullInfo) rating_russianFilmCritics).
Proof.
  run_formatArray. eexists. repeat split.
Qed.

(** C1, at the input on which the code departs from it: the rating
    object of [sample_record] carries [kp: 8.1] and no [imdb]; the output
    has [ratingKp] 8 and, for [ratingImdb], [NaN] instead of 0. *)
Theorem ratingImdb_NaN_without_imdb (settings : option Settings) :
  exists m,
    createMovieShowFrom capitalizeFirstLetter engine_parse LocalTZA
                        settings sample_record = Ok m
    /\ MovieShow.ratingKp m = Finite (inject_Z 8)
    /\ MovieShow.ratingImdb m = NaN.
Proof.
  destruct (createMovieShowFrom_ratings settings sample_record)
    as (m & E & K & I & _).
  exists m. split; [exact E|]. split; [rewrite K | rewrite I]; reflexivity.
Qed.

(** C10, as amended: when normalization of [distributorRelease] fails,
    the element handed to the formatter is the raw string, and the field
    holds what the SHORT_VALUE mode makes of it: the raw string without
    its colons and trimmed, or nothing when the raw string is blank; when
    normalization of a premiere date fails, the element is the empty
    string and the field is empty. *)
Theorem distributorRelease_falls_back_to_raw (settings : option Settings)
    (fullInfo : FullInfo.t) :
  let raw :=
    opt_get (FullInfo.distributors fullInfo) distributors_distributorRelease in
  let premiere f := opt_get (FullInfo.premiere fullInfo) f in
  exists m,
    createMovieShowFrom capitalizeFirstLetter engine_parse LocalTZA
                        settings fullInfo = Ok m
    /\ (formatDate engine_parse LocalTZA raw = [] ->
        distributorReleaseValue engine_parse LocalTZA raw = or_empty raw
        /\ formatArray [IStr (or_empty raw)] SHORT_VALUE None MAX_ARRAY_ITEMS
           = Ok (MovieShow.distributorRelease m)
        /\ MovieShow.distributorRelease m
           = (if nonblank (or_empty raw)
              then [cleanTextForMetadata (or_empty raw)] else []))
    /\ (formatDate engine_parse LocalTZA (premiere premiere_world) = [] ->
        MovieShow.premiereWorld m = [])
    /\ (formatDate engine_parse LocalTZA (premiere premiere_russia) = [] ->
        MovieShow.premiereRussia m = [])
    /\ (formatDate engine_parse LocalTZA (premiere premiere_digital) = [] ->
        MovieShow.premiereDigital m = [])
    /\ (formatDate engine_parse LocalTZA (premiere premiere_cinema) = [] ->
        MovieShow.premiereCinema m = []).
Proof.
  intros raw premiere.
  run_formatArray. eexists. split; [reflexivity|].
  cbn [MovieShow.distributorRelease MovieShow.premiereWorld
       MovieShow.premiereRussia MovieShow.premiereDigital
       MovieShow.premiereCinema].
  fold raw. fold (premiere premiere_world). fold (premiere premiere_russia).
  fold (premiere premiere_digital). fold (premiere premiere_cinema).
  split; [|repeat split; intros H; rewrite H; reflexivity].
  intros H.
  assert (E : distributorReleaseValue engine_parse LocalTZA raw = or_empty raw)
    by (unfold distributorReleaseValue; now rewrite H).
  rewrite E. repeat split.
Qed.

End Transformation.

Lemma people_grouped_and_aligned_witness :
  exists m,
    createMovieShowFrom (fun s => s) (fun _ => None) (fun _ => 0)
                        (Some sample_settings) sample_record = Ok m
    /\ nth_error (MovieShow.actors m) 0 = Some (lit "Doe")
    /\ nth_error (MovieShow.actorsLinks m) 0
       = Some (dquote :: lit "[[Doe]]" ++ [dquote])
    /\ nth_error (MovieShow.actorsLinksWithPath m) 0
       = Some (dquote :: lit "[[actors/Doe]]" ++ [dquote])
    /\ nth_error (MovieShow.actorsIdsWithPath m) 0
       = Some (dquote :: lit "[[actors/7|Doe]]" ++ [dquote]).
Proof.
  destruct (people_grouped_and_aligned (fun s => s) (fun _ => None)
              (fun _ => 0) (Some sample_settings) sample_record)
    as (_ & _ & _ & m & E & _ & A & _).
  exists m. split; [exact E|].
  destruct A as (_ & _ & _ & _ & A).
  exact (A 0%nat {| pd_name := lit "Doe"; pd_id := Some 7 |} eq_refl).
Defined.

(** C10, where the claim fails: the release "TBA: soon" is no date, and
    the field holds "TBA soon", not the raw string. *)
Lemma distributorRelease_sanitized_counterexample :
  formatDate (fun _ => None) (fun _ => 0) (Some (lit "TBA: soon")) = []
  /\ exists m,
       createMovieShowFrom (fun s => s) (fun _ => None) (fun _ => 0) None
                           sample_series = Ok m
       /\ MovieShow.distributorRelease m = [lit "TBA soon"]
       /\ MovieShow.distributorRelease m <> [lit "TBA: soon"].
Proof.
  split; [reflexivity|].
  eexists. split; [vm_compute; reflexivity|].
  split; [reflexivity | discriminate].
Qed.

Lemma distributorRelease_falls_back_to_raw_witness :
  formatDate (fun _ => None) (fun _ => 0) (Some (lit "soon")) = []
  /\ formatDate (fun _ => None) (fun _ => 0) (Some (lit "not-a-date")) = []
  /\ exists m,
       createMovieShowFrom (fun s => s) (fun _ => None) (fun _ => 0) None
                           sample_record = Ok m
       /\ MovieShow.distributorRelease m = [lit "soon"]
       /\ MovieShow.premiereRussia m = [].
Proof.
  assert (H1 : formatDate (fun _ => None) (fun _ => 0) (Some (lit "soon")) = [])
    by reflexivity.
  assert (H2 : formatDate (fun _ => None) (fun _ => 0)
                 (Some (lit "not-a-date")) = []) by reflexivity.
  split; [exact H1|]. split; [exact H2|].
  destruct (distributorRelease_falls_back_to_raw (fun s => s) (fun _ => None)
              (fun _ => 0) None sample_record)
    as (m & E & D & _ & R & _).
  exists m. split; [exact E|]. split.
  - destruct (D H1) as (_ & _ & F). exact F.
  - exact (R H2).
Defined.

(** ** The cap *)

Lemma formatArray_length (items : list Item) (formatType : FormatType)
    (folderPath : option jsstring) (maxItems : Z) (out : list jsstring) :
  0 <= maxItems ->
  formatArray items formatType folderPath maxItems = Ok out ->
  Z.of_nat (length out) <= maxItems.
Proof.
  intros Hm. unfold formatArray.
  destruct formatType;
    match goal with |- context [bind ?m _] => destruct m end;
    simpl; intros H; try discriminate; injection H as <-;
    rewrite length_map; now apply slice0_length.
Qed.

Lemma processFacts_length (facts : list KinopoiskFact) :
  (length (processFacts facts) <= 5)%nat.
Proof.
  unfold processFacts. rewrite length_map.
  pose proof (slice0_length
                (filter (fun fact => negb (fact_spoiler fact)
                                     && truthy_str (fact_value fact)
                                     && nonblank (fact_value fact)) facts)
                MAX_FACTS_COUNT ltac:(discriminate)) as H.
  unfold MAX_FACTS_COUNT in *. lia.
Qed.

(** C7: the output of [formatArray] is never longer than the cap, 50 by
    default, whatever the input and the mode.  The fact list has at most 5
    elements, also in the output record: [processFacts] takes the first 5
    facts that are neither spoilers nor blank, before [formatArray] sees
    them, and [formatArray] itself, called with the default cap, lets 6
    strings through. *)
Theorem formatArray_capped :
  (forall items formatType folderPath maxItems out,
      0 <= maxItems ->
      formatArray items formatType folderPath maxItems = Ok out ->
      Z.of_nat (length out) <= maxItems)
  /\ (forall items formatType folderPath out,
        formatArray items formatType folderPath MAX_ARRAY_ITEMS = Ok out ->
        (length out <= 50)%nat)
  /\ (forall facts,
        processFacts facts
        = map (fun fact => stripHtmlTags (fact_value fact))
              (firstn 5 (filter (fun fact => negb (fact_spoiler fact)
                                             && truthy_str (fact_value fact)
                                             && nonblank (fact_value fact))
                                facts))
        /\ (length (processFacts facts) <= 5)%nat
        /\ exists out,
             formatArray (strs (processFacts facts)) LONG_TEXT None
                         MAX_ARRAY_ITEMS = Ok out
             /\ (length out <= 5)%nat)
  /\ (forall capitalizeFirstLetter engine_parse LocalTZA settings fullInfo,
        exists m,
          createMovieShowFrom capitalizeFirstLetter engine_parse LocalTZA
                              settings fullInfo = Ok m
          /\ (length (MovieShow.facts m) <= 5)%nat)
  /\ (exists out,
        formatArray (strs (repeat (lit "fact") 6)) LONG_TEXT None
                    MAX_ARRAY_ITEMS = Ok out
        /\ length out = 6%nat).
Proof.
  split; [exact formatArray_length|]. split; [|split; [|split]].
  - intros items formatType folderPath out H.
    apply formatArray_length in H; [|discriminate].
    unfold MAX_ARRAY_ITEMS in *. lia.
  - intros facts. split; [|split].
    + unfold processFacts. now rewrite slice0_firstn by discriminate.
    + apply processFacts_length.
    + eexists. split; [apply formatArray_strs|].
      rewrite length_map, slice0_firstn, length_firstn by discriminate.
      pose proof (filter_length_le nonblank (processFacts facts)).
      pose proof (processFacts_length facts). lia.
  - intros capitalizeFirstLetter engine_parse LocalTZA settings fullInfo.
    run_formatArray. eexists. split; [reflexivity|]. cbn [MovieShow.facts].
    rewrite length_map, slice0_firstn, length_firstn by discriminate.
    match goal with
    | |- context [filter nonblank (processFacts ?f)] =>
        pose proof (filter_length_le nonblank (processFacts f));
        pose proof (processFacts_length f)
    end. lia.
  - eexists. split; reflexivity.
Qed.

Lemma formatArray_capped_witness :
  0 <= 2
  /\ formatArray (strs [lit "a"; lit "b"; lit "c"]) URL None 2
     = Ok [lit "a"; lit "b"]
  /\ Z.of_nat (length [lit "a"; lit "b"]) <= 2.
Proof.
  assert (E : formatArray (strs [lit "a"; lit "b"; lit "c"]) URL None 2
              = Ok [lit "a"; lit "b"]) by reflexivity.
  split; [lia|]. split; [exact E|].
  exact (proj1 formatArray_capped _ URL None 2 _ ltac:(lia) E).
Defined.

(** ** Ratings *)

(** [toFixed(0)] is within a half of its argument. *)
Lemma toFixed0_nearest (x : Q) :
  (inject_Z (toFixed0 x) - (1 # 2) <= x <= inject_Z (toFixed0 x) + (1 # 2))%Q.
Proof.
  unfold toFixed0. destruct (Qnum x <? 0).
  - pose proof (Qfloor_le (- x + (1 # 2))) as H1.
    pose proof (Qlt_floor (- x + (1 # 2))) as H2.
    rewrite inject_Z_plus in H2. rewrite inject_Z_opp.
    change (inject_Z 1) with 1%Q in H2. split; lra.
  - pose proof (Qfloor_le (x + (1 # 2))) as H1.
    pose proof (Qlt_floor (x + (1 # 2))) as H2.
    rewrite inject_Z_plus in H2.
    change (inject_Z 1) with 1%Q in H2. split; lra.
Qed.

(** [ratingKp] is an integer: 0 when the score is absent or 0, the
    integer nearest to the score otherwise. *)
Lemma ratingKp_of_integer (rating : option KinopoiskRatings) :
  exists n : Z,
    ratingKp_of rating = Finite (inject_Z n)
    /\ (opt_get rating rating_kp = None -> n = 0)
    /\ (forall kp,
          opt_get rating rating_kp = Some kp ->
          truthy_num kp = true ->
          (inject_Z n - (1 # 2) <= kp <= inject_Z n + (1 # 2))%Q).
Proof.
  unfold ratingKp_of. destruct (opt_get rating rating_kp) as [kp|].
  - destruct (truthy_num kp) eqn:T.
    + exists (toFixed0 kp). split; [reflexivity|]. split; [discriminate|].
      intros kp' [= <-] _. apply toFixed0_nearest.
    + exists 0. split; [reflexivity|]. split; [discriminate|].
      intros kp' [= <-]. congruence.
  - exists 0. split; [reflexivity|]. split; [reflexivity | discriminate].
Qed.


(** [ratingImdb] is a number whenever the rating object is absent or
    carries [imdb]. *)
Lemma ratingImdb_of_integer (rating : option KinopoiskRatings) :
  (rating = None -> ratingImdb_of rating = Finite 0)
  /\ (forall r imdb,
        rating = Some r -> rating_imdb r = Some imdb ->
        ratingImdb_of rating = Finite (inject_Z (toFixed0 imdb)))
  /\ (forall r,
        rating = Some r -> rating_imdb r = None -> ratingImdb_of rating = NaN).
Proof.
  unfold ratingImdb_of. repeat split.
  - now intros ->.
  - intros r imdb -> H. now rewrite H.
  - intros r -> H. now rewrite H.
Qed.

(** A record without a rating object has every rating field at 0. *)
Lemma createMovieShowFrom_no_rating
    (capitalizeFirstLetter : jsstring -> jsstring)
    (engine_parse : jsstring -> option Z) (LocalTZA : Z -> Z)
    (settings : option Settings) (fullInfo : FullInfo.t) :
  FullInfo.rating fullInfo = None ->
  exists m,
    createMovieShowFrom capitalizeFirstLetter engine_parse LocalTZA
                        settings fullInfo = Ok m
    /\ MovieShow.ratingKp m = Finite 0
    /\ MovieShow.ratingImdb m = Finite 0
    /\ MovieShow.ratingFilmCritics m = Finite 0
    /\ MovieShow.ratingRussianFilmCritics m = Finite 0.
Proof.
  intros H.
  destruct (createMovieShowFrom_ratings capitalizeFirstLetter engine_parse
              LocalTZA settings fullInfo) as (m & E & K & I & F & R).
  exists m. rewrite K, I, F, R, H. repeat split; assumption.
Qed.

(** ** Search *)

Section Search.

Variable t : jsstring -> jsstring.
Variable tWithParams : jsstring -> list (jsstring * jsstring) -> jsstring.
Variable Json : Type.
Variable Failure : Type.
Variable SuggestItem : Type.
Variable nullish : Json -> bool.
Variable docs_of : Json -> option (list SuggestItem).
Variable requestUrl : list Request -> Request -> Json + Failure.
Variable handleApiError : Failure -> Exn.
Variable url_href : jsstring -> list (jsstring * jsstring) -> jsstring.

(** What a search does, case by case: a search whose query or token the
    validator rejects fails with an InvalidInput error and issues no
    request.  Otherwise it issues one request; when that succeeds with a
    body that holds no documents, the search fails with an EmptyResult
    error whose message includes the query as given; when it succeeds with
    documents, the search returns them as they are. *)
Lemma searchByQuery_outcomes (query token : jsstring) (log : list Request) :
  includes_query tWithParams ->
  let run :=
    searchByQuery t tWithParams nullish docs_of requestUrl handleApiError
                  url_href query token log in
  (isValidSearchQuery query = false \/ isValidToken token = false ->
   exists e, run = (Throw e, log) /\ InvalidInput t e)
  /\ (isValidSearchQuery query = true ->
      isValidToken token = true ->
      forall json,
        requestUrl log (search_request url_href query token) = inl json ->
        nullish json = false ->
        (docs_of json = None \/ docs_of json = Some [] ->
         exists message,
           run = (Throw (Error message), log ++ [search_request url_href query token])
           /\ EmptyResult t tWithParams (Error message)
           /\ is_infix query message)
        /\ (forall d ds,
              docs_of json = Some (d :: ds) ->
              run = (Ok (d :: ds), log ++ [search_request url_href query token]))).
Proof.
  intros Hq run. split.
  - intros H. unfold run, searchByQuery, bindP, apiGet, throw.
    destruct (isValidSearchQuery query) eqn:Q; cbn [negb].
    + destruct H as [H|H]; [discriminate|]. rewrite H. cbn [negb].
      eexists. split; [reflexivity|]. right. left. reflexivity.
    + eexists. split; [reflexivity|]. left. reflexivity.
  - intros Q T json R N.
    assert (E : apiGet t requestUrl handleApiError url_href
                       (lit "/movie/search") token
                       [(lit "query", PString (trim query));
                        (lit "limit", PNumber MAX_SEARCH_RESULTS)] [] log
                = (Ok json, log ++ [search_request url_href query token])).
    { unfold apiGet. rewrite T. cbn [negb].
      change ({| req_url := _; req_method := _; req_headers := _ |})
        with (search_request url_href query token).
      now rewrite R. }
    unfold run, searchByQuery, bindP. rewrite Q. cbn [negb]. rewrite E, N.
    split.
    + intros D. exists (nothingFoundMessage t tWithParams query).
      split; [|split].
      * destruct D as [-> | ->]; reflexivity.
      * left. now exists query.
      * destruct (Hq query) as (before & after & M).
        exists before, (after ++ lit " " ++ t (lit "provider.tryChangeQuery")).
        unfold nothingFoundMessage. rewrite M, <- !app_assoc. reflexivity.
    + intros d ds ->. reflexivity.
Qed.

(** A body that is [null] or [undefined] makes the search throw the
    engine's [TypeError], after the one request. *)
Lemma searchByQuery_nullish_body (query token : jsstring) (log : list Request)
    (json : Json) :
  isValidSearchQuery query = true ->
  isValidToken token = true ->
  requestUrl log (search_request url_href query token) = inl json ->
  nullish json = true ->
  searchByQuery t tWithParams nullish docs_of requestUrl handleApiError
                url_href query token log
  = (Throw TypeError, log ++ [search_request url_href query token]).
Proof.
  intros Q T R N. unfold searchByQuery, bindP, apiGet.
  rewrite Q, T. cbn [negb].
  change ({| req_url := _; req_method := _; req_headers := _ |})
    with (search_request url_href query token).
  now rewrite R, N.
Qed.

End Search.

(** The lemma at work: translations that name their key, a message that
    ends in the query, and a server that answers every request with two
    documents. *)
Lemma searchByQuery_outcomes_witness :
  includes_query (fun key params => key ++ concat (map snd params))
  /\ isValidSearchQuery (lit "matrix") = true
  /\ isValidToken (lit "TOKEN") = true
  /\ searchByQuery (fun key => key)
                   (fun key params => key ++ concat (map snd params))
                   (fun _ => false)
                   (fun json : list nat => Some json)
                   (fun _ _ => @inl (list nat) unit [1%nat; 2%nat])
                   (fun _ => Error [])
                   (fun base _ => base)
                   (lit "matrix") (lit "TOKEN") []
     = (Ok [1%nat; 2%nat],
        [search_request (fun base _ => base) (lit "matrix") (lit "TOKEN")]).
Proof.
  assert (H : includes_query (fun key params => key ++ concat (map snd params))).
  { intros query. exists (lit "provider.nothingFound"), [].
    simpl. now rewrite !app_nil_r. }
  split; [exact H|]. split; [reflexivity|]. split; [reflexivity|].
  exact (proj2 (proj2 (searchByQuery_outcomes
                         (fun key => key)
                         (fun key params => key ++ concat (map snd params))
                         (list nat) unit nat
                         (fun _ => false)
                         (fun json => Some json)
                         (fun _ _ => inl [1%nat; 2%nat])
                         (fun _ => Error [])
                         (fun base _ => base)
                         (lit "matrix") (lit "TOKEN") [] H)
                      eq_refl eq_refl [1%nat; 2%nat] eq_refl eq_refl)
               1%nat [2%nat] eq_refl).
Defined.

(** C9, at the input on which the code departs from it: the query
    "matrix", the token "TOKEN" and a server that answers the request
    with the body [null] (here the body [None]).  The request has
    succeeded and brought no document, yet the search fails with the
    engine's [TypeError], which is neither an EmptyResult nor an
    InvalidInput error and carries no message of the provider. *)
Theorem searchByQuery_null_body
    (t : jsstring -> jsstring)
    (tWithParams : jsstring -> list (jsstring * jsstring) -> jsstring)
    (Failure SuggestItem : Type) (handleApiError : Failure -> Exn)
    (url_href : jsstring -> list (jsstring * jsstring) -> jsstring)
    (log : list Request) :
  searchByQuery t tWithParams
                (fun body : option (list SuggestItem) =>
                   match body with None => true | Some _ => false end)
                (fun body => body)
                (fun _ _ => inl None)
                handleApiError url_href (lit "matrix") (lit "TOKEN") log
  = (Throw TypeError,
     log ++ [search_request url_href (lit "matrix") (lit "TOKEN")])
  /\ ~ EmptyResult t tWithParams TypeError
  /\ ~ InvalidInput t TypeError.
Proof.
  split; [|split].
  - reflexivity.
  - intros [[query H]|H]; discriminate H.
  - intros [H|[H|[H|H]]]; discriminate H.
Qed.

(** * Further properties *)

(** ** Sanitizing *)

Lemma trimStart_fixed (s : jsstring) :
  (forall c r, s = c :: r -> is_ws c = false) -> trimStart s = s.
Proof.
  destruct s as [|c r]; [reflexivity|]. intros H. simpl.
  now rewrite (H c r eq_refl).
Qed.

Lemma trimEnd_fixed (s : jsstring) :
  (forall r c, s = r ++ [c] -> is_ws c = false) -> trimEnd s = s.
Proof.
  intros H. unfold trimEnd. rewrite trimStart_fixed.
  - apply rev_involutive.
  - intros c r E. apply (H (rev r) c).
    rewrite <- (rev_involutive s), E. reflexivity.
Qed.

Lemma trim_fixed (s : jsstring) : trimmed s -> trim s = s.
Proof.
  intros [H1 H2]. unfold trim.
  rewrite (trimStart_fixed s H1). now apply trimEnd_fixed.
Qed.

Lemma trim_trimmed (s : jsstring) : trimmed (trim s).
Proof.
  split; [intros c r; apply trim_head | intros r c; apply trim_last].
Qed.

Lemma trim_idempotent (s : jsstring) : trim (trim s) = trim s.
Proof. apply trim_fixed, trim_trimmed. Qed.

Lemma trim_subset (s : jsstring) (c : code_unit) : In c (trim s) -> In c s.
Proof.
  intros H. destruct (trim_infix s) as (pre & post & E & _).
  rewrite E. apply in_or_app. right. apply in_or_app. now left.
Qed.

Lemma remove_colons_without (s : jsstring) : ~ In colon (remove_colons s).
Proof.
  unfold remove_colons. intros H. apply filter_In in H. destruct H as [_ H].
  now rewrite Z.eqb_refl in H.
Qed.

Lemma remove_colons_fixed (s : jsstring) :
  ~ In colon s -> remove_colons s = s.
Proof.
  unfold remove_colons. induction s as [|c s IH]; intros H; [reflexivity|].
  simpl. destruct (Z.eqb_spec c colon) as [->|_].
  - exfalso. apply H. now left.
  - simpl. rewrite IH; [reflexivity|]. intros G. apply H. now right.
Qed.

Lemma visible_remove_colons (s : jsstring) :
  visible (remove_colons s) = remove_colons (visible s).
Proof.
  unfold visible, remove_colons.
  induction s as [|c s IH]; [reflexivity|]. simpl.
  destruct (c =? colon) eqn:C, (is_ws c) eqn:W; simpl;
    rewrite ?C, ?W; simpl; now rewrite IH.
Qed.

Lemma cleanTextForMetadata_eq (text : jsstring) :
  cleanTextForMetadata text = trim (remove_colons text).
Proof. destruct text; reflexivity. Qed.



(** X2: sanitizing twice is sanitizing once. *)
Theorem cleanTextForMetadata_idempotent (text : jsstring) :
  cleanTextForMetadata (cleanTextForMetadata text) = cleanTextForMetadata text.
Proof.
  rewrite !cleanTextForMetadata_eq.
  rewrite (remove_colons_fixed (trim (remove_colons text))).
  - apply trim_idempotent.
  - intros H. apply trim_subset in H. now apply remove_colons_without in H.
Qed.

Lemma trimStart_all_ws (s : jsstring) : visible s = [] -> trimStart s = [].
Proof.
  unfold visible. induction s as [|c s IH]; [reflexivity|]. simpl.
  destruct (is_ws c); simpl; [exact IH | discriminate].
Qed.

Lemma trim_all_ws (s : jsstring) : visible s = [] -> trim s = [].
Proof.
  intros H. unfold trim. now rewrite (trimStart_all_ws s H).
Qed.

(** X3: blank entries are dropped before sanitizing, not after.  A string
    that shows nothing but colons is kept and sanitized to the empty
    string: the SHORT_VALUE mode returns an empty element for it and the
    LINK mode the link to nothing. *)
Theorem formatArray_colons_only (s : jsstring) :
  nonblank s = true ->
  (forall c, In c s -> c = colon \/ is_ws c = true) ->
  formatArray [IStr s] SHORT_VALUE None MAX_ARRAY_ITEMS = Ok [[]]
  /\ formatArray [IStr s] LINK None MAX_ARRAY_ITEMS
     = Ok [dquote :: lit "[[]]" ++ [dquote]].
Proof.
  intros Hn Hc.
  assert (E : cleanTextForMetadata s = []).
  { rewrite cleanTextForMetadata_eq. apply trim_all_ws.
    rewrite visible_remove_colons. unfold visible, remove_colons.
    clear Hn. induction s as [|c s IH]; [reflexivity|]. simpl.
    destruct (is_ws c) eqn:W; simpl.
    - apply IH. intros x Hx. apply Hc. now right.
    - destruct (Hc c (or_introl eq_refl)) as [->|C]; [|congruence].
      simpl. apply IH. intros x Hx. apply Hc. now right. }
  rewrite !formatArray_one_string, Hn. cbn [renderString]. now rewrite E.
Qed.

Lemma formatArray_colons_only_witness :
  nonblank (lit " :: ") = true
  /\ formatArray [IStr (lit " :: ")] SHORT_VALUE None MAX_ARRAY_ITEMS = Ok [[]].
Proof.
  split; [reflexivity|].
  refine (proj1 (formatArray_colons_only (lit " :: ") eq_refl _)).
  intros c H. simpl in H.
  destruct H as [<-|[<-|[<-|[<-|[]]]]]; (now left) || (now right).
Defined.

(** ** The other modes *)

Lemma slice0_subset {A} (l : list A) (e : Z) (x : A) :
  In x (slice0 l e) -> In x l.
Proof.
  unfold slice0. intros H.
  rewrite <- (firstn_skipn (Z.to_nat
    (if e <? 0 then Z.max (Z.of_nat (length l) + e) 0
     else Z.min e (Z.of_nat (length l)))) l).
  apply in_or_app. now left.
Qed.

Lemma filterStrings_nonblank (l : list Item) (s : jsstring) :
  In s (filterStrings l) -> nonblank s = true.
Proof.
  induction l as [|it l IH]; simpl; [tauto|].
  destruct it as [x| | | |]; simpl; try exact IH.
  destruct (nonblank x) eqn:N; [|exact IH].
  intros [<-|H]; [exact N | now apply IH].
Qed.

Lemma filterStrings_In (l : list Item) (s : jsstring) :
  In s (filterStrings l) -> In (IStr s) l.
Proof.
  induction l as [|it l IH]; simpl; [tauto|].
  destruct it as [x| | | |]; simpl; try (intros H; right; now apply IH).
  destruct (nonblank x); [|intros H; right; now apply IH].
  intros [<-|H]; [now left | right; now apply IH].
Qed.

Lemma mapM_In {A B} (f : A -> Result B) (l : list A) (l' : list B) (y : B) :
  mapM f l = Ok l' -> In y l' -> exists x, In x l /\ f x = Ok y.
Proof.
  revert l'. induction l as [|a l IH]; intros l'; simpl.
  - intros [= <-] [].
  - destruct (f a) as [b|e] eqn:F; simpl; [|discriminate].
    destruct (mapM f l) as [bs|e]; simpl; [|discriminate].
    intros [= <-] [<-|H].
    + exists a. split; [now left | exact F].
    + destruct (IH bs eq_refl H) as (x & Hx & E).
      exists x. split; [now right | exact E].
Qed.

Lemma toStringItem_string (it : Item) (s : jsstring) :
  toStringItem it = Ok (IStr s) -> item_string it s.
Proof.
  unfold toStringItem, item_string.
  destruct it as [x|n i|n| |]; simpl; try discriminate.
  - intros [= ->]. now left.
  - destruct n as [x|]; [|discriminate].
    destruct (truthy_str x); [|discriminate].
    intros [= ->]. right. now exists i.
Qed.

(** X4: in the URL mode every element returned is a string of the input
    trimmed, and nothing else of it is touched: for each element there is
    an element of the input, a non-blank string or an object with a
    non-blank name, whose text trimmed it is.  So it is not empty and has
    no whitespace at either end. *)
Theorem formatArray_url_elements (items : list Item)
    (folderPath : option jsstring) (maxItems : Z) (out : list jsstring) :
  formatArray items URL folderPath maxItems = Ok out ->
  Forall (fun u => u <> [] /\ trimmed u
                   /\ exists it s,
                        In it items /\ item_string it s
                        /\ nonblank s = true /\ u = trim s) out.
Proof.
  unfold formatArray.
  destruct (mapM toStringItem items) as [l|e] eqn:M; simpl; [|discriminate].
  intros [= <-]. apply Forall_map, Forall_forall. intros s H.
  apply slice0_subset in H.
  pose proof (filterStrings_nonblank _ _ H) as N.
  apply filterStrings_In in H.
  destruct (mapM_In _ _ _ _ M H) as (it & Hit & E).
  cbn [renderString]. split; [|split].
  - unfold nonblank in N. intros K. rewrite K in N. discriminate N.
  - apply trim_trimmed.
  - exists it, s. repeat split; trivial. now apply toStringItem_string.
Qed.

Lemma formatArray_url_elements_witness :
  let items :=
    [IStr (lit " http://x "); IStr (lit " "); IObj (Some (lit "y ")) None] in
  formatArray items URL None MAX_ARRAY_ITEMS = Ok [lit "http://x"; lit "y"]
  /\ Forall (fun u => u <> [] /\ trimmed u
                      /\ exists it s,
                           In it items /\ item_string it s
                           /\ nonblank s = true /\ u = trim s)
            [lit "http://x"; lit "y"].
Proof.
  intros items.
  assert (E : formatArray items URL None MAX_ARRAY_ITEMS
              = Ok [lit "http://x"; lit "y"]) by reflexivity.
  split; [exact E|].
  exact (formatArray_url_elements _ None MAX_ARRAY_ITEMS _ E).
Defined.

Lemma renderString_without_path (folderPath : option jsstring) (s : jsstring) :
  path_given folderPath = false ->
  renderString LINK_WITH_PATH folderPath s = renderString LINK None s.
Proof. intros H. simpl. now rewrite H. Qed.

(** X6: without a usable path the LINK_WITH_PATH mode is the LINK mode:
    for a path that is absent, empty or blank both return the same, on
    every input; a formatter without settings fills the four
    [...LinksWithPath] fields like the four [...Links] fields. *)
Theorem link_with_path_degrades :
  (forall items folderPath maxItems,
      path_given folderPath = false ->
      formatArray items LINK_WITH_PATH folderPath maxItems
      = formatArray items LINK None maxItems)
  /\ (forall capitalizeFirstLetter engine_parse LocalTZA fullInfo,
        exists m,
          createMovieShowFrom capitalizeFirstLetter engine_parse LocalTZA
                              None fullInfo = Ok m
          /\ MovieShow.directorsLinksWithPath m = MovieShow.directorsLinks m
          /\ MovieShow.actorsLinksWithPath m = MovieShow.actorsLinks m
          /\ MovieShow.writersLinksWithPath m = MovieShow.writersLinks m
          /\ MovieShow.producersLinksWithPath m = MovieShow.producersLinks m).
Proof.
  split.
  - intros items folderPath maxItems H. unfold formatArray.
    destruct (mapM toStringItem items) as [l|e]; simpl; [|reflexivity].
    f_equal. apply map_ext. intros s. now apply renderString_without_path.
  - intros capitalizeFirstLetter engine_parse LocalTZA fullInfo.
    run_formatArray. eexists. split; [reflexivity|].
    repeat split.
Qed.

Lemma link_with_path_degrades_witness :
  path_given (Some (lit "  ")) = false
  /\ formatArray (strs [lit "Doe"]) LINK_WITH_PATH (Some (lit "  "))
                 MAX_ARRAY_ITEMS
     = Ok [dquote :: lit "[[Doe]]" ++ [dquote]].
Proof.
  split; [reflexivity|].
  rewrite (proj1 link_with_path_degrades (strs [lit "Doe"]) (Some (lit "  "))
                 MAX_ARRAY_ITEMS eq_refl).
  reflexivity.
Defined.

(** X5: the plain and the link form of genres, countries, networks,
    production companies and related titles go together: the link array
    has at each position the link to the name at that position of the
    plain array. *)
Theorem links_follow_names
    (capitalizeFirstLetter : jsstring -> jsstring)
    (engine_parse : jsstring -> option Z) (LocalTZA : Z -> Z)
    (settings : option Settings) (fullInfo : FullInfo.t) :
  exists m,
    createMovieShowFrom capitalizeFirstLetter engine_parse LocalTZA
                        settings fullInfo = Ok m
    /\ MovieShow.genresLinks m = map quoted_link (MovieShow.genres m)
    /\ MovieShow.countriesLinks m = map quoted_link (MovieShow.countries m)
    /\ MovieShow.networksLinks m = map quoted_link (MovieShow.networks m)
    /\ MovieShow.productionCompaniesLinks m
       = map quoted_link (MovieShow.productionCompanies m)
    /\ MovieShow.sequelsAndPrequelsLinks m
       = map quoted_link (MovieShow.sequelsAndPrequels m)
    /\ MovieShow.directorsLinks m = map quoted_link (MovieShow.director m)
    /\ MovieShow.actorsLinks m = map quoted_link (MovieShow.actors m)
    /\ MovieShow.writersLinks m = map quoted_link (MovieShow.writers m)
    /\ MovieShow.producersLinks m = map quoted_link (MovieShow.producers m).
Proof.
  run_formatArray. eexists. split; [reflexivity|].
  cbn [MovieShow.genresLinks MovieShow.genres MovieShow.countriesLinks
       MovieShow.countries MovieShow.networksLinks MovieShow.networks
       MovieShow.productionCompaniesLinks MovieShow.productionCompanies
       MovieShow.sequelsAndPrequelsLinks MovieShow.sequelsAndPrequels
       MovieShow.directorsLinks MovieShow.director MovieShow.actorsLinks
       MovieShow.actors MovieShow.writersLinks MovieShow.writers
       MovieShow.producersLinks MovieShow.producers].
  rewrite !map_map. repeat split.
Qed.

(** ** Images and content types *)

Lemma createImageLink_cases (imagePath : jsstring) :
  (nonblank imagePath = false /\ createImageLink imagePath = [])
  \/ (nonblank imagePath = true
      /\ starts_with (lit "http") imagePath = false
      /\ createImageLink imagePath = [lit "![[" ++ imagePath ++ lit "]]"])
  \/ (nonblank imagePath = true
      /\ starts_with (lit "http") imagePath = true
      /\ createImageLink imagePath = [lit "![](" ++ imagePath ++ lit ")"]).
Proof.
  unfold createImageLink. destruct (nonblank imagePath) eqn:N.
  - rewrite (nonblank_truthy _ N). cbn [negb orb].
    destruct (starts_with (lit "http") imagePath); cbn [negb]; auto.
  - left. split; [reflexivity|]. now rewrite orb_true_r.
Qed.

(** X7: [createImageLink] returns nothing for a blank path, the embed by
    path for a path that does not begin with "http" and the embed by URL
    otherwise, the path as it is given.  In the output record the URL
    field and the ready link of each image are empty together. *)
Theorem image_fields_go_together :
  (forall imagePath,
      (nonblank imagePath = false -> createImageLink imagePath = [])
      /\ (nonblank imagePath = true ->
          starts_with (lit "http") imagePath = false ->
          createImageLink imagePath = [lit "![[" ++ imagePath ++ lit "]]"])
      /\ (nonblank imagePath = true ->
          starts_with (lit "http") imagePath = true ->
          createImageLink imagePath = [lit "![](" ++ imagePath ++ lit ")"]))
  /\ (forall capitalizeFirstLetter engine_parse LocalTZA settings fullInfo,
        exists m,
          createMovieShowFrom capitalizeFirstLetter engine_parse LocalTZA
                              settings fullInfo = Ok m
          /\ (MovieShow.posterUrl m = [] <-> MovieShow.posterMarkdown m = [])
          /\ (MovieShow.coverUrl m = [] <-> MovieShow.coverMarkdown m = [])
          /\ (MovieShow.logoUrl m = [] <-> MovieShow.logoMarkdown m = [])).
Proof.
  split.
  - intros imagePath.
    destruct (createImageLink_cases imagePath)
      as [(N & E)|[(N & S & E)|(N & S & E)]];
      rewrite N, E; repeat split; congruence.
  - intros capitalizeFirstLetter engine_parse LocalTZA settings fullInfo.
    run_formatArray. eexists. split; [reflexivity|].
    cbn [MovieShow.posterUrl MovieShow.posterMarkdown MovieShow.coverUrl
         MovieShow.coverMarkdown MovieShow.logoUrl MovieShow.logoMarkdown].
    assert (A : forall u,
               (if nonblank u then [renderString URL None u] else []) = []
               <-> createImageLink u = []).
    { intros u.
      destruct (createImageLink_cases u) as [(N & E)|[(N & S & E)|(N & S & E)]];
        rewrite N, E; split; congruence. }
    repeat split; apply A.
Qed.

Lemma image_fields_go_together_witness :
  nonblank (lit "img/p.png") = true
  /\ starts_with (lit "http") (lit "img/p.png") = false
  /\ createImageLink (lit "img/p.png") = [lit "![[img/p.png]]"].
Proof.
  split; [reflexivity|]. split; [reflexivity|].
  exact (proj1 (proj2 (proj1 image_fields_go_together (lit "img/p.png")))
               eq_refl eq_refl).
Defined.

(** X8: [translateType] leaves alone every string that is neither one of
    the five content-type codes nor the name of a member of
    [Object.prototype], and a string that it returns it leaves alone:
    translating twice is translating once.  For the name of an inherited
    member, such as "constructor" or "__proto__", it returns that member,
    which is no string, and the [type] field of the output record comes
    out empty. *)
Theorem translateType_idempotent :
  (forall type,
      ~ In type (map fst TYPE_TRANSLATIONS) ->
      ~ In type (map fst OBJECT_PROTOTYPE) ->
      translateType type = IStr type)
  /\ (forall type v,
        translateType type = IStr v -> translateType v = IStr v)
  /\ (forall type,
        In type (map fst OBJECT_PROTOTYPE) ->
        (forall v, translateType type <> IStr v)
        /\ formatArray [translateType type] SHORT_VALUE None MAX_ARRAY_ITEMS
           = Ok []).
Proof.
  assert (C : forall type,
             In type (map fst TYPE_TRANSLATIONS)
             \/ In type (map fst OBJECT_PROTOTYPE)
             \/ translateType type = IStr type).
  { intros type.
    unfold translateType, TYPE_TRANSLATIONS, OBJECT_PROTOTYPE, lookup.
    repeat match goal with
           | |- context [jsstring_eqb ?k type] =>
               destruct (jsstring_eqb k type) eqn:E;
                 [apply jsstring_eqb_eq in E; subst type;
                  solve [left; cbn [map fst In]; auto 20
                        |right; left; cbn [map fst In]; auto 20]
                 |clear E]
           end.
    right. right. reflexivity. }
  split; [|split].
  - intros type H1 H2. destruct (C type) as [H|[H|H]]; tauto.
  - intros type v H. destruct (C type) as [K|[K|K]].
    + cbn [map fst TYPE_TRANSLATIONS In] in K.
      repeat (destruct K as [<-|K]; [injection H as <-; reflexivity|]).
      destruct K.
    + cbn [map fst OBJECT_PROTOTYPE In] in K.
      repeat (destruct K as [<-|K]; [discriminate H|]).
      destruct K.
    + rewrite K in H. injection H as <-. exact K.
  - intros type K. cbn [map fst OBJECT_PROTOTYPE In] in K.
    repeat (destruct K as [<-|K];
            [split; [intros v; discriminate | reflexivity]|]).
    destruct K.
Qed.

Lemma translateType_idempotent_witness :
  ~ In (lit "film") (map fst TYPE_TRANSLATIONS)
  /\ ~ In (lit "film") (map fst OBJECT_PROTOTYPE)
  /\ translateType (lit "film") = IStr (lit "film")
  /\ In (lit "constructor") (map fst OBJECT_PROTOTYPE)
  /\ translateType (lit "constructor") = IFunction (lit "Object")
  /\ formatArray [translateType (lit "constructor")] SHORT_VALUE None
                 MAX_ARRAY_ITEMS
     = Ok [].
Proof.
  assert (H1 : ~ In (lit "film") (map fst TYPE_TRANSLATIONS)).
  { cbn [map fst TYPE_TRANSLATIONS In].
    intros H. repeat (destruct H as [H|H]; [discriminate H|]). exact H. }
  assert (H2 : ~ In (lit "film") (map fst OBJECT_PROTOTYPE)).
  { cbn [map fst OBJECT_PROTOTYPE In].
    intros H. repeat (destruct H as [H|H]; [discriminate H|]). exact H. }
  assert (H3 : In (lit "constructor") (map fst OBJECT_PROTOTYPE))
    by (left; reflexivity).
  split; [exact H1|]. split; [exact H2|].
  split; [exact (proj1 translateType_idempotent (lit "film") H1 H2)|].
  split; [exact H3|]. split; [reflexivity|].
  exact (proj2 (proj2 (proj2 translateType_idempotent) (lit "constructor") H3)).
Defined.

(** ** Facts *)

Lemma remove_tags_from_fixed (s : jsstring) :
  ~ In lt_sign s -> remove_tags_from false s = s.
Proof.
  induction s as [|c s IH]; intros H; [reflexivity|]. simpl.
  destruct (Z.eqb_spec c lt_sign) as [->|_].
  - exfalso. apply H. now left.
  - simpl. rewrite IH; [reflexivity|]. intros G. apply H. now right.
Qed.

Lemma remove_tags_from_subset (in_tag : bool) (s : jsstring) (c : code_unit) :
  In c (remove_tags_from in_tag s) -> In c s.
Proof.
  revert in_tag. induction s as [|x s IH]; intros in_tag; simpl; [tauto|].
  destruct in_tag.
  - destruct (x =? gt_sign); intros H; right; eapply IH, H.
  - destruct ((x =? lt_sign) && existsb (fun y => y =? gt_sign) s).
    + intros H. right. eapply IH, H.
    + intros [<-|H]; [now left | right; eapply IH, H].
Qed.

(** What [remove_tags_from] returns has no [<] with a [>] after it. *)
Lemma remove_tags_from_tag_free (in_tag : bool) (s : jsstring) :
  tag_free (remove_tags_from in_tag s).
Proof.
  unfold tag_free. revert in_tag.
  induction s as [|x s IH]; intros in_tag a b; simpl.
  - destruct a; discriminate.
  - destruct in_tag.
    + destruct (x =? gt_sign); apply IH.
    + destruct ((x =? lt_sign) && existsb (fun y => y =? gt_sign) s) eqn:T;
        [apply IH|].
      destruct a as [|y a]; simpl.
      * intros [= -> <-] G. apply remove_tags_from_subset in G.
        rewrite Z.eqb_refl in T. simpl in T.
        assert (X : existsb (fun y => y =? gt_sign) s = true).
        { apply existsb_exists. exists gt_sign. split; [exact G|].
          apply Z.eqb_refl. }
        congruence.
      * intros [= _ E]. eapply IH, E.
Qed.

Lemma tag_free_infix (pre s post : jsstring) :
  tag_free (pre ++ s ++ post) -> tag_free s.
Proof.
  unfold tag_free. intros H a b E G.
  apply (H (pre ++ a) (b ++ post)).
  - rewrite E, <- !app_assoc. reflexivity.
  - apply in_or_app. now left.
Qed.

Lemma starts_with_other_head (p : code_unit) (ps : jsstring) (c : code_unit)
    (r : jsstring) :
  c <> p -> starts_with (p :: ps) (c :: r) = false.
Proof.
  intros H. simpl. destruct (Z.eqb_spec p c); [congruence | reflexivity].
Qed.

Lemma replace_all_fixed (ps replacement s : jsstring) :
  ~ In ampersand s -> replace_all (ampersand :: ps) replacement s = s.
Proof.
  unfold replace_all. induction s as [|c s IH]; intros H; [reflexivity|].
  cbn [replace_all_from]. rewrite starts_with_other_head.
  - cbn [truthy_str andb]. rewrite IH; [reflexivity|].
    intros G. apply H. now right.
  - intros ->. apply H. now left.
Qed.

Lemma decode_entities_fixed (s : jsstring) :
  ~ In ampersand s ->
  fold_left (fun acc entry => replace_all (fst entry) (snd entry) acc)
            HTML_ENTITIES s = s.
Proof.
  intros H. unfold HTML_ENTITIES. cbn [fold_left fst snd].
  change (lit "&laquo;") with (ampersand :: lit "laquo;").
  change (lit "&raquo;") with (ampersand :: lit "raquo;").
  change (lit "&ldquo;") with (ampersand :: lit "ldquo;").
  change (lit "&rdquo;") with (ampersand :: lit "rdquo;").
  change (lit "&lsquo;") with (ampersand :: lit "lsquo;").
  change (lit "&rsquo;") with (ampersand :: lit "rsquo;").
  change (lit "&quot;") with (ampersand :: lit "quot;").
  change (lit "&amp;") with (ampersand :: lit "amp;").
  change (lit "&lt;") with (ampersand :: lit "lt;").
  change (lit "&gt;") with (ampersand :: lit "gt;").
  change (lit "&nbsp;") with (ampersand :: lit "nbsp;").
  change (lit "&ndash;") with (ampersand :: lit "ndash;").
  change (lit "&mdash;") with (ampersand :: lit "mdash;").
  change (lit "&hellip;") with (ampersand :: lit "hellip;").
  repeat rewrite (replace_all_fixed _ _ s) by exact H. reflexivity.
Qed.

Lemma remove_entities_fixed (s : jsstring) :
  ~ In ampersand s -> remove_entities s = s.
Proof.
  unfold remove_entities. induction s as [|c s IH]; intros H; [reflexivity|].
  cbn [remove_entities_from entity_match].
  destruct (Z.eqb_spec c ampersand) as [->|_].
  - exfalso. apply H. now left.
  - rewrite IH; [reflexivity|]. intros G. apply H. now right.
Qed.

Lemma stripHtmlTags_without_entities (text : jsstring) :
  ~ In ampersand text -> stripHtmlTags text = trim (remove_tags text).
Proof.
  intros H. unfold stripHtmlTags.
  assert (G : ~ In ampersand (remove_tags text))
    by (intros G; apply H; eapply remove_tags_from_subset, G).
  now rewrite decode_entities_fixed, remove_entities_fixed.
Qed.

(** X9: text that holds neither [<] nor [&] passes [stripHtmlTags]
    unchanged but for the whitespace at its ends. *)
Theorem stripHtmlTags_plain_text (text : jsstring) :
  ~ In lt_sign text -> ~ In ampersand text -> stripHtmlTags text = trim text.
Proof.
  intros H1 H2. rewrite stripHtmlTags_without_entities by exact H2.
  unfold remove_tags. now rewrite remove_tags_from_fixed.
Qed.

Lemma stripHtmlTags_plain_text_witness :
  ~ In lt_sign (lit " 5 > 3 ") /\ ~ In ampersand (lit " 5 > 3 ")
  /\ stripHtmlTags (lit " 5 > 3 ") = lit "5 > 3".
Proof.
  assert (H1 : ~ In lt_sign (lit " 5 > 3 "))
    by (simpl; intros H; repeat destruct H as [H|H]; discriminate || exact H).
  assert (H2 : ~ In ampersand (lit " 5 > 3 "))
    by (simpl; intros H; repeat destruct H as [H|H]; discriminate || exact H).
  split; [exact H1|]. split; [exact H2|].
  rewrite (stripHtmlTags_plain_text (lit " 5 > 3 ") H1 H2). reflexivity.
Defined.

(** X10: on text without [&] the result of [stripHtmlTags] holds no tag:
    no [<] of it is followed by a [>]; it adds no code unit to the
    text. *)
Theorem stripHtmlTags_removes_tags (text : jsstring) :
  ~ In ampersand text ->
  tag_free (stripHtmlTags text)
  /\ (forall c, In c (stripHtmlTags text) -> In c text).
Proof.
  intros H. rewrite stripHtmlTags_without_entities by exact H. split.
  - destruct (trim_infix (remove_tags text)) as (pre & post & E & _).
    apply (tag_free_infix pre _ post). rewrite <- E.
    apply remove_tags_from_tag_free.
  - intros c G. eapply remove_tags_from_subset, trim_subset, G.
Qed.

Lemma stripHtmlTags_removes_tags_witness :
  ~ In ampersand (lit "<b>one</b> < two")
  /\ stripHtmlTags (lit "<b>one</b> < two") = lit "one < two"
  /\ tag_free (stripHtmlTags (lit "<b>one</b> < two")).
Proof.
  assert (H : ~ In ampersand (lit "<b>one</b> < two"))
    by (simpl; intros H; repeat destruct H as [H|H]; discriminate || exact H).
  split; [exact H|]. split; [reflexivity|].
  exact (proj1 (stripHtmlTags_removes_tags _ H)).
Defined.

(** X11: no spoiler reaches the output record.  Every element of its
    [facts] field is the LONG_TEXT rendering of the stripped text of a
    fact of the input that is not marked as a spoiler and is not blank. *)
Theorem facts_without_spoilers
    (capitalizeFirstLetter : jsstring -> jsstring)
    (engine_parse : jsstring -> option Z) (LocalTZA : Z -> Z)
    (settings : option Settings) (fullInfo : FullInfo.t) :
  exists m,
    createMovieShowFrom capitalizeFirstLetter engine_parse LocalTZA
                        settings fullInfo = Ok m
    /\ forall e,
         In e (MovieShow.facts m) ->
         exists facts fact,
           FullInfo.facts fullInfo = Some facts
           /\ In fact facts
           /\ fact_spoiler fact = false
           /\ nonblank (fact_value fact) = true
           /\ e = renderString LONG_TEXT None (stripHtmlTags (fact_value fact)).
Proof.
  run_formatArray. eexists. split; [reflexivity|].
  cbn [MovieShow.facts]. intros e H.
  apply in_map_iff in H. destruct H as (x & <- & H).
  apply slice0_subset, filter_In in H. destruct H as [H _].
  unfold processFacts in H. apply in_map_iff in H.
  destruct H as (fact & <- & H).
  apply slice0_subset, filter_In in H. destruct H as [H K].
  destruct (FullInfo.facts fullInfo) as [facts|]; [|destruct H].
  exists facts, fact.
  apply andb_prop in K. destruct K as [K N].
  apply andb_prop in K. destruct K as [S _].
  repeat split; trivial. now destruct (fact_spoiler fact).
Qed.

(** The theorem at work on a series with a spoiler, a fact with markup
    and a blank fact: one fact comes out, and it is the second one. *)
Lemma facts_without_spoilers_witness :
  exists m,
    createMovieShowFrom (fun s => s) (fun _ => None) (fun _ => 0) None
                        sample_series = Ok m
    /\ MovieShow.facts m = [dquote :: lit "Shot in Rome" ++ [dquote]]
    /\ exists fact,
         In fact sample_facts
         /\ fact_spoiler fact = false
         /\ nonblank (fact_value fact) = true
         /\ dquote :: lit "Shot in Rome" ++ [dquote]
            = renderString LONG_TEXT None (stripHtmlTags (fact_value fact)).
Proof.
  destruct (facts_without_spoilers (fun s => s) (fun _ => None) (fun _ => 0)
              None sample_series) as (m & E & H).
  assert (F : MovieShow.facts m = [dquote :: lit "Shot in Rome" ++ [dquote]]).
  { assert (K : option_map MovieShow.facts (Some m)
                = Some [dquote :: lit "Shot in Rome" ++ [dquote]]).
    { change (Some m)
        with (match Ok m with Ok x => Some x | Throw _ => None end).
      rewrite <- E. vm_compute. reflexivity. }
    now injection K. }
  exists m. split; [exact E|]. split; [exact F|].
  destruct (H (dquote :: lit "Shot in Rome" ++ [dquote]))
    as (facts & fact & S & I & P & N & R).
  { rewrite F. now left. }
  injection S as <-. exists fact. repeat split; assumption.
Defined.

(** ** Seasons *)

Lemma sum_episodes_bounds (seasons : list Z) (lo hi : Z) :
  Forall (fun c => lo <= c <= hi) seasons ->
  Z.of_nat (length seasons) * lo <= sum_episodes seasons
  <= Z.of_nat (length seasons) * hi.
Proof.
  induction 1 as [|c l Hc _ IH]; [simpl; lia|].
  cbn [sum_episodes fold_right length]. fold (sum_episodes l).
  rewrite Nat2Z.inj_succ. nia.
Qed.

(** X12: when the episode counts are not negative and their total is at
    most 2^53 - 1, the average of a season list lies between the smallest
    and the largest episode count of its seasons. *)
Theorem averageEpisodes_between (season : Z) (rest : list Z) (lo hi : Z) :
  safe_seasons (season :: rest) ->
  Forall (fun c => lo <= c <= hi) (season :: rest) ->
  lo <= averageEpisodesPerSeason (calculateSeasonsData (Some (season :: rest)))
  <= hi.
Proof.
  intros Hsafe H. apply sum_episodes_bounds in H.
  rewrite calculateSeasonsData_safe by exact Hsafe.
  set (n := Z.of_nat (length (season :: rest))) in *.
  assert (Hn : 0 < n) by (unfold n; simpl length; lia).
  pose proof (ceil_div_spec (sum_episodes (season :: rest)) n Hn).
  nia.
Qed.

Lemma averageEpisodes_between_witness :
  safe_seasons [10; 8; 13]
  /\ Forall (fun c => 8 <= c <= 13) [10; 8; 13]
  /\ 8 <= averageEpisodesPerSeason (calculateSeasonsData (Some [10; 8; 13]))
     <= 13.
Proof.
  assert (S : safe_seasons [10; 8; 13]).
  { split; [repeat constructor; lia | vm_compute; discriminate]. }
  assert (H : Forall (fun c => 8 <= c <= 13) [10; 8; 13])
    by (repeat constructor; lia).
  split; [exact S|]. split; [exact H|].
  exact (averageEpisodes_between 10 [8; 13] 8 13 S H).
Defined.

(** ** Dates, there and back *)

Lemma digit_value_digit (k : Z) :
  0 <= k <= 9 -> digit_value (digit k) = Some k.
Proof.
  intros H. unfold digit_value, digit.
  destruct (Z.leb_spec 48 (48 + k)), (Z.leb_spec (48 + k) 57); try lia.
  cbn [andb]. f_equal. lia.
Qed.

Lemma read_digits_app (a b : jsstring) (acc : Z) :
  read_digits acc (a ++ b)
  = match read_digits acc a with
    | Some v => read_digits v b
    | None => None
    end.
Proof.
  revert acc. induction a as [|c a IH]; intros acc; simpl; [reflexivity|].
  destruct (digit_value c); [apply IH | reflexivity].
Qed.

(** Reading what [pad] prints gives the number back. *)
Lemma read_digits_pad (w : nat) (n acc : Z) :
  0 <= n < 10 ^ Z.of_nat w ->
  read_digits acc (pad w n) = Some (acc * 10 ^ Z.of_nat w + n).
Proof.
  revert n acc. induction w as [|w IH]; intros n acc H.
  - simpl in *. f_equal. lia.
  - rewrite Nat2Z.inj_succ, Z.pow_succ_r in * by lia.
    cbn [pad]. rewrite read_digits_app, IH.
    + cbn [read_digits]. rewrite digit_value_digit.
      * f_equal. pose proof (Z.div_mod n 10 ltac:(lia)). lia.
      * pose proof (Z.mod_pos_bound n 10). lia.
    + pose proof (Z.div_mod n 10 ltac:(lia)).
      pose proof (Z.mod_pos_bound n 10 ltac:(lia)).
      assert (0 < 10 ^ Z.of_nat w) by (apply Z.pow_pos_nonneg; lia).
      split; [apply Z.div_pos; lia|].
      apply Z.div_lt_upper_bound; lia.
Qed.

Lemma month_start_step (leap : bool) (m0 : Z) :
  0 <= m0 <= 11 ->
  0 <= month_start leap m0
  /\ month_start leap m0 < month_start leap (m0 + 1)
  /\ month_start leap (m0 + 1) <= (if leap then 366 else 365).
Proof.
  intros H.
  assert (C : m0 = 0 \/ m0 = 1 \/ m0 = 2 \/ m0 = 3 \/ m0 = 4 \/ m0 = 5
              \/ m0 = 6 \/ m0 = 7 \/ m0 = 8 \/ m0 = 9 \/ m0 = 10 \/ m0 = 11)
    by lia.
  destruct leap;
    destruct C as [->|[->|[->|[->|[->|[->|[->|[->|[->|[->|[->| ->]]]]]]]]]]];
    vm_compute; repeat split; discriminate.
Qed.

Lemma MakeDay_year (y m0 d : Z) :
  0 <= m0 <= 11 -> 1 <= d <= DaysInMonth y m0 ->
  YearFromDay (MakeDay y m0 d) = y.
Proof.
  intros Hm Hd. unfold DaysInMonth in Hd.
  pose proof (month_start_step (InLeapYear y) m0 Hm) as (H1 & H2 & H3).
  assert (G : y <= YearFromDay (MakeDay y m0 d) <= y); [|lia].
  apply YearFromDay_between. rewrite DayFromYear_next. unfold MakeDay.
  destruct (InLeapYear y); lia.
Qed.

Lemma MakeDay_month_date (y m0 d : Z) :
  0 <= m0 <= 11 -> 1 <= d <= DaysInMonth y m0 ->
  MonthFromDay (MakeDay y m0 d) = m0 /\ DateFromDay (MakeDay y m0 d) = d.
Proof.
  intros Hm Hd.
  assert (W : DayWithinYear (MakeDay y m0 d)
              = month_start (InLeapYear y) m0 + d - 1).
  { unfold DayWithinYear. rewrite MakeDay_year by assumption.
    unfold MakeDay. lia. }
  assert (M : MonthFromDay (MakeDay y m0 d) = m0).
  { unfold MonthFromDay. rewrite W, MakeDay_year by assumption.
    unfold DaysInMonth in Hd.
    assert (C : m0 = 0 \/ m0 = 1 \/ m0 = 2 \/ m0 = 3 \/ m0 = 4 \/ m0 = 5
                \/ m0 = 6 \/ m0 = 7 \/ m0 = 8 \/ m0 = 9 \/ m0 = 10
                \/ m0 = 11) by lia.
    destruct (InLeapYear y);
      destruct C as [->|[->|[->|[->|[->|[->|[->|[->|[->|[->|[->| ->]]]]]]]]]]];
      cbn [Z.add Pos.add Pos.succ] in Hd; eval_month_start;
      repeat match goal with
             | |- context [if ?a <? ?b then _ else _] =>
                 destruct (Z.ltb_spec a b)
             end; lia. }
  split; [exact M|].
  unfold DateFromDay. rewrite W, M, MakeDay_year by assumption. lia.
Qed.

Lemma Day_of_day (D w : Z) :
  0 <= w < msPerDay -> Day (D * msPerDay + w) = D.
Proof.
  unfold Day, msPerDay. intros H. Z.div_mod_to_equations. lia.
Qed.

(** The local year is at most one away from the UTC year. *)
Lemma getFullYear_near (LocalTZA : Z -> Z) (t a b : Z) :
  zone_within_a_day LocalTZA ->
  a <= YearFromTime t <= b ->
  a - 1 <= getFullYear LocalTZA t <= b + 1.
Proof.
  intros Hz H. unfold getFullYear.
  apply (YearFromTime_shift (t + LocalTZA t) (- LocalTZA t)).
  - specialize (Hz t). lia.
  - now replace (t + LocalTZA t + - LocalTZA t) with t by lia.
Qed.

Lemma parse_iso_day_text (y m d : Z) :
  0 <= y <= 9999 -> 1 <= m <= 12 -> 1 <= d <= DaysInMonth y (m - 1) ->
  parse_iso_day (ymd_text y m d) = Some (MakeDay y (m - 1) d).
Proof.
  intros Hy Hm Hd.
  assert (Hd' : d <= 31).
  { unfold DaysInMonth in Hd.
    assert (C : m = 1 \/ m = 2 \/ m = 3 \/ m = 4 \/ m = 5 \/ m = 6 \/ m = 7
                \/ m = 8 \/ m = 9 \/ m = 10 \/ m = 11 \/ m = 12) by lia.
    destruct (InLeapYear y);
      destruct C as [->|[->|[->|[->|[->|[->|[->|[->|[->|[->|[->| ->]]]]]]]]]]];
      cbn [Z.add Z.sub Z.opp Z.pos_sub Pos.add Pos.succ Pos.pred_double] in Hd;
      eval_month_start; lia. }
  unfold parse_iso_day.
  change (segment 0 4 (ymd_text y m d)) with (pad 4 y).
  change (segment 5 2 (ymd_text y m d)) with (pad 2 m).
  change (segment 8 2 (ymd_text y m d)) with (pad 2 d).
  rewrite !read_digits_pad by (simpl; lia).
  change (length (ymd_text y m d)) with 10%nat.
  change (unit_at 4 (ymd_text y m d)) with 45.
  change (unit_at 7 (ymd_text y m d)) with 45.
  replace (0 * 10 ^ Z.of_nat 4 + y) with y by lia.
  replace (0 * 10 ^ Z.of_nat 2 + m) with m by lia.
  replace (0 * 10 ^ Z.of_nat 2 + d) with d by lia.
  cbn [Nat.eqb Z.eqb Pos.eqb andb].
  destruct (Z.leb_spec 1 m), (Z.leb_spec m 12), (Z.leb_spec 1 d),
    (Z.leb_spec d (DaysInMonth y (m - 1))); try lia.
  reflexivity.
Qed.

Lemma formatDate_of_instant (engine_parse : jsstring -> option Z)
    (LocalTZA : Z -> Z) (s : jsstring) (y m d w : Z) :
  zone_within_a_day LocalTZA ->
  1801 <= y <= 2099 -> 1 <= m <= 12 -> 1 <= d <= DaysInMonth y (m - 1) ->
  0 <= w < msPerDay ->
  s <> [] ->
  Date_parse engine_parse s = Some (MakeDay y (m - 1) d * msPerDay + w) ->
  formatDate engine_parse LocalTZA (Some s) = ymd_text y m d.
Proof.
  intros Hz Hy Hm Hd Hw Hs Hp.
  set (t := MakeDay y (m - 1) d * msPerDay + w) in *.
  assert (D : Day t = MakeDay y (m - 1) d) by (apply Day_of_day; exact Hw).
  assert (Y : YearFromTime t = y)
    by (unfold YearFromTime; rewrite D; apply MakeDay_year; lia).
  destruct (MakeDay_month_date y (m - 1) d ltac:(lia) Hd) as [M T].
  rewrite (formatDate_in_range engine_parse LocalTZA s t Hs Hp).
  - rewrite iso_date_four_digit_year by lia.
    rewrite Y, D, M, T. unfold ymd_text.
    now replace (m - 1 + 1) with m by lia.
  - pose proof (getFullYear_near LocalTZA t y y Hz ltac:(lia)). lia.
Qed.

Lemma Date_parse_date_text (engine_parse : jsstring -> option Z)
    (y m d : Z) :
  0 <= y <= 9999 -> 1 <= m <= 12 -> 1 <= d <= DaysInMonth y (m - 1) ->
  ymd_text y m d <> []
  /\ Date_parse engine_parse (ymd_text y m d)
     = Some (MakeDay y (m - 1) d * msPerDay + 0).
Proof.
  intros Hy Hm Hd. split.
  - intros E. apply (f_equal (@length _)) in E. discriminate E.
  - unfold Date_parse, parse_iso_strict.
    change (length (ymd_text y m d)) with 10%nat. cbn [Nat.eqb].
    rewrite parse_iso_day_text by (trivial; lia).
    f_equal. lia.
Qed.

(** X13: normalization gives a valid date back as it is.  For every
    calendar date with a year between 1801 and 2099, where local time is
    at most a day from UTC, [formatDate] maps its text [YYYY-MM-DD] to
    itself. *)
Theorem formatDate_round_trip (engine_parse : jsstring -> option Z)
    (LocalTZA : Z -> Z) (y m d : Z) :
  zone_within_a_day LocalTZA ->
  1801 <= y <= 2099 -> 1 <= m <= 12 -> 1 <= d <= DaysInMonth y (m - 1) ->
  formatDate engine_parse LocalTZA (Some (ymd_text y m d)) = ymd_text y m d.
Proof.
  intros Hz Hy Hm Hd.
  destruct (Date_parse_date_text engine_parse y m d) as [Hs Hp];
    trivial; [lia|].
  apply (formatDate_of_instant engine_parse LocalTZA _ y m d 0); trivial.
  unfold msPerDay. lia.
Qed.

Lemma formatDate_round_trip_witness :
  zone_within_a_day (fun _ => 10800000)
  /\ 1 <= 29 <= DaysInMonth 2024 (2 - 1)
  /\ formatDate (fun _ => None) (fun _ => 10800000) (Some (lit "2024-02-29"))
     = lit "2024-02-29".
Proof.
  assert (H : zone_within_a_day (fun _ => 10800000))
    by (intros t; unfold msPerDay; lia).
  assert (D : 1 <= 29 <= DaysInMonth 2024 (2 - 1)) by (vm_compute; split; discriminate).
  split; [exact H|]. split; [exact D|].
  exact (formatDate_round_trip (fun _ => None) (fun _ => 10800000) 2024 2 29
           H ltac:(lia) ltac:(lia) D).
Defined.

Lemma parse_iso_clock_text (h mi sec ms : Z) :
  0 <= h <= 23 -> 0 <= mi <= 59 -> 0 <= sec <= 59 -> 0 <= ms <= 999 ->
  parse_iso_clock (clock_text h mi sec ms)
  = Some (h * 3600000 + mi * 60000 + sec * 1000 + ms).
Proof.
  intros Hh Hmi Hs Hms. unfold parse_iso_clock.
  change (segment 0 2 (clock_text h mi sec ms)) with (pad 2 h).
  change (segment 3 2 (clock_text h mi sec ms)) with (pad 2 mi).
  change (segment 6 2 (clock_text h mi sec ms)) with (pad 2 sec).
  change (segment 9 3 (clock_text h mi sec ms)) with (pad 3 ms).
  rewrite !read_digits_pad by (simpl; lia).
  change (length (clock_text h mi sec ms)) with 12%nat.
  change (unit_at 2 (clock_text h mi sec ms)) with 58.
  change (unit_at 5 (clock_text h mi sec ms)) with 58.
  change (unit_at 8 (clock_text h mi sec ms)) with 46.
  replace (0 * 10 ^ Z.of_nat 2 + h) with h by lia.
  replace (0 * 10 ^ Z.of_nat 2 + mi) with mi by lia.
  replace (0 * 10 ^ Z.of_nat 2 + sec) with sec by lia.
  replace (0 * 10 ^ Z.of_nat 3 + ms) with ms by lia.
  cbn [Nat.eqb Z.eqb Pos.eqb andb].
  destruct (Z.leb_spec h 23), (Z.leb_spec mi 59), (Z.leb_spec sec 59);
    try lia.
  reflexivity.
Qed.

(** X14: of a valid timestamp in the form that the API sends,
    [YYYY-MM-DDTHH:mm:ss.sssZ], with a year between 1801 and 2099,
    [formatDate] returns the first ten code units, the UTC date, where
    local time is at most a day from UTC. *)
Theorem formatDate_of_timestamp (engine_parse : jsstring -> option Z)
    (LocalTZA : Z -> Z) (y m d h mi sec ms : Z) :
  zone_within_a_day LocalTZA ->
  1801 <= y <= 2099 -> 1 <= m <= 12 -> 1 <= d <= DaysInMonth y (m - 1) ->
  0 <= h <= 23 -> 0 <= mi <= 59 -> 0 <= sec <= 59 -> 0 <= ms <= 999 ->
  formatDate engine_parse LocalTZA (Some (timestamp_text y m d h mi sec ms))
  = ymd_text y m d
  /\ firstn 10 (timestamp_text y m d h mi sec ms) = ymd_text y m d.
Proof.
  intros Hz Hy Hm Hd Hh Hmi Hs Hms. split; [|reflexivity].
  apply (formatDate_of_instant engine_parse LocalTZA _ y m d
           (h * 3600000 + mi * 60000 + sec * 1000 + ms)); trivial.
  - unfold msPerDay. lia.
  - intros E. apply (f_equal (@length _)) in E. discriminate E.
  - unfold Date_parse, parse_iso_strict.
    change (length (timestamp_text y m d h mi sec ms)) with 24%nat.
    change (unit_at 10 (timestamp_text y m d h mi sec ms)) with 84.
    change (unit_at 23 (timestamp_text y m d h mi sec ms)) with 90.
    change (segment 0 10 (timestamp_text y m d h mi sec ms))
      with (ymd_text y m d).
    change (segment 11 12 (timestamp_text y m d h mi sec ms))
      with (clock_text h mi sec ms).
    cbn [Nat.eqb Z.eqb Pos.eqb andb].
    rewrite parse_iso_day_text by (trivial; lia).
    now rewrite parse_iso_clock_text by trivial.
Qed.

Lemma formatDate_of_timestamp_witness :
  zone_within_a_day (fun _ => 10800000)
  /\ 1 <= 3 <= DaysInMonth 2019 (10 - 1)
  /\ formatDate (fun _ => None) (fun _ => 10800000)
                (Some (lit "2019-10-03T21:30:00.000Z"))
     = lit "2019-10-03".
Proof.
  assert (H : zone_within_a_day (fun _ => 10800000))
    by (intros t; unfold msPerDay; lia).
  assert (D : 1 <= 3 <= DaysInMonth 2019 (10 - 1))
    by (vm_compute; split; discriminate).
  split; [exact H|]. split; [exact D|].
  exact (proj1 (formatDate_of_timestamp (fun _ => None) (fun _ => 10800000)
                  2019 10 3 21 30 0 0 H ltac:(lia) ltac:(lia) D ltac:(lia)
                  ltac:(lia) ltac:(lia) ltac:(lia))).
Defined.

Lemma date_unit_plain (c : code_unit) :
  date_unit c -> is_ws c = false /\ c <> colon.
Proof.
  unfold date_unit, is_ws, colon. intros H. split; [|lia].
  rewrite (proj2 (Z.leb_gt c 13)) by lia.
  rewrite (proj2 (Z.leb_gt 8192 c)) by lia.
  repeat rewrite (proj2 (Z.eqb_neq c _)) by lia.
  now rewrite andb_false_r.
Qed.

Lemma pad_date_units (w : nat) (n : Z) : Forall date_unit (pad w n).
Proof.
  eapply Forall_impl; [|apply pad_digits]. unfold date_unit. simpl. lia.
Qed.

Lemma iso_date_units (t : Z) : Forall date_unit (iso_date t) /\ iso_date t <> [].
Proof.
  assert (Hdash : Forall date_unit (lit "-"))
    by (constructor; [unfold date_unit; simpl; lia | constructor]).
  split.
  - unfold iso_date. apply Forall_app. split.
    + unfold iso_year. destruct (_ && _); [apply pad_date_units|].
      apply Forall_app. split; [|apply pad_date_units].
      destruct (_ <? _); [exact Hdash|].
      constructor; [unfold date_unit; simpl; lia | constructor].
    + apply Forall_app. split; [exact Hdash|].
      apply Forall_app. split; [apply pad_date_units|].
      apply Forall_app. split; [exact Hdash | apply pad_date_units].
  - unfold iso_date. intros E. apply (f_equal (@length _)) in E.
    rewrite !length_app, !pad_length in E. simpl in E. lia.
Qed.

(** A non-empty text of digits and signs passes the SHORT_VALUE mode as
    it is. *)
Lemma date_text_kept (s : jsstring) :
  Forall date_unit s -> s <> [] ->
  nonblank s = true /\ cleanTextForMetadata s = s.
Proof.
  intros H Hs.
  assert (T : trimmed s).
  { split.
    - intros c r ->. apply Forall_inv in H. now apply date_unit_plain in H.
    - intros r c ->. apply Forall_app in H. destruct H as [_ H].
      apply Forall_inv in H. now apply date_unit_plain in H. }
  assert (C : ~ In colon s).
  { intros G. rewrite Forall_forall in H. apply H, date_unit_plain in G.
    now destruct G. }
  split.
  - unfold nonblank. rewrite (trim_fixed s T). destruct s; congruence.
  - rewrite cleanTextForMetadata_eq, (remove_colons_fixed s C).
    now apply trim_fixed.
Qed.

Lemma formatDate_cases (engine_parse : jsstring -> option Z)
    (LocalTZA : Z -> Z) (x : option jsstring) :
  formatDate engine_parse LocalTZA x = []
  \/ exists t, formatDate engine_parse LocalTZA x = iso_date t.
Proof.
  unfold formatDate. destruct x as [s|]; [|now left].
  destruct (negb (truthy_str s)); [now left|].
  destruct (Date_parse engine_parse s) as [t|]; [|now left].
  destruct (_ || _); [now left|].
  right. exists t. apply iso_date_split.
Qed.

Lemma date_field (engine_parse : jsstring -> option Z) (LocalTZA : Z -> Z)
    (x : option jsstring) :
  (if nonblank (formatDate engine_parse LocalTZA x)
   then [renderString SHORT_VALUE None (formatDate engine_parse LocalTZA x)]
   else [])
  = (if truthy_str (formatDate engine_parse LocalTZA x)
     then [formatDate engine_parse LocalTZA x] else []).
Proof.
  destruct (formatDate_cases engine_parse LocalTZA x) as [E|(t & E)];
    rewrite E; [reflexivity|].
  destruct (iso_date_units t) as [U N].
  destruct (date_text_kept _ U N) as [B C].
  rewrite B. cbn [renderString]. rewrite C.
  destruct (iso_date t); [congruence | reflexivity].
Qed.

(** X19: a date field of the output record is empty or holds the
    normalized date and nothing else: the SHORT_VALUE mode leaves a
    normalized date as it is.  This holds for the four premiere fields,
    and for [distributorRelease] whenever its date normalizes. *)
Theorem date_fields_hold_normalized_dates
    (capitalizeFirstLetter : jsstring -> jsstring)
    (engine_parse : jsstring -> option Z) (LocalTZA : Z -> Z)
    (settings : option Settings) (fullInfo : FullInfo.t) :
  let premiere f :=
    formatDate engine_parse LocalTZA (opt_get (FullInfo.premiere fullInfo) f) in
  let release :=
    formatDate engine_parse LocalTZA
               (opt_get (FullInfo.distributors fullInfo)
                        distributors_distributorRelease) in
  let field date := if truthy_str date then [date] else [] in
  exists m,
    createMovieShowFrom capitalizeFirstLetter engine_parse LocalTZA
                        settings fullInfo = Ok m
    /\ MovieShow.premiereWorld m = field (premiere premiere_world)
    /\ MovieShow.premiereRussia m = field (premiere premiere_russia)
    /\ MovieShow.premiereDigital m = field (premiere premiere_digital)
    /\ MovieShow.premiereCinema m = field (premiere premiere_cinema)
    /\ (release <> [] -> MovieShow.distributorRelease m = [release]).
Proof.
  intros premiere release field.
  run_formatArray. eexists. split; [reflexivity|].
  cbn [MovieShow.premiereWorld MovieShow.premiereRussia
       MovieShow.premiereDigital MovieShow.premiereCinema
       MovieShow.distributorRelease].
  repeat split; try apply date_field.
  intros H. unfold distributorReleaseValue. fold release.
  destruct release eqn:R; [congruence|]. cbn [truthy_str].
  rewrite <- R. unfold release. rewrite date_field.
  fold release. now rewrite R.
Qed.

Lemma date_fields_hold_normalized_dates_witness :
  formatDate (fun _ => None) (fun _ => 0) (Some (lit "1994-09-10")) <> []
  /\ exists m,
       createMovieShowFrom (fun s => s) (fun _ => None) (fun _ => 0) None
                           sample_record = Ok m
       /\ MovieShow.premiereWorld m = [lit "1994-09-10"]
       /\ MovieShow.premiereRussia m = [].
Proof.
  split; [vm_compute; discriminate|].
  destruct (date_fields_hold_normalized_dates (fun s => s) (fun _ => None)
              (fun _ => 0) None sample_record) as (m & E & W & R & _).
  exists m. split; [exact E|]. split; [exact W | exact R].
Defined.

(** ** The output record *)

Lemma kinopoiskUrl_kept (id : Z) :
  let url := lit "https://www.kinopoisk.ru/film/" ++ int_to_string id ++ lit "/" in
  nonblank url = true /\ trim url = url.
Proof.
  intros url.
  assert (T : trimmed url).
  { split.
    - intros c r E. unfold url in E. simpl in E. now injection E as <- _.
    - intros r c E. unfold url in E.
      rewrite !app_assoc in E. apply app_inj_tail in E.
      now destruct E as [_ <-]. }
  split; [|now apply trim_fixed].
  unfold nonblank. rewrite (trim_fixed url T). reflexivity.
Qed.

(** X15: on a record of the declared type [createMovieShowFrom] never
    throws.  Its result passes [id], [year] and [isSeries] on, leaves the
    three image path fields empty, and carries exactly one
    [kinopoiskUrl], the film page of the id, with the id as the template
    literal prints the Number ([int_to_string]). *)
Theorem createMovieShowFrom_returns
    (capitalizeFirstLetter : jsstring -> jsstring)
    (engine_parse : jsstring -> option Z) (LocalTZA : Z -> Z)
    (settings : option Settings) (fullInfo : FullInfo.t) :
  exists m,
    createMovieShowFrom capitalizeFirstLetter engine_parse LocalTZA
                        settings fullInfo = Ok m
    /\ MovieShow.id m = FullInfo.id fullInfo
    /\ MovieShow.year m = FullInfo.year fullInfo
    /\ MovieShow.isSeries m = FullInfo.isSeries fullInfo
    /\ MovieShow.posterPath m = []
    /\ MovieShow.coverPath m = []
    /\ MovieShow.logoPath m = []
    /\ MovieShow.kinopoiskUrl m
       = [lit "https://www.kinopoisk.ru/film/"
            ++ int_to_string (FullInfo.id fullInfo) ++ lit "/"].
Proof.
  run_formatArray. eexists. split; [reflexivity|].
  cbn [MovieShow.id MovieShow.year MovieShow.isSeries MovieShow.posterPath
       MovieShow.coverPath MovieShow.logoPath MovieShow.kinopoiskUrl].
  repeat split.
  destruct (kinopoiskUrl_kept (FullInfo.id fullInfo)) as [N T].
  cbv zeta in N, T. rewrite N. cbn [renderString]. now rewrite T.
Qed.



(** X18: the name fields and the file-name fields agree: [name],
    [alternativeName] and [enName] are empty when the source is blank and
    otherwise hold one element, the text of [nameForFile],
    [alternativeNameForFile] and [enNameForFile]. *)
Theorem name_fields_agree
    (capitalizeFirstLetter : jsstring -> jsstring)
    (engine_parse : jsstring -> option Z) (LocalTZA : Z -> Z)
    (settings : option Settings) (fullInfo : FullInfo.t) :
  exists m,
    createMovieShowFrom capitalizeFirstLetter engine_parse LocalTZA
                        settings fullInfo = Ok m
    /\ MovieShow.name m
       = (if nonblank (FullInfo.name fullInfo)
          then [MovieShow.nameForFile m] else [])
    /\ MovieShow.alternativeName m
       = (if nonblank (or_empty (FullInfo.alternativeName fullInfo))
          then [MovieShow.alternativeNameForFile m] else [])
    /\ MovieShow.enName m
       = (if nonblank (or_empty (FullInfo.enName fullInfo))
          then [MovieShow.enNameForFile m] else []).
Proof.
  run_formatArray. eexists. split; [reflexivity|]. repeat split.
Qed.

(** ** The provider *)

Section ProviderProperties.

Variable capitalizeFirstLetter : jsstring -> jsstring.
Variable engine_parse : jsstring -> option Z.
Variable LocalTZA : Z -> Z.
Variable t : jsstring -> jsstring.
Variable tWithParams : jsstring -> list (jsstring * jsstring) -> jsstring.
Variable Json : Type.
Variable Failure : Type.
Variable SuggestItem : Type.
Variable nullish : Json -> bool.
Variable falsy : Json -> bool.
Variable docs_of : Json -> option (list SuggestItem).
Variable full_info_of : Json -> option FullInfo.t.
Variable createMovieShowFromUndeclared :
  option Settings -> Json -> Result MovieShow.t.
Variable requestUrl : list Request -> Request -> Json + Failure.
Variable handleApiError : Failure -> Exn.
Variable url_href : jsstring -> list (jsstring * jsstring) -> jsstring.

Lemma nonblank_trim (s : jsstring) : nonblank s = true -> trim s <> [].
Proof. unfold nonblank. intros H E. rewrite E in H. discriminate H. Qed.

Lemma apiGet_requests (endpoint token : jsstring)
    (params : list (jsstring * ParamValue)) (log : list Request) :
  at_most_one_request token log
    (snd (apiGet t requestUrl handleApiError url_href endpoint token params []
                 log)).
Proof.
  unfold apiGet. destruct (isValidToken token) eqn:V; cbn [negb].
  - right.
    exists {| req_url := buildUrl url_href endpoint params;
              req_method := lit "GET";
              req_headers := [(lit "Accept", lit "*/*");
                              (lit "X-API-KEY", trim token)] ++ [] |}.
    split; [|split; [reflexivity|split]].
    + destruct (requestUrl log _); reflexivity.
    + right. now left.
    + now apply nonblank_trim.
  - now left.
Qed.

(** X20: no operation of the provider retries or fans out.  A search, a
    fetch by id and a token check each issue at most one request, a GET
    with the trimmed token as API key; the earlier requests are left as
    they were. *)
Theorem provider_issues_one_request (settings : option Settings)
    (query token : jsstring) (id : Z) (log : list Request) :
  at_most_one_request token log
    (snd (searchByQuery t tWithParams nullish docs_of requestUrl handleApiError
                        url_href query token log))
  /\ at_most_one_request token log
       (snd (getMovieById capitalizeFirstLetter engine_parse LocalTZA t Json
                          Failure falsy full_info_of
                          createMovieShowFromUndeclared requestUrl
                          handleApiError url_href settings id token log))
  /\ at_most_one_request token log
       (snd (validateToken t requestUrl handleApiError url_href token log)).
Proof.
  split; [|split].
  - unfold searchByQuery, bindP, throw.
    destruct (isValidSearchQuery query); cbn [negb]; [|now left].
    pose proof (apiGet_requests (lit "/movie/search") token
                  [(lit "query", PString (trim query));
                   (lit "limit", PNumber MAX_SEARCH_RESULTS)] log) as H.
    destruct (apiGet _ _ _ _ _ _ _ _ log) as [[json|e] log']; [|exact H].
    cbn [snd] in *.
    destruct (nullish json); [exact H|].
    now destruct (docs_of json) as [[|d ds]|].
  - unfold getMovieById, bindP, throw.
    destruct (isValidMovieId id); cbn [negb]; [|now left].
    destruct (isValidToken token) eqn:V; cbn [negb]; [|now left].
    pose proof (apiGet_requests (lit "/movie/" ++ int_to_string id) token []
                  log) as H.
    destruct (apiGet _ _ _ _ _ _ _ _ log) as [[json|e] log']; [|exact H].
    cbn [snd] in *. now destruct (falsy json).
  - unfold validateToken, catch, bindP, ret.
    destruct (isValidToken token) eqn:V; cbn [negb]; [|now left].
    pose proof (apiGet_requests (lit "/movie") token
                  [(lit "page", PNumber 1); (lit "limit", PNumber 1)] log)
      as H.
    now destruct (apiGet _ _ _ _ _ _ _ _ log) as [[json|e] log'].
Qed.

(** X21: a fetch by id checks the id first and the token second, each
    with its own message and before any request.  With both valid it
    issues one request: a failure comes back as the translated error and
    a falsy body as the error of [provider.movieInfoError].  A truthy
    body goes to the formatter unvalidated: when it has the declared
    shape the output record comes back, and whatever the formatter throws
    on another body comes back as it is. *)
Theorem getMovieById_outcomes (settings : option Settings) (id : Z)
    (token : jsstring) (log : list Request) :
  let run :=
    getMovieById capitalizeFirstLetter engine_parse LocalTZA t Json Failure
                 falsy full_info_of createMovieShowFromUndeclared requestUrl
                 handleApiError url_href settings id token log in
  let request :=
    {| req_url := buildUrl url_href (lit "/movie/" ++ int_to_string id) [];
       req_method := lit "GET";
       req_headers := [(lit "Accept", lit "*/*");
                       (lit "X-API-KEY", trim token)] |} in
  (id <= 0 -> run = (Throw (Error (t (lit "provider.invalidMovieId"))), log))
  /\ (0 < id -> isValidToken token = false ->
      run = (Throw (Error (t (lit "provider.tokenRequiredForMovie"))), log))
  /\ (0 < id -> isValidToken token = true ->
      (forall failure,
          requestUrl log request = inr failure ->
          run = (Throw (handleApiError failure), log ++ [request]))
      /\ (forall json,
            requestUrl log request = inl json ->
            falsy json = true ->
            run = (Throw (Error (t (lit "provider.movieInfoError"))),
                   log ++ [request]))
      /\ (forall json fullInfo,
            requestUrl log request = inl json ->
            falsy json = false ->
            full_info_of json = Some fullInfo ->
            exists m,
              createMovieShowFrom capitalizeFirstLetter engine_parse LocalTZA
                                  settings fullInfo = Ok m
              /\ run = (Ok m, log ++ [request]))
      /\ (forall json,
            requestUrl log request = inl json ->
            falsy json = false ->
            full_info_of json = None ->
            run = (createMovieShowFromUndeclared settings json,
                   log ++ [request]))).
Proof.
  intros run request. unfold run, getMovieById, isValidMovieId.
  split; [|split].
  - intros H. destruct (Z.ltb_spec 0 id); [lia | reflexivity].
  - intros H V. destruct (Z.ltb_spec 0 id); [|lia]. cbn [negb].
    now rewrite V.
  - intros H V. destruct (Z.ltb_spec 0 id); [|lia]. cbn [negb].
    rewrite V. cbn [negb]. unfold bindP, apiGet. rewrite V. cbn [negb].
    change ({| req_url := _; req_method := _; req_headers := _ |})
      with request.
    split; [|split; [|split]].
    + intros failure R. now rewrite R.
    + intros json R F. rewrite R, F. reflexivity.
    + intros json fullInfo R F D. rewrite R, F, D.
      destruct (createMovieShowFrom_total capitalizeFirstLetter engine_parse
                  LocalTZA settings fullInfo) as (m & E).
      exists m. split; [exact E|]. now rewrite E.
    + intros json R F D. rewrite R, F, D. reflexivity.
Qed.

(** X22: a token check never fails.  It answers [false] without a
    request for a blank token; for another token it issues one request
    and answers whether that request succeeded. *)
Theorem validateToken_answers (token : jsstring) (log : list Request) :
  let run := validateToken t requestUrl handleApiError url_href token log in
  let request :=
    {| req_url :=
         buildUrl url_href (lit "/movie")
                  [(lit "page", PNumber 1); (lit "limit", PNumber 1)];
       req_method := lit "GET";
       req_headers := [(lit "Accept", lit "*/*");
                       (lit "X-API-KEY", trim token)] |} in
  (exists answer log', run = (Ok answer, log'))
  /\ (isValidToken token = false -> run = (Ok false, log))
  /\ (isValidToken token = true ->
      run = (Ok (match requestUrl log request with
                 | inl _ => true
                 | inr _ => false
                 end), log ++ [request])).
Proof.
  intros run request.
  assert (A : isValidToken token = false -> run = (Ok false, log)).
  { intros V. unfold run, validateToken. now rewrite V. }
  assert (B : isValidToken token = true ->
              run = (Ok (match requestUrl log request with
                         | inl _ => true
                         | inr _ => false
                         end), log ++ [request])).
  { intros V. unfold run, validateToken, catch, bindP, apiGet, ret.
    rewrite V. cbn [negb].
    change ({| req_url := _; req_method := _; req_headers := _ |})
      with request.
    now destruct (requestUrl log request). }
  split; [|split; assumption].
  destruct (isValidToken token); [rewrite B | rewrite A]; eauto.
Qed.

(** X23: a search with a valid query and token asks for the trimmed
    query with the limit 50, in this order, and a request that fails
    comes back as the translated error after that one request. *)
Theorem searchByQuery_request (query token : jsstring) (log : list Request) :
  isValidSearchQuery query = true ->
  isValidToken token = true ->
  req_url (search_request url_href query token)
  = url_href (API_BASE_URL ++ lit "/movie/search")
             [(lit "query", trim query); (lit "limit", lit "50")]
  /\ forall failure,
       requestUrl log (search_request url_href query token) = inr failure ->
       searchByQuery t tWithParams nullish docs_of requestUrl handleApiError url_href
                     query token log
       = (Throw (handleApiError failure),
          log ++ [search_request url_href query token]).
Proof.
  intros Q V. split.
  - unfold search_request, buildUrl. cbn [req_url filter map fst snd param_set
      param_toString].
    apply nonblank_trim in Q. destruct (trim query); [congruence|].
    reflexivity.
  - intros failure R. unfold searchByQuery, bindP, apiGet.
    rewrite Q, V. cbn [negb].
    change ({| req_url := _; req_method := _; req_headers := _ |})
      with (search_request url_href query token).
    now rewrite R.
Qed.

End ProviderProperties.

Lemma getMovieById_outcomes_witness :
  0 < 326
  /\ isValidToken (lit "TOKEN") = true
  /\ (exists m,
        createMovieShowFrom (fun s => s) (fun _ => None) (fun _ => 0)
                            (Some sample_settings) sample_record = Ok m
        /\ getMovieById (fun s => s) (fun _ => None) (fun _ => 0)
                        (fun key => key) (option FullInfo.t) unit
                        (fun _ => false) (fun body => body)
                        (fun _ _ => Throw TypeError)
                        (fun _ _ => inl (Some sample_record))
                        (fun _ => Error []) (fun base _ => base)
                        (Some sample_settings) 326 (lit "TOKEN") []
           = (Ok m,
              [{| req_url := lit "https://api.kinopoisk.dev/v1.4/movie/326";
                  req_method := lit "GET";
                  req_headers := [(lit "Accept", lit "*/*");
                                  (lit "X-API-KEY", lit "TOKEN")] |}]))
  /\ getMovieById (fun s => s) (fun _ => None) (fun _ => 0)
                  (fun key => key) (option FullInfo.t) unit
                  (fun _ => false) (fun body => body)
                  (fun _ _ => Throw TypeError)
                  (fun _ _ => inl None)
                  (fun _ => Error []) (fun base _ => base)
                  (Some sample_settings) 326 (lit "TOKEN") []
     = (Throw TypeError,
        [{| req_url := lit "https://api.kinopoisk.dev/v1.4/movie/326";
            req_method := lit "GET";
            req_headers := [(lit "Accept", lit "*/*");
                            (lit "X-API-KEY", lit "TOKEN")] |}]).
Proof.
  split; [lia|]. split; [reflexivity|]. split.
  - exact (proj1 (proj2 (proj2 (proj2 (proj2
             (getMovieById_outcomes (fun s => s) (fun _ => None) (fun _ => 0)
                (fun key => key) (option FullInfo.t) unit
                (fun _ => false) (fun body => body)
                (fun _ _ => Throw TypeError)
                (fun _ _ => inl (Some sample_record)) (fun _ => Error [])
                (fun base _ => base) (Some sample_settings) 326
                (lit "TOKEN") []))
             ltac:(lia) eq_refl)))
           (Some sample_record) sample_record eq_refl eq_refl eq_refl).
  - exact (proj2 (proj2 (proj2 (proj2 (proj2
             (getMovieById_outcomes (fun s => s) (fun _ => None) (fun _ => 0)
                (fun key => key) (option FullInfo.t) unit
                (fun _ => false) (fun body => body)
                (fun _ _ => Throw TypeError)
                (fun _ _ => inl None) (fun _ => Error [])
                (fun base _ => base) (Some sample_settings) 326
                (lit "TOKEN") []))
             ltac:(lia) eq_refl)))
           None eq_refl eq_refl eq_refl).
Defined.

Lemma validateToken_answers_witness :
  isValidToken (lit " TOKEN ") = true
  /\ validateToken (fun key => key) (fun _ _ => @inr (list nat) unit tt)
                   (fun _ => Error []) (fun base _ => base) (lit " TOKEN ") []
     = (Ok false,
        [{| req_url := lit "https://api.kinopoisk.dev/v1.4/movie";
            req_method := lit "GET";
            req_headers := [(lit "Accept", lit "*/*");
                            (lit "X-API-KEY", lit "TOKEN")] |}]).
Proof.
  split; [reflexivity|].
  exact (proj2 (proj2 (validateToken_answers (fun key => key) (list nat) unit
                         (fun _ _ => inr tt) (fun _ => Error [])
                         (fun base _ => base) (lit " TOKEN ") []))
               eq_refl).
Defined.

Lemma searchByQuery_request_witness :
  isValidSearchQuery (lit " matrix ") = true
  /\ isValidToken (lit "TOKEN") = true
  /\ searchByQuery (fun key => key)
                   (fun key params => key ++ concat (map snd params))
                   (fun _ => false)
                   (fun json : list nat => Some json)
                   (fun _ _ => @inr (list nat) unit tt)
                   (fun _ => Error (lit "offline"))
                   (fun base _ => base)
                   (lit " matrix ") (lit "TOKEN") []
     = (Throw (Error (lit "offline")),
        [search_request (fun base _ => base) (lit " matrix ") (lit "TOKEN")]).
Proof.
  split; [reflexivity|]. split; [reflexivity|].
  exact (proj2 (searchByQuery_request (fun key => key)
                  (fun key params => key ++ concat (map snd params))
                  (list nat) unit nat (fun _ => false) (fun json => Some json)
                  (fun _ _ => inr tt) (fun _ => Error (lit "offline"))
                  (fun base _ => base) (lit " matrix ") (lit "TOKEN") []
                  eq_refl eq_refl)
               tt eq_refl).
Defined.

(** ** The search modal *)

Section SearchModalProperties.

Variable t : jsstring -> jsstring.
Variable tWithParams : jsstring -> list (jsstring * jsstring) -> jsstring.
Variable Json : Type.
Variable Failure : Type.
Variable SuggestItem : Type.
Variable nullish : Json -> bool.
Variable docs_of : Json -> option (list SuggestItem).
Variable requestUrl : list Request -> Request -> Json + Failure.
Variable handleApiError : Failure -> Exn.
Variable url_href : jsstring -> list (jsstring * jsstring) -> jsstring.
Variable typeErrorMessage : jsstring.

(** X24: a search that the modal does not accept does nothing beyond a
    notice: without a query it shows the notice of [modals.enterMovieName],
    with a query but without a token that of [modals.needApiToken], and
    while another search is running it shows nothing; in each case no
    request is issued, the callback is not invoked and the modal stays as
    it is. *)
Theorem modalSearch_rejected (m : SearchModal SuggestItem)
    (log : list Request) :
  let run :=
    modalSearch t tWithParams nullish docs_of requestUrl handleApiError url_href
                typeErrorMessage m log in
  (trim (sm_query m) = [] ->
   run = (showNotice (t (lit "modals.enterMovieName")) m, log))
  /\ (trim (sm_query m) <> [] -> trim (sm_token m) = [] ->
      run = (showNotice (t (lit "modals.needApiToken")) m, log))
  /\ (trim (sm_query m) <> [] -> trim (sm_token m) <> [] ->
      sm_isBusy m = true ->
      run = (m, log)).
Proof.
  intros run. unfold run, modalSearch, modalValidateInput.
  split; [|split].
  - intros ->. reflexivity.
  - intros Q ->. destruct (trim (sm_query m)); [congruence | reflexivity].
  - intros Q T ->.
    destruct (trim (sm_query m)); [congruence|].
    destruct (trim (sm_token m)); [congruence | reflexivity].
Qed.

Lemma truthy_str_nonempty (s : jsstring) : s <> [] -> truthy_str s = true.
Proof. destruct s; [congruence | reflexivity]. Qed.

Lemma searchByQuery_of_trimmed (query token : jsstring) (log : list Request) :
  trim query <> [] -> trim token <> [] ->
  searchByQuery t tWithParams nullish docs_of requestUrl handleApiError
                url_href (trim query) token log
  = match requestUrl log (search_request url_href query token) with
    | inl json =>
        if nullish json
        then (Throw TypeError, log ++ [search_request url_href query token])
        else
          match docs_of json with
          | Some (d :: ds) =>
              (Ok (d :: ds), log ++ [search_request url_href query token])
          | _ =>
              (Throw (Error (nothingFoundMessage t tWithParams (trim query))),
               log ++ [search_request url_href query token])
          end
    | inr failure =>
        (Throw (handleApiError failure),
         log ++ [search_request url_href query token])
    end.
Proof.
  intros Q T.
  unfold searchByQuery, bindP, apiGet, isValidSearchQuery, isValidToken,
    nonblank.
  rewrite trim_idempotent.
  destruct (trim query) as [|q0 qs] eqn:EQ; [congruence|].
  destruct (trim token) as [|t0 ts] eqn:ET; [congruence|].
  cbn [negb]. unfold search_request. rewrite EQ, ET.
  destruct (requestUrl log _) as [json|failure]; [|reflexivity].
  destruct (nullish json); [reflexivity|].
  now destruct (docs_of json) as [[|d ds]|].
Qed.

(** X25: a search that the modal accepts issues one request and invokes
    the callback once, and afterwards the modal is not busy and its
    button and input are enabled again.  When the request brings
    documents, the callback receives exactly these, the modal closes and
    no notice is shown.  In every other case the modal stays open, the
    callback receives the error and the notice shows its message: the
    nothing-found error for the trimmed query when the body holds no
    documents, the [TypeError] when the body is [null], the translated
    error when the request fails. *)
Theorem modalSearch_accepted (m : SearchModal SuggestItem)
    (log : list Request) :
  trim (sm_query m) <> [] ->
  trim (sm_token m) <> [] ->
  sm_isBusy m = false ->
  let run :=
    modalSearch t tWithParams nullish docs_of requestUrl handleApiError
                url_href typeErrorMessage m log in
  let request := search_request url_href (sm_query m) (sm_token m) in
  let failed error :=
    sm_calls (fst run) = sm_calls m ++ [CallbackError error]
    /\ sm_open (fst run) = sm_open m
    /\ sm_notices (fst run)
       = sm_notices m ++ [errorMessage typeErrorMessage error] in
  snd run = log ++ [request]
  /\ sm_isBusy (fst run) = false
  /\ sm_okBtnRef (fst run)
     = option_map (fun _ => {| btn_disabled := false;
                               btn_text := t (lit "modals.searchButton") |})
                  (sm_okBtnRef m)
  /\ sm_inputRef (fst run) = option_map (fun _ => false) (sm_inputRef m)
  /\ (forall json d ds,
        requestUrl log request = inl json ->
        nullish json = false ->
        docs_of json = Some (d :: ds) ->
        sm_calls (fst run) = sm_calls m ++ [CallbackResults (d :: ds)]
        /\ sm_open (fst run) = false
        /\ sm_notices (fst run) = sm_notices m)
  /\ (forall json,
        requestUrl log request = inl json ->
        nullish json = false ->
        docs_of json = None \/ docs_of json = Some [] ->
        failed (Error (nothingFoundMessage t tWithParams
                                           (trim (sm_query m)))))
  /\ (forall json,
        requestUrl log request = inl json ->
        nullish json = true ->
        failed TypeError)
  /\ (forall failure,
        requestUrl log request = inr failure ->
        failed (handleApiError failure)).
Proof.
  intros Q T B run request failed.
  unfold failed, run, modalSearch, modalValidateInput.
  rewrite (truthy_str_nonempty _ Q), (truthy_str_nonempty _ T), B.
  cbn [negb].
  change (sm_query (setBusy t true m)) with (sm_query m).
  change (sm_token (setBusy t true m)) with (sm_token m).
  rewrite (searchByQuery_of_trimmed _ _ log Q T). fold request.
  destruct (requestUrl log request) as [json|failure];
    [destruct (nullish json) eqn:NJ;
       [|destruct (docs_of json) as [[|d ds]|] eqn:DJ]|];
    cbn [setBusy closeModal invokeCallback handleSearchError showNotice
         sm_isBusy sm_okBtnRef sm_inputRef sm_open sm_notices sm_calls
         fst snd];
    (split; [reflexivity|]); (split; [reflexivity|]);
    (split; [now destruct (sm_okBtnRef m)|]);
    (split; [now destruct (sm_inputRef m)|]);
    (split; [intros j d' ds' R N D|
      split; [intros j R N D|split; [intros j R N|intros f R]]]);
    try discriminate R; injection R as <-; try congruence;
    try (destruct D as [D|D]; congruence);
    try (rewrite DJ in D; injection D as <- <-);
    repeat split; reflexivity.
Qed.

End SearchModalProperties.

Lemma modalSearch_rejected_witness :
  let m : SearchModal nat :=
    {| sm_isBusy := true; sm_okBtnRef := None; sm_inputRef := None;
       sm_query := lit "matrix"; sm_token := lit "TOKEN"; sm_open := true;
       sm_notices := []; sm_calls := [] |} in
  trim (sm_query m) <> [] /\ trim (sm_token m) <> [] /\ sm_isBusy m = true
  /\ modalSearch (fun key => key)
                 (fun key params => key ++ concat (map snd params))
                 (fun _ => false)
                 (fun json : list nat => Some json)
                 (fun _ _ => @inl (list nat) unit [1%nat])
                 (fun _ => Error []) (fun base _ => base) [] m []
     = (m, []).
Proof.
  intros m.
  assert (Q : trim (sm_query m) <> []) by (vm_compute; discriminate).
  assert (T : trim (sm_token m) <> []) by (vm_compute; discriminate).
  split; [exact Q|]. split; [exact T|]. split; [reflexivity|].
  exact (proj2 (proj2 (modalSearch_rejected (fun key => key)
                         (fun key params => key ++ concat (map snd params))
                         (list nat) unit nat (fun _ => false)
                         (fun json => Some json)
                         (fun _ _ => inl [1%nat]) (fun _ => Error [])
                         (fun base _ => base) [] m []))
               Q T eq_refl).
Defined.

Lemma modalSearch_accepted_witness :
  let m : SearchModal nat :=
    {| sm_isBusy := false;
       sm_okBtnRef := Some {| btn_disabled := false; btn_text := lit "Search" |};
       sm_inputRef := Some false;
       sm_query := lit " matrix "; sm_token := lit "TOKEN"; sm_open := true;
       sm_notices := []; sm_calls := [] |} in
  let run :=
    modalSearch (fun key => key)
                (fun key params => key ++ concat (map snd params))
                (fun _ => false)
                (fun json : list nat => Some json)
                (fun _ _ => @inl (list nat) unit [1%nat; 2%nat])
                (fun _ => Error []) (fun base _ => base) [] m [] in
  trim (sm_query m) <> [] /\ trim (sm_token m) <> [] /\ sm_isBusy m = false
  /\ snd run
     = [search_request (fun base _ => base) (lit " matrix ") (lit "TOKEN")]
  /\ sm_calls (fst run) = [CallbackResults [1%nat; 2%nat]]
  /\ sm_open (fst run) = false
  /\ sm_notices (fst run) = [].
Proof.
  intros m run.
  assert (Q : trim (sm_query m) <> []) by (vm_compute; discriminate).
  assert (T : trim (sm_token m) <> []) by (vm_compute; discriminate).
  split; [exact Q|]. split; [exact T|]. split; [reflexivity|].
  destruct (modalSearch_accepted (fun key => key)
              (fun key params => key ++ concat (map snd params))
              (list nat) unit nat (fun _ => false) (fun json => Some json)
              (fun _ _ => inl [1%nat; 2%nat]) (fun _ => Error [])
              (fun base _ => base) [] m [] Q T eq_refl)
    as (L & _ & _ & _ & S & _).
  split; [exact L|].
  exact (S [1%nat; 2%nat] 1%nat [2%nat] eq_refl eq_refl eq_refl).
Defined.

(** ** Poster links *)

Lemma starts_with_app (a b s : jsstring) :
  starts_with (a ++ b) s = true -> starts_with a s = true.
Proof.
  revert s. induction a as [|x a IH]; intros s; [reflexivity|].
  destruct s as [|c s]; simpl; [discriminate|].
  intros H. apply andb_prop in H. destruct H as [H1 H2].
  rewrite H1. now apply IH.
Qed.

(** X26: a poster URL that the suggestion list accepts as an image is
    not blank, begins with "http://" or "https://", and is embedded by
    [createImageLink] as a web image, never as a path of the vault. *)
Theorem valid_image_url_is_embedded_by_url (URL_parses : jsstring -> bool)
    (url : jsstring) :
  isValidImageUrl URL_parses (Some url) = true ->
  nonblank url = true
  /\ (starts_with (lit "http://") url = true
      \/ starts_with (lit "https://") url = true)
  /\ createImageLink url = [lit "![](" ++ url ++ lit ")"].
Proof.
  unfold isValidImageUrl. intros H.
  destruct (truthy_str url) eqn:T; [|discriminate].
  destruct (nonblank url) eqn:N; [|discriminate].
  cbn [negb orb] in H. destruct (URL_parses url); [|discriminate].
  apply orb_prop in H.
  assert (S : starts_with (lit "http") url = true).
  { destruct H as [H|H].
    - apply (starts_with_app (lit "http") (lit "://")), H.
    - apply (starts_with_app (lit "http") (lit "s://")), H. }
  split; [reflexivity|]. split; [exact H|].
  unfold createImageLink. rewrite T, N, S. reflexivity.
Qed.

Lemma valid_image_url_is_embedded_by_url_witness :
  isValidImageUrl (fun _ => true) (Some (lit "https://x/p.jpg")) = true
  /\ createImageLink (lit "https://x/p.jpg") = [lit "![](https://x/p.jpg)"].
Proof.
  split; [reflexivity|].
  exact (proj2 (proj2 (valid_image_url_is_embedded_by_url
                         (fun _ => true) (lit "https://x/p.jpg") eq_refl))).
Defined.

(** ** Normalizing twice *)

Lemma DateFromDay_in_month (d : Z) :
  1 <= DateFromDay d <= DaysInMonth (YearFromDay d) (MonthFromDay d).
Proof.
  pose proof (DateFromDay_range d) as [H _]. split; [exact H|].
  unfold DaysInMonth, DateFromDay, MonthFromDay.
  pose proof (DayWithinYear_range d) as R.
  set (w := DayWithinYear d) in *. clearbody w.
  destruct (InLeapYear (YearFromDay d));
    repeat match goal with
           | |- context [if ?a <? ?b then _ else _] =>
               destruct (Z.ltb_spec a b)
           end; eval_month_start; lia.
Qed.

(** X17: a normalized date is stable.  When a string parses to an instant
    whose UTC year lies between 1801 and 2099, and local time is at most
    a day from UTC, normalizing the result of [formatDate] again returns
    the same date. *)
Theorem formatDate_stable (engine_parse : jsstring -> option Z)
    (LocalTZA : Z -> Z) (s : jsstring) (t : Z) :
  zone_within_a_day LocalTZA ->
  s <> [] ->
  Date_parse engine_parse s = Some t ->
  1801 <= YearFromTime t <= 2099 ->
  formatDate engine_parse LocalTZA (Some s)
  = ymd_text (YearFromTime t) (MonthFromDay (Day t) + 1) (DateFromDay (Day t))
  /\ formatDate engine_parse LocalTZA
                (Some (formatDate engine_parse LocalTZA (Some s)))
     = formatDate engine_parse LocalTZA (Some s).
Proof.
  intros Hz Hs Hp Hy.
  assert (E : formatDate engine_parse LocalTZA (Some s)
              = ymd_text (YearFromTime t) (MonthFromDay (Day t) + 1)
                         (DateFromDay (Day t))).
  { rewrite (formatDate_in_range engine_parse LocalTZA s t Hs Hp).
    - apply iso_date_four_digit_year. lia.
    - pose proof (getFullYear_near LocalTZA t 1801 2099 Hz Hy). lia. }
  split; [exact E|]. rewrite E.
  pose proof (MonthFromDay_range (Day t)).
  assert (Hd : 1 <= DateFromDay (Day t)
               <= DaysInMonth (YearFromTime t) (MonthFromDay (Day t) + 1 - 1)).
  { replace (MonthFromDay (Day t) + 1 - 1) with (MonthFromDay (Day t)) by lia.
    apply DateFromDay_in_month. }
  destruct (Date_parse_date_text engine_parse (YearFromTime t)
              (MonthFromDay (Day t) + 1) (DateFromDay (Day t)))
    as [Hs' Hp']; trivial; [lia|lia|].
  apply (formatDate_of_instant engine_parse LocalTZA _ (YearFromTime t)
           (MonthFromDay (Day t) + 1) (DateFromDay (Day t)) 0); trivial.
  - lia.
  - unfold msPerDay. lia.
Qed.

Lemma formatDate_stable_witness :
  zone_within_a_day (fun _ => -18000000)
  /\ Date_parse (fun _ => None) (lit "2019-10-03T21:30:00.000Z")
     = Some 1570138200000
  /\ 1801 <= YearFromTime 1570138200000 <= 2099
  /\ formatDate (fun _ => None) (fun _ => -18000000)
                (Some (formatDate (fun _ => None) (fun _ => -18000000)
                                  (Some (lit "2019-10-03T21:30:00.000Z"))))
     = formatDate (fun _ => None) (fun _ => -18000000)
                  (Some (lit "2019-10-03T21:30:00.000Z")).
Proof.
  assert (H : zone_within_a_day (fun _ => -18000000))
    by (intros t; unfold msPerDay; lia).
  assert (P : Date_parse (fun _ => None) (lit "2019-10-03T21:30:00.000Z")
              = Some 1570138200000) by reflexivity.
  assert (Y : 1801 <= YearFromTime 1570138200000 <= 2099)
    by (vm_compute; split; discriminate).
  split; [exact H|]. split; [exact P|]. split; [exact Y|].
  exact (proj2 (formatDate_stable (fun _ => None) (fun _ => -18000000)
                  (lit "2019-10-03T21:30:00.000Z") 1570138200000 H
                  ltac:(discriminate) P Y)).
Defined.
